(** * The events pipeline of tracee (pkg/ebpf/events_pipeline.go)

    A shallow embedding of the user-space event pipeline: the decoder, the
    scope refinement ([computeScopes] / [shouldProcessEvent]), the processor's
    container-filter correction, the deriver and the sink, together with
    [getStackAddresses] and [parseArguments].

    Conventions.
    - Go's fixed-width integers are [Z] with the wrap-around written out
      (module [GoInt]); [int] and [uint] are 64 bits wide, the only width on
      which [getStackAddresses] can run ([binary.LittleEndian.Uint64] needs
      8 bytes per frame).
    - A channel is the list of the values that travel through it, in order.
      A [select] between a send and [ctx.Done()] is resolved by an oracle
      value of type [sel] that comes with the input.
    - A run-time panic (index or slice out of range) is [None].
    - Code of other packages (bufferdecoder, events, filters, utils,
      containers, derive) is not part of this file's source: function-valued
      record fields and section variables stand for it, and the few pieces
      that are fixed here say so in their comment.
    - [queueEvents], [MergeErrors], [WaitForPipeline] and the wiring of the
      stages in [handleEvents] are goroutine plumbing; they are left out. *)

From Stdlib Require Import ZArith Lia Bool List String.
From stdpp Require Import base option list gmap strings.

Local Open Scope Z_scope.

(** ** Go integers *)

Module GoInt.

Definition uint64 (z : Z) : Z := z mod 2 ^ 64.
Definition uint32 (z : Z) : Z := z mod 2 ^ 32.

(** [int(x)] for a 64-bit [x]: the two's complement reading. *)
Definition int64 (z : Z) : Z := (z + 2 ^ 63) mod 2 ^ 64 - 2 ^ 63.

(** [^x] on a [uint64]. *)
Definition not64 (x : Z) : Z := Z.lxor x (Z.ones 64).

(** [1 << offset] on a [uint64]: a shift count of 64 or more gives 0. *)
Definition bit64 (offset : Z) : Z :=
  if offset <? 64 then Z.shiftl 1 offset else 0.

End GoInt.

(** ** pkg/utils: bit operations on the scope bitmap *)

Module utils.

(** Modelled from the spec: [utils.HasBit] is missing from the source; the
    spec names the bitmap operations bit-test and bit-clear. *)
Definition HasBit (n offset : Z) : bool := 0 <? Z.land n (GoInt.bit64 offset).

(** Modelled from the spec: [utils.ClearBit] is missing from the source;
    [*n &= ^(1 << offset)]. *)
Definition ClearBit (n offset : Z) : Z :=
  Z.land n (GoInt.not64 (GoInt.bit64 offset)).

(** Modelled from the spec: [utils.ClearBits] is missing from the source;
    [*n &= ^mask]. *)
Definition ClearBits (n mask : Z) : Z := Z.land n (GoInt.not64 mask).

End utils.

(** ** types/trace *)

Module trace.

Record ArgMeta := { Name : string; Type_ : string }.

(** The value of an argument is an [interface{}] in the source; the three
    shapes below are enough for the pipeline, which never looks inside. *)
Inductive ArgValue :=
| VInt (z : Z)
| VStr (s : string)
| VBytes (b : list Byte.byte).

Record Argument := { Meta : ArgMeta; Value : ArgValue }.

Record ContextFlags := { ContainerStarted : bool; IsCompat : bool }.

Record Event := {
  Timestamp : Z;
  ThreadStartTime : Z;
  ProcessorID : Z;
  ProcessID : Z;
  ThreadID : Z;
  ParentProcessID : Z;
  HostProcessID : Z;
  HostThreadID : Z;
  HostParentProcessID : Z;
  UserID : Z;
  MountNS : Z;
  PIDNS : Z;
  ProcessName : string;
  HostName : string;
  CgroupID : Z;
  ContainerID : string;
  ContainerImage : string;
  ContainerName : string;
  PodName : string;
  PodNamespace : string;
  PodUID : string;
  PodSandbox : bool;
  EventID : Z;
  EventName : string;
  MatchedScopes : Z;
  ArgsNum : Z;
  ReturnValue : Z;
  Args : list Argument;
  StackAddresses : list Z;
  Flags : ContextFlags
}.

(** [event.MatchedScopes = m]: the assignment to one field. *)
Definition setMatchedScopes (e : Event) (m : Z) : Event :=
  {| Timestamp := Timestamp e; ThreadStartTime := ThreadStartTime e;
     ProcessorID := ProcessorID e; ProcessID := ProcessID e;
     ThreadID := ThreadID e; ParentProcessID := ParentProcessID e;
     HostProcessID := HostProcessID e; HostThreadID := HostThreadID e;
     HostParentProcessID := HostParentProcessID e; UserID := UserID e;
     MountNS := MountNS e; PIDNS := PIDNS e; ProcessName := ProcessName e;
     HostName := HostName e; CgroupID := CgroupID e;
     ContainerID := ContainerID e; ContainerImage := ContainerImage e;
     ContainerName := ContainerName e; PodName := PodName e;
     PodNamespace := PodNamespace e; PodUID := PodUID e;
     PodSandbox := PodSandbox e; EventID := EventID e;
     EventName := EventName e; MatchedScopes := m; ArgsNum := ArgsNum e;
     ReturnValue := ReturnValue e; Args := Args e;
     StackAddresses := StackAddresses e; Flags := Flags e |}.

End trace.

(** ** pkg/filters and the filter scopes *)

Module filters.

(** The UID and PID filters, as far as the pipeline uses them: the two
    methods [Enabled()] and [InMinMaxRange(uint32)]. *)
Record UIntFilter := {
  Enabled : bool;
  InMinMaxRange : Z -> bool
}.

(** Modelled from the spec: a filter over the closed range [[min, max]];
    the implementation of [InMinMaxRange] is missing from the source. *)
Definition rangeFilter (enabled : bool) (min max : Z) : UIntFilter :=
  {| Enabled := enabled;
     InMinMaxRange := fun v => (min <=? v) && (v <=? max) |}.

(** One filter scope.  [ContextFilter] is [ContextFilter.Filter(event)],
    [RetFilter] is [RetFilter.Filter(eventID, retval)], [ArgFilter] is
    [ArgFilter.Filter(eventID, args)]. *)
Record FilterScope := {
  ID : Z;
  ContextFilter : trace.Event -> bool;
  RetFilter : Z -> Z -> bool;
  ArgFilter : Z -> list trace.Argument -> bool;
  UIDFilter : UIntFilter;
  PIDFilter : UIntFilter;
  ContainerFilterEnabled : bool
}.

End filters.

(** ** computeScopes and shouldProcessEvent *)

(** [t.config.FilterScopes.Map()] is ranged over in an order Go does not
    fix; the list is one such order, and nothing below depends on it. *)
Definition FilterScopes := list filters.FilterScope.

(** One iteration of the loop of [computeScopes] (source lines 257-305). *)
Definition computeScopes_step (event : trace.Event) (origMatchedScopes : Z)
    (matchedScopes : Z) (filterScope : filters.FilterScope) : Z :=
  let eventID := trace.EventID event in
  let bitOffset := GoInt.uint64 (filters.ID filterScope) in
  if negb (utils.HasBit origMatchedScopes bitOffset) then matchedScopes
  else if negb (filters.ContextFilter filterScope event) then
    utils.ClearBit matchedScopes bitOffset
  else if negb (filters.RetFilter filterScope eventID
                  (GoInt.int64 (trace.ReturnValue event))) then
    utils.ClearBit matchedScopes bitOffset
  else if negb (filters.ArgFilter filterScope eventID (trace.Args event)) then
    utils.ClearBit matchedScopes bitOffset
  else if filters.Enabled (filters.UIDFilter filterScope) &&
          negb (filters.InMinMaxRange (filters.UIDFilter filterScope)
                  (GoInt.uint32 (trace.UserID event))) then
    utils.ClearBit matchedScopes bitOffset
  else if filters.Enabled (filters.PIDFilter filterScope) &&
          negb (filters.InMinMaxRange (filters.PIDFilter filterScope)
                  (GoInt.uint32 (trace.HostProcessID event))) then
    utils.ClearBit matchedScopes bitOffset
  else matchedScopes.

Definition computeScopes (scopes : FilterScopes) (event : trace.Event) : Z :=
  let origMatchedScopes := trace.MatchedScopes event in
  fold_left (computeScopes_step event origMatchedScopes) scopes
    (trace.MatchedScopes event).

(** [shouldProcessEvent] writes through its pointer argument: the event
    after the call is returned with the boolean. *)
Definition shouldProcessEvent (scopes : FilterScopes) (event : trace.Event)
    : trace.Event * bool :=
  let event' := trace.setMatchedScopes event (computeScopes scopes event) in
  (event', negb (trace.MatchedScopes event' =? 0)).

(** The five checks of one scope on one event, as one boolean: [true] when
    none of them rejects. *)
Definition scopeAccepts (s : filters.FilterScope) (event : trace.Event) : bool :=
  filters.ContextFilter s event
  && filters.RetFilter s (trace.EventID event)
       (GoInt.int64 (trace.ReturnValue event))
  && filters.ArgFilter s (trace.EventID event) (trace.Args event)
  && negb (filters.Enabled (filters.UIDFilter s)
           && negb (filters.InMinMaxRange (filters.UIDFilter s)
                      (GoInt.uint32 (trace.UserID event))))
  && negb (filters.Enabled (filters.PIDFilter s)
           && negb (filters.InMinMaxRange (filters.PIDFilter s)
                      (GoInt.uint32 (trace.HostProcessID event)))).

(** ** pkg/bufferdecoder *)

Module bufferdecoder.

(** Modelled from the spec: the declaration of the [Context] struct is
    missing from the source; the fields are the ones [decodeEvents] reads,
    with the widths of the spec's header ([Ts], [StartTime], [CgroupID] and
    [MatchedScopes] are [uint64], [Retval] is [int64], [EventID] is [int32],
    [Argnum] is [uint8], the others are [uint32] or narrower). *)
Record Context := {
  Ts : Z;
  StartTime : Z;
  CgroupID : Z;
  Pid : Z;
  Tid : Z;
  Ppid : Z;
  HostPid : Z;
  HostTid : Z;
  HostPpid : Z;
  Uid : Z;
  MntID : Z;
  PidID : Z;
  Comm : list Byte.byte;
  UtsName : list Byte.byte;
  Flags : Z;
  EventID : Z;
  MatchedScopes : Z;
  ProcessorId : Z;
  Argnum : Z;
  Retval : Z;
  StackID : Z
}.

Definition setTimes (ctx : Context) (ts startTime : Z) : Context :=
  {| Ts := ts; StartTime := startTime; CgroupID := CgroupID ctx;
     Pid := Pid ctx; Tid := Tid ctx; Ppid := Ppid ctx;
     HostPid := HostPid ctx; HostTid := HostTid ctx;
     HostPpid := HostPpid ctx; Uid := Uid ctx; MntID := MntID ctx;
     PidID := PidID ctx; Comm := Comm ctx; UtsName := UtsName ctx;
     Flags := Flags ctx; EventID := EventID ctx;
     MatchedScopes := MatchedScopes ctx; ProcessorId := ProcessorId ctx;
     Argnum := Argnum ctx; Retval := Retval ctx; StackID := StackID ctx |}.

(** The decoder over one raw record: the bytes and a read cursor. *)
Record EbpfDecoder := { buffer : list Byte.byte; cursor : nat }.

Definition New (dataRaw : list Byte.byte) : EbpfDecoder :=
  {| buffer := dataRaw; cursor := 0 |}.

End bufferdecoder.

(** ** pkg/events and pkg/containers, as far as the pipeline reads them *)

Module events.

Record EventDefinition := { Name : string; Params : list trace.ArgMeta }.

End events.

Module containers.

Record Pod := { PodName : string; Namespace : string; UID : string; Sandbox : bool }.

Record Container := {
  ContainerId : string;
  Image : string;
  Name : string;
  ContainerPod : Pod
}.

End containers.

(** ** Errors, statistics, configuration and the tracer state *)

Inductive error :=
| ErrGetConfiguration (eventId : Z)
| ErrReadArgument (i : Z) (eventName : string) (cause : error)
| ErrOther (msg : string).

Inductive result (A : Type) :=
| Ok (a : A)
| Err (e : error).

Arguments Ok {A} a.
Arguments Err {A} e.

Record Stats := {
  EventCount : nat;
  EventsFiltered : nat;
  ErrorCount : nat
}.

Record OutputConfig := {
  OutStackAddresses : bool;
  RelativeTime : bool;
  ParseArguments : bool;
  ParseArgumentsFDs : bool
}.

Record Config := {
  Output : OutputConfig;
  EngineEnabled : bool;
  ConfigFilterScopes : FilterScopes
}.

Record eventConfig := { submit : Z; emit : Z }.

Record Tracee := {
  config : Config;
  startTime : Z;
  bootTime : Z;
  eventDerivations : gset Z;
  tevents : gmap Z eventConfig;
  tcontainers : Z -> containers.Container;
  StackAddressesMap : gmap Z (list Byte.byte);
  stats : Stats
}.

Definition setStats (t : Tracee) (s : Stats) : Tracee :=
  {| config := config t; startTime := startTime t; bootTime := bootTime t;
     eventDerivations := eventDerivations t; tevents := tevents t;
     tcontainers := tcontainers t; StackAddressesMap := StackAddressesMap t;
     stats := s |}.

Definition setStackAddressesMap (t : Tracee) (m : gmap Z (list Byte.byte))
    : Tracee :=
  {| config := config t; startTime := startTime t; bootTime := bootTime t;
     eventDerivations := eventDerivations t; tevents := tevents t;
     tcontainers := tcontainers t; StackAddressesMap := m;
     stats := stats t |}.

Definition incEventCount (t : Tracee) : Tracee :=
  setStats t {| EventCount := S (EventCount (stats t));
                EventsFiltered := EventsFiltered (stats t);
                ErrorCount := ErrorCount (stats t) |}.

Definition incEventsFiltered (t : Tracee) : Tracee :=
  setStats t {| EventCount := EventCount (stats t);
                EventsFiltered := S (EventsFiltered (stats t));
                ErrorCount := ErrorCount (stats t) |}.

(** [handleError]: count the error (the log line is not modelled). *)
Definition handleError (t : Tracee) (err : error) : Tracee :=
  setStats t {| EventCount := EventCount (stats t);
                EventsFiltered := EventsFiltered (stats t);
                ErrorCount := S (ErrorCount (stats t)) |}.

(** Which case of a [select] between the channel operation and
    [ctx.Done()] fires. *)
Inductive sel := Proceed | CtxDone.

(** ** getStackAddresses *)

Definition maxStackDepth : nat := 20.

(** [binary.LittleEndian.Uint64]. *)
Definition le_uint64 (b : list Byte.byte) : Z :=
  fold_right (fun x acc => Z.of_N (Byte.to_N x) + 256 * acc) 0 b.

(** The loop of [getStackAddresses] (source lines 478-487), one frame of
    [stackFrameSize = 8] bytes per iteration.  [StackAddresses] is the
    20-element slice and [stackCounter] the write index.  The write
    [StackAddresses[stackCounter] = 0] panics when the index is out of
    range; so does the slice [stackBytes[i : i+8]] when fewer than 8 bytes
    are left (the value read from the map has no spare capacity). *)
Fixpoint stackLoop (stackBytes : list Byte.byte) (StackAddresses : list Z)
    (stackCounter : nat) : option (list Z * nat) :=
  match stackBytes with
  | [] => Some (StackAddresses, stackCounter)
  | b0 :: b1 :: b2 :: b3 :: b4 :: b5 :: b6 :: b7 :: rest =>
      if decide (stackCounter < length StackAddresses)%nat then
        let StackAddresses0 := <[stackCounter := 0]> StackAddresses in
        let stackAddr := le_uint64 [b0; b1; b2; b3; b4; b5; b6; b7] in
        if stackAddr =? 0 then Some (StackAddresses0, stackCounter)
        else stackLoop rest (<[stackCounter := stackAddr]> StackAddresses0)
               (S stackCounter)
      else None
  | _ => None
  end.

(** What [getStackAddresses] returns for the bytes found in the table. *)
Definition stackAddressesOf (stackBytes : list Byte.byte) : option (list Z) :=
  '(StackAddresses, stackCounter) ← stackLoop stackBytes (replicate maxStackDepth 0) 0%nat;
  Some (take stackCounter StackAddresses).

(** A failing [GetValue] is a missing key.  The source ignores the error
    of [DeleteKey]; this is the call in which the delete succeeds, and
    [getStackAddressesWith] below takes the outcome of the delete as an
    input. *)
Definition getStackAddresses (t : Tracee) (StackID : Z)
    : option (list Z * Tracee) :=
  match StackAddressesMap t !! StackID with
  | None => Some ([], t)
  | Some stackBytes =>
      StackAddresses ← stackAddressesOf stackBytes;
      Some (StackAddresses,
            setStackAddressesMap t (delete StackID (StackAddressesMap t)))
  end.

(** ** Helpers of decodeEvents *)

Definition parseContextFlags (flags : Z) : trace.ContextFlags :=
  let ContainerStartFlag := 1 in
  let IsCompatFlag := 2 in
  {| trace.ContainerStarted := negb (Z.land flags ContainerStartFlag =? 0);
     trace.IsCompat := negb (Z.land flags IsCompatFlag =? 0) |}.

(** [bytes.TrimRight(b, "\x00")]. *)
Fixpoint trimRightNul (b : list Byte.byte) : list Byte.byte :=
  match b with
  | [] => []
  | x :: rest =>
      match trimRightNul rest with
      | [] => if Byte.eqb x Byte.x00 then [] else [x]
      | rest' => x :: rest'
      end
  end.

(** The two timestamp modes (source lines 186-194), on [uint64]. *)
Definition normalizeTimes (t : Tracee) (ctx : bufferdecoder.Context)
    : bufferdecoder.Context :=
  if RelativeTime (Output (config t)) then
    bufferdecoder.setTimes ctx
      (GoInt.uint64 (bufferdecoder.Ts ctx - startTime t))
      (GoInt.uint64 (bufferdecoder.StartTime ctx - startTime t))
  else
    bufferdecoder.setTimes ctx
      (GoInt.uint64 (bufferdecoder.Ts ctx + bootTime t))
      (GoInt.uint64 (bufferdecoder.StartTime ctx + bootTime t)).

(** The composite literal of source lines 198-229. *)
Definition makeEvent (t : Tracee) (ctx : bufferdecoder.Context)
    (eventDefinition : events.EventDefinition) (args : list trace.Argument)
    (StackAddresses : list Z) : trace.Event :=
  let containerInfo := tcontainers t (bufferdecoder.CgroupID ctx) in
  {| trace.Timestamp := GoInt.int64 (bufferdecoder.Ts ctx);
     trace.ThreadStartTime := GoInt.int64 (bufferdecoder.StartTime ctx);
     trace.ProcessorID := bufferdecoder.ProcessorId ctx;
     trace.ProcessID := bufferdecoder.Pid ctx;
     trace.ThreadID := bufferdecoder.Tid ctx;
     trace.ParentProcessID := bufferdecoder.Ppid ctx;
     trace.HostProcessID := bufferdecoder.HostPid ctx;
     trace.HostThreadID := bufferdecoder.HostTid ctx;
     trace.HostParentProcessID := bufferdecoder.HostPpid ctx;
     trace.UserID := bufferdecoder.Uid ctx;
     trace.MountNS := bufferdecoder.MntID ctx;
     trace.PIDNS := bufferdecoder.PidID ctx;
     trace.ProcessName :=
       string_of_list_byte (trimRightNul (bufferdecoder.Comm ctx));
     trace.HostName :=
       string_of_list_byte (trimRightNul (bufferdecoder.UtsName ctx));
     trace.CgroupID := bufferdecoder.CgroupID ctx;
     trace.ContainerID := containers.ContainerId containerInfo;
     trace.ContainerImage := containers.Image containerInfo;
     trace.ContainerName := containers.Name containerInfo;
     trace.PodName := containers.PodName (containers.ContainerPod containerInfo);
     trace.PodNamespace :=
       containers.Namespace (containers.ContainerPod containerInfo);
     trace.PodUID := containers.UID (containers.ContainerPod containerInfo);
     trace.PodSandbox :=
       containers.Sandbox (containers.ContainerPod containerInfo);
     trace.EventID := bufferdecoder.EventID ctx;
     trace.EventName := events.Name eventDefinition;
     trace.MatchedScopes := bufferdecoder.MatchedScopes ctx;
     trace.ArgsNum := bufferdecoder.Argnum ctx;
     trace.ReturnValue := bufferdecoder.Retval ctx;
     trace.Args := args;
     trace.StackAddresses := StackAddresses;
     trace.Flags := parseContextFlags (bufferdecoder.Flags ctx) |}.

(** Modelled from the spec: [FilterScopes.ContainerFilterEnabled()] is
    missing from the source; it reads the bitmap of the scopes that have a
    container filter enabled. *)
Definition ContainerFilterEnabled (scopes : FilterScopes) : Z :=
  fold_left
    (fun acc s =>
       if filters.ContainerFilterEnabled s
       then Z.lor acc (GoInt.bit64 (GoInt.uint64 (filters.ID s)))
       else acc)
    scopes 0.

(** What the sink does that an observer can see: a call of
    [parseArguments] on an event, and a send on [t.config.ChanEvents]. *)
Inductive SinkAction :=
| CallParseArguments (e : trace.Event)
| SendChanEvents (e : trace.Event).

Definition isSend (a : SinkAction) : bool :=
  match a with SendChanEvents _ => true | CallParseArguments _ => false end.

Definition isParse (a : SinkAction) : bool :=
  match a with CallParseArguments _ => true | SendChanEvents _ => false end.

(** ** The stages *)

Section Pipeline.

(** The code the stages call into and that lives in other packages. *)
Variable DecodeContext :
  bufferdecoder.EbpfDecoder -> result bufferdecoder.Context * bufferdecoder.EbpfDecoder.
Variable GetSafe : Z -> option events.EventDefinition.
Variable ReadArgFromBuff :
  Z -> bufferdecoder.EbpfDecoder -> list trace.ArgMeta ->
  result (trace.ArgMeta * trace.ArgValue) * bufferdecoder.EbpfDecoder.
Variable processEvent : Tracee -> trace.Event -> Tracee * trace.Event * list error.
Variable DeriveEvent : Tracee -> trace.Event -> list trace.Event * list error.
Variable ParseArgs : trace.Event -> trace.Event * option error.
Variable ParseArgsFDs : Tracee -> trace.Event -> trace.Event * option error.

(** The event ids the stages compare with. *)
Variables CgroupMkdir CgroupRmdir : Z.
Variables SymbolsLoaded SharedObjectLoaded PrintMemDump : Z.

(** *** decodeEvents *)

(** The argument loop (source lines 163-175): [n] iterations are left, [i]
    is the loop counter.  A failing read is counted and the loop goes on
    with the next argument. *)
Fixpoint readArgs (n : nat) (i : Z) (eventId : Z)
    (eventDefinition : events.EventDefinition)
    (ebpfMsgDecoder : bufferdecoder.EbpfDecoder)
    (args : list trace.Argument) (t : Tracee)
    : list trace.Argument * bufferdecoder.EbpfDecoder * Tracee :=
  match n with
  | O => (args, ebpfMsgDecoder, t)
  | S n' =>
      match ReadArgFromBuff eventId ebpfMsgDecoder
              (events.Params eventDefinition) with
      | (Err err, d) =>
          readArgs n' (i + 1) eventId eventDefinition d args
            (handleError t
               (ErrReadArgument i (events.Name eventDefinition) err))
      | (Ok (argMeta, argVal), d) =>
          readArgs n' (i + 1) eventId eventDefinition d
            (args ++ [{| trace.Meta := argMeta; trace.Value := argVal |}]) t
      end
  end.

(** The body of the loop over [sourceChan] up to the [select]: the tracer
    state after it, and the event that is ready to be sent, if any
    ([None] in the pair stands for [continue]). *)
Definition decodeEvent (t : Tracee) (dataRaw : list Byte.byte)
    : option (Tracee * option trace.Event) :=
  let ebpfMsgDecoder := bufferdecoder.New dataRaw in
  match DecodeContext ebpfMsgDecoder with
  | (Err err, _) => Some (handleError t err, None)
  | (Ok ctx, ebpfMsgDecoder) =>
      let eventId := bufferdecoder.EventID ctx in
      match GetSafe eventId with
      | None => Some (handleError t (ErrGetConfiguration eventId), None)
      | Some eventDefinition =>
          let '(args, _, t) :=
            readArgs (Z.to_nat (bufferdecoder.Argnum ctx)) 0 eventId
              eventDefinition ebpfMsgDecoder [] t in
          '(StackAddresses, t) ←
            (if OutStackAddresses (Output (config t))
             then getStackAddresses t (bufferdecoder.StackID ctx)
             else Some ([], t));
          let ctx := normalizeTimes t ctx in
          let evt := makeEvent t ctx eventDefinition args StackAddresses in
          if negb (bool_decide (eventId ∈ eventDerivations t)) then
            let '(evt, ok) :=
              shouldProcessEvent (ConfigFilterScopes (config t)) evt in
            if negb ok then Some (incEventsFiltered t, None)
            else Some (t, Some evt)
          else Some (t, Some evt)
      end
  end.

Fixpoint decodeEvents (t : Tracee) (sourceChan : list (list Byte.byte * sel))
    : option (Tracee * list trace.Event) :=
  match sourceChan with
  | [] => Some (t, [])
  | (dataRaw, s) :: rest =>
      '(t, r) ← decodeEvent t dataRaw;
      match r, s with
      | None, _ => decodeEvents t rest
      | Some evt, Proceed =>
          '(t, out) ← decodeEvents t rest; Some (t, evt :: out)
      | Some evt, CtxDone => Some (t, [])
      end
  end.

(** *** processEvents *)

Definition processEventsStep (t : Tracee) (event : trace.Event)
    : Tracee * option trace.Event :=
  let '(t, event, errs) := processEvent t event in
  if (0 <? length errs)%nat then (fold_left handleError errs t, None)
  else
    let scopesWithContainerFilter :=
      ContainerFilterEnabled (ConfigFilterScopes (config t)) in
    if (0 <? scopesWithContainerFilter)
       && bool_decide (trace.ContainerID event = EmptyString) then
      let eventId := trace.EventID event in
      if negb (eventId =? CgroupMkdir) && negb (eventId =? CgroupRmdir) then
        let event :=
          trace.setMatchedScopes event
            (utils.ClearBits (trace.MatchedScopes event)
               scopesWithContainerFilter) in
        if trace.MatchedScopes event =? 0 then (t, None)
        else (t, Some event)
      else (t, Some event)
    else (t, Some event).

Fixpoint processEvents (t : Tracee) (in_ : list (trace.Event * sel))
    : Tracee * list trace.Event :=
  match in_ with
  | [] => (t, [])
  | (event, s) :: rest =>
      let '(t, r) := processEventsStep t event in
      match r, s with
      | None, _ => processEvents t rest
      | Some event, Proceed =>
          let '(t, out) := processEvents t rest in (t, event :: out)
      | Some event, CtxDone => (t, [])
      end
  end.

(** *** deriveEvents *)

(** The loop over the derivatives (source lines 404-420). *)
Fixpoint deriveLoop (t : Tracee) (derivatives : list trace.Event)
    : Tracee * list trace.Event :=
  match derivatives with
  | [] => (t, [])
  | derivative :: rest =>
      let id := trace.EventID derivative in
      if id =? SymbolsLoaded then
        let '(t, out) := deriveLoop t rest in (t, derivative :: out)
      else if id =? SharedObjectLoaded then
        let '(t, out) := deriveLoop t rest in (t, derivative :: out)
      else if id =? PrintMemDump then
        let '(t, out) := deriveLoop t rest in (t, derivative :: out)
      else
        let '(derivative, ok) :=
          shouldProcessEvent (ConfigFilterScopes (config t)) derivative in
        if negb ok then deriveLoop (incEventsFiltered t) rest
        else let '(t, out) := deriveLoop t rest in (t, derivative :: out)
  end.

(** One received event: it is sent on, then its copy is derived from. *)
Definition deriveEventsStep (t : Tracee) (event : trace.Event)
    : Tracee * list trace.Event :=
  let eventCopy := event in
  let '(derivatives, errors) := DeriveEvent t eventCopy in
  let t := fold_left handleError errors t in
  let '(t, out) := deriveLoop t derivatives in
  (t, event :: out).

Fixpoint deriveEvents (t : Tracee) (in_ : list (trace.Event * sel))
    : Tracee * list trace.Event :=
  match in_ with
  | [] => (t, [])
  | (_, CtxDone) :: _ => (t, [])
  | (event, Proceed) :: rest =>
      let '(t, out) := deriveEventsStep t event in
      let '(t, out') := deriveEvents t rest in
      (t, out ++ out')
  end.

(** *** parseArguments and sinkEvents *)

Definition parseArguments (t : Tracee) (e : trace.Event)
    : trace.Event * option error :=
  if ParseArguments (Output (config t)) then
    match ParseArgs e with
    | (e, Some err) => (e, Some err)
    | (e, None) =>
        if ParseArgumentsFDs (Output (config t)) then ParseArgsFDs t e
        else (e, None)
    end
  else (e, None).

(** [t.events[id].emit]; a missing key reads as the zero value. *)
Definition emitMask (t : Tracee) (id : Z) : Z :=
  match tevents t !! id with
  | Some c => emit c
  | None => 0
  end.

(** The body of the sink's loop for one event and one outcome of its
    [select]: the state, what was done, and whether the loop goes on. *)
Definition sinkEvent (t : Tracee) (event : trace.Event) (s : sel)
    : Tracee * list SinkAction * bool :=
  let id := trace.EventID event in
  let event :=
    trace.setMatchedScopes event
      (Z.land (trace.MatchedScopes event) (emitMask t id)) in
  if trace.MatchedScopes event =? 0 then (t, [], true)
  else
    let '(t, event, acts) :=
      if negb (EngineEnabled (config t)) then
        match parseArguments t event with
        | (event', Some err) =>
            (handleError t err, event', [CallParseArguments event])
        | (event', None) => (t, event', [CallParseArguments event])
        end
      else (t, event, []) in
    match s with
    | Proceed => (incEventCount t, acts ++ [SendChanEvents event], true)
    | CtxDone => (t, acts, false)
    end.

Fixpoint sinkEvents (t : Tracee) (in_ : list (trace.Event * sel))
    : Tracee * list SinkAction :=
  match in_ with
  | [] => (t, [])
  | (event, s) :: rest =>
      let '(t, acts, continue) := sinkEvent t event s in
      if continue then
        let '(t, acts') := sinkEvents t rest in (t, acts ++ acts')
      else (t, acts)
  end.

End Pipeline.

(** ** Data of the scenarios *)

(** An event with the given id, host pid, container id and scope bitmap;
    every other field has Go's zero value. *)
Definition sampleEvent (eventID hostPid matchedScopes : Z)
    (containerID : string) : trace.Event :=
  {| trace.Timestamp := 0; trace.ThreadStartTime := 0;
     trace.ProcessorID := 0; trace.ProcessID := 0; trace.ThreadID := 0;
     trace.ParentProcessID := 0; trace.HostProcessID := hostPid;
     trace.HostThreadID := 0; trace.HostParentProcessID := 0;
     trace.UserID := 0; trace.MountNS := 0; trace.PIDNS := 0;
     trace.ProcessName := EmptyString; trace.HostName := EmptyString;
     trace.CgroupID := 0; trace.ContainerID := containerID;
     trace.ContainerImage := EmptyString;
     trace.ContainerName := EmptyString; trace.PodName := EmptyString;
     trace.PodNamespace := EmptyString; trace.PodUID := EmptyString;
     trace.PodSandbox := false; trace.EventID := eventID;
     trace.EventName := EmptyString; trace.MatchedScopes := matchedScopes;
     trace.ArgsNum := 0; trace.ReturnValue := 0; trace.Args := [];
     trace.StackAddresses := [];
     trace.Flags := {| trace.ContainerStarted := false;
                       trace.IsCompat := false |} |}.

(** A scope whose only active filter is a PID range. *)
Definition pidScope (id min max : Z) (containerFilter : bool)
    : filters.FilterScope :=
  {| filters.ID := id;
     filters.ContextFilter := fun _ => true;
     filters.RetFilter := fun _ _ => true;
     filters.ArgFilter := fun _ _ => true;
     filters.UIDFilter := filters.rangeFilter false 0 0;
     filters.PIDFilter := filters.rangeFilter true min max;
     filters.ContainerFilterEnabled := containerFilter |}.

(** Scenario S1: scopes 59 and 30 with their PID ranges, and an event of
    host pid 150 that the kernel matched to both. *)
Definition S1_scopes : FilterScopes :=
  [pidScope 59 100 1257738 false; pidScope 30 502000 505000 false].

Definition S1_event : trace.Event :=
  sampleEvent 59 150 (Z.lor (Z.shiftl 1 30) (Z.shiftl 1 59)) EmptyString.

(** The offset of a scope's bit: [uint(filterScope.ID)]. *)
Definition bitOffset (s : filters.FilterScope) : Z :=
  GoInt.uint64 (filters.ID s).

(** [a] has no bit that [b] lacks. *)
Definition bits_subset (a b : Z) : Prop :=
  forall i, 0 <= i -> Z.testbit a i = true -> Z.testbit b i = true.

(** A scope whose context filter reads the scope bitmap of the event: it
    accepts when bit 0 is set.  No filter of the tracer does that; the
    scope serves to show what idempotence rests on. *)
Definition bitmapReadingScope : filters.FilterScope :=
  {| filters.ID := 1;
     filters.ContextFilter := fun e => Z.testbit (trace.MatchedScopes e) 0;
     filters.RetFilter := fun _ _ => true;
     filters.ArgFilter := fun _ _ => true;
     filters.UIDFilter := filters.rangeFilter false 0 0;
     filters.PIDFilter := filters.rangeFilter false 0 0;
     filters.ContainerFilterEnabled := false |}.

(** Scenario S2: scope 7 has a container filter; the event carries bit 7
    and no container id.  Side effects that do nothing stand for
    [processEvent]; the event ids 20 and 21 stand for [cgroup_mkdir] and
    [cgroup_rmdir]. *)
Definition S2_tracee : Tracee :=
  {| config :=
       {| Output := {| OutStackAddresses := false; RelativeTime := false;
                       ParseArguments := false; ParseArgumentsFDs := false |};
          EngineEnabled := false;
          ConfigFilterScopes := [pidScope 7 0 4194304 true] |};
     startTime := 0; bootTime := 0;
     eventDerivations := ∅; tevents := ∅;
     tcontainers := fun _ =>
       {| containers.ContainerId := EmptyString;
          containers.Image := EmptyString;
          containers.Name := EmptyString;
          containers.ContainerPod :=
            {| containers.PodName := EmptyString;
               containers.Namespace := EmptyString;
               containers.UID := EmptyString;
               containers.Sandbox := false |} |};
     StackAddressesMap := ∅;
     stats := {| EventCount := 0; EventsFiltered := 0; ErrorCount := 0 |} |}.

Definition noSideEffects (t : Tracee) (e : trace.Event)
    : Tracee * trace.Event * list error := (t, e, []).

Definition S2_event : trace.Event :=
  sampleEvent 59 150 (Z.shiftl 1 7) EmptyString.

(** What the deriver does with one derivative, said in one expression:
    the three exempt ids pass as they are, any other derivative passes as
    [shouldProcessEvent] leaves it when that returns [true]. *)
Definition exemptID (SymbolsLoaded SharedObjectLoaded PrintMemDump id : Z)
    : bool :=
  (id =? SymbolsLoaded) || (id =? SharedObjectLoaded) || (id =? PrintMemDump).

Definition derivativeOut (SymbolsLoaded SharedObjectLoaded PrintMemDump : Z)
    (scopes : FilterScopes) (d : trace.Event) : option trace.Event :=
  if exemptID SymbolsLoaded SharedObjectLoaded PrintMemDump (trace.EventID d)
  then Some d
  else if snd (shouldProcessEvent scopes d)
       then Some (fst (shouldProcessEvent scopes d))
       else None.

Definition derivativeRejected
    (SymbolsLoaded SharedObjectLoaded PrintMemDump : Z)
    (scopes : FilterScopes) (d : trace.Event) : bool :=
  negb (exemptID SymbolsLoaded SharedObjectLoaded PrintMemDump (trace.EventID d))
  && negb (snd (shouldProcessEvent scopes d)).

(** Scenario S3: the only scope rejects every host pid, and the derivative
    has the id that stands for [symbols_loaded] (here 31; 32 and 33 stand
    for the other two exempt ids). *)
Definition S3_tracee : Tracee :=
  {| config :=
       {| Output := Output (config S2_tracee);
          EngineEnabled := false;
          ConfigFilterScopes := [pidScope 5 1 0 false] |};
     startTime := 0; bootTime := 0;
     eventDerivations := ∅; tevents := ∅;
     tcontainers := tcontainers S2_tracee;
     StackAddressesMap := ∅;
     stats := {| EventCount := 0; EventsFiltered := 0; ErrorCount := 0 |} |}.

Definition S3_derivative : trace.Event :=
  sampleEvent 31 150 (Z.shiftl 1 5) EmptyString.

(** A sink configuration: the event id 59 is emitted for the scopes 3 and
    59, the rule engine is off and arguments are not parsed; the argument
    parsers of the events package are stood for by functions that leave
    the event alone. *)
Definition sink_tracee : Tracee :=
  {| config := config S2_tracee;
     startTime := 0; bootTime := 0;
     eventDerivations := ∅;
     tevents := {[ 59 := {| submit := 0;
                            emit := Z.lor (Z.shiftl 1 3) (Z.shiftl 1 59) |} ]};
     tcontainers := tcontainers S2_tracee;
     StackAddressesMap := ∅;
     stats := {| EventCount := 0; EventsFiltered := 0; ErrorCount := 0 |} |}.

Definition noParseArgs (e : trace.Event) : trace.Event * option error :=
  (e, None).

Definition noParseArgsFDs (t : Tracee) (e : trace.Event)
    : trace.Event * option error := (e, None).

(** A small record format that stands for the bufferdecoder package in the
    examples: a header of four bytes (event id, argument count, and [Ts] on
    two little-endian bytes) followed by one byte per argument.  Reading
    past the end of the buffer is the error of a short buffer. *)
Definition exampleContext (eventID argnum ts : Z) : bufferdecoder.Context :=
  {| bufferdecoder.Ts := ts; bufferdecoder.StartTime := ts;
     bufferdecoder.CgroupID := 0; bufferdecoder.Pid := 0;
     bufferdecoder.Tid := 0; bufferdecoder.Ppid := 0;
     bufferdecoder.HostPid := 150; bufferdecoder.HostTid := 0;
     bufferdecoder.HostPpid := 0; bufferdecoder.Uid := 0;
     bufferdecoder.MntID := 0; bufferdecoder.PidID := 0;
     bufferdecoder.Comm := []; bufferdecoder.UtsName := [];
     bufferdecoder.Flags := 0; bufferdecoder.EventID := eventID;
     bufferdecoder.MatchedScopes := 1; bufferdecoder.ProcessorId := 0;
     bufferdecoder.Argnum := argnum; bufferdecoder.Retval := 0;
     bufferdecoder.StackID := 0 |}.

Definition exampleDecodeContext (d : bufferdecoder.EbpfDecoder)
    : result bufferdecoder.Context * bufferdecoder.EbpfDecoder :=
  match drop (bufferdecoder.cursor d) (bufferdecoder.buffer d) with
  | id :: n :: ts0 :: ts1 :: _ =>
      (Ok (exampleContext (le_uint64 [id]) (le_uint64 [n])
             (le_uint64 [ts0; ts1])),
       {| bufferdecoder.buffer := bufferdecoder.buffer d;
          bufferdecoder.cursor := bufferdecoder.cursor d + 4 |})
  | _ => (Err (ErrOther "short buffer"), d)
  end.

Definition exampleReadArgFromBuff (eventId : Z)
    (d : bufferdecoder.EbpfDecoder) (params : list trace.ArgMeta)
    : result (trace.ArgMeta * trace.ArgValue) * bufferdecoder.EbpfDecoder :=
  match drop (bufferdecoder.cursor d) (bufferdecoder.buffer d) with
  | b :: _ =>
      (Ok ({| trace.Name := "arg"; trace.Type_ := "u8" |},
           trace.VInt (le_uint64 [b])),
       {| bufferdecoder.buffer := bufferdecoder.buffer d;
          bufferdecoder.cursor := bufferdecoder.cursor d + 1 |})
  | [] => (Err (ErrOther "short buffer"), d)
  end.

Definition exampleGetSafe (eventId : Z) : option events.EventDefinition :=
  if eventId =? 59 then
    Some {| events.Name := "execve";
            events.Params := [{| trace.Name := "arg"; trace.Type_ := "u8" |}] |}
  else None.

(** A tracer without filter scopes, with the given timestamp mode. *)
Definition decode_tracee (relativeTime : bool) (start boot : Z) : Tracee :=
  {| config :=
       {| Output := {| OutStackAddresses := false;
                       RelativeTime := relativeTime;
                       ParseArguments := false; ParseArgumentsFDs := false |};
          EngineEnabled := false;
          ConfigFilterScopes := [] |};
     startTime := start; bootTime := boot;
     eventDerivations := ∅; tevents := ∅;
     tcontainers := tcontainers S2_tracee;
     StackAddressesMap := ∅;
     stats := {| EventCount := 0; EventsFiltered := 0; ErrorCount := 0 |} |}.

(** The same with event 59 registered as the base of a derivation. *)
Definition base_tracee : Tracee :=
  {| config := config (decode_tracee true 1000 0);
     startTime := 1000; bootTime := 0;
     eventDerivations := {[ 59 ]}; tevents := ∅;
     tcontainers := tcontainers S2_tracee;
     StackAddressesMap := ∅;
     stats := {| EventCount := 0; EventsFiltered := 0; ErrorCount := 0 |} |}.

(** A record of event 59 whose header announces two arguments and whose
    payload holds one ([Ts] is 1500 = 0x05dc). *)
Definition truncatedRecord : list Byte.byte :=
  [Byte.x3b; Byte.x02; Byte.xdc; Byte.x05; Byte.x07].

(** A record of event 59 without arguments, [Ts] = 1500. *)
Definition S5_record : list Byte.byte :=
  [Byte.x3b; Byte.x00; Byte.xdc; Byte.x05].

(** One frame of the stack table holding a small address. *)
Definition frame (b : Byte.byte) : list Byte.byte :=
  [b; Byte.x00; Byte.x00; Byte.x00; Byte.x00; Byte.x00; Byte.x00; Byte.x00].

(** Scenario S4: the frames 1 to 25, then a zero frame. *)
Definition S4_stackBytes : list Byte.byte :=
  concat (map frame
            [Byte.x01; Byte.x02; Byte.x03; Byte.x04; Byte.x05; Byte.x06;
             Byte.x07; Byte.x08; Byte.x09; Byte.x0a; Byte.x0b; Byte.x0c;
             Byte.x0d; Byte.x0e; Byte.x0f; Byte.x10; Byte.x11; Byte.x12;
             Byte.x13; Byte.x14; Byte.x15; Byte.x16; Byte.x17; Byte.x18;
             Byte.x19])
  ++ frame Byte.x00.

(** The frames of a byte sequence, decoded; bytes after the last whole
    frame are left out. *)
Fixpoint framesOf (stackBytes : list Byte.byte) : list Z :=
  match stackBytes with
  | b0 :: b1 :: b2 :: b3 :: b4 :: b5 :: b6 :: b7 :: rest =>
      le_uint64 [b0; b1; b2; b3; b4; b5; b6; b7] :: framesOf rest
  | _ => []
  end.

(** The longest prefix without a zero. *)
Fixpoint untilZero (ws : list Z) : list Z :=
  match ws with
  | [] => []
  | w :: ws => if w =? 0 then [] else w :: untilZero ws
  end.

(** The entries on which [getStackAddresses] is meant to run: at most 20
    whole frames, or a zero frame among the first 20 frames. *)
Definition withinMaxDepth (stackBytes : list Byte.byte) : Prop :=
  (exists k, length stackBytes = (8 * k)%nat /\ (k <= maxStackDepth)%nat)
  \/ (exists j, (j < maxStackDepth)%nat /\ framesOf stackBytes !! j = Some 0).

(** ** Further definitions used to state properties of the stages *)

(** The same input with every [select] taking its channel operation: the
    run that is never cancelled. *)
Definition allProceed {A : Type} (in_ : list (A * sel)) : list (A * sel) :=
  map (fun p => (fst p, Proceed)) in_.

(** The events a sink run sent on the output channel, in order. *)
Definition sentEvents (acts : list SinkAction) : list trace.Event :=
  omap (fun a => match a with
                 | SendChanEvents e => Some e
                 | CallParseArguments _ => None
                 end) acts.

(** A tracer that attaches stack addresses, with one entry of two frames
    (then a zero frame) under the stack id 0, and event 59 registered as
    the base of a derivation. *)
Definition stack_tracee : Tracee :=
  {| config :=
       {| Output := {| OutStackAddresses := true; RelativeTime := true;
                       ParseArguments := false; ParseArgumentsFDs := false |};
          EngineEnabled := false;
          ConfigFilterScopes := [pidScope 0 1 0 false] |};
     startTime := 2000; bootTime := 0;
     eventDerivations := {[ 59 ]}; tevents := ∅;
     tcontainers := tcontainers S2_tracee;
     StackAddressesMap :=
       {[ 0 := frame Byte.x0a ++ frame Byte.x0b ++ frame Byte.x00 ]};
     stats := {| EventCount := 0; EventsFiltered := 0; ErrorCount := 0 |} |}.

(** A header whose [Comm] is "sh" padded with NUL bytes and whose
    [UtsName] has a NUL byte inside the name. *)
Definition paddedContext : bufferdecoder.Context :=
  bufferdecoder.setTimes
    {| bufferdecoder.Ts := 0; bufferdecoder.StartTime := 0;
       bufferdecoder.CgroupID := 0; bufferdecoder.Pid := 0;
       bufferdecoder.Tid := 0; bufferdecoder.Ppid := 0;
       bufferdecoder.HostPid := 150; bufferdecoder.HostTid := 0;
       bufferdecoder.HostPpid := 0; bufferdecoder.Uid := 0;
       bufferdecoder.MntID := 0; bufferdecoder.PidID := 0;
       bufferdecoder.Comm := [Byte.x73; Byte.x68; Byte.x00; Byte.x00];
       bufferdecoder.UtsName := [Byte.x61; Byte.x00; Byte.x62; Byte.x00];
       bufferdecoder.Flags := 5; bufferdecoder.EventID := 59;
       bufferdecoder.MatchedScopes := 1; bufferdecoder.ProcessorId := 0;
       bufferdecoder.Argnum := 0; bufferdecoder.Retval := 0;
       bufferdecoder.StackID := 0 |} 1500 1500.

(** A header decoder that returns [paddedContext] for every record. *)
Definition paddedDecodeContext (d : bufferdecoder.EbpfDecoder)
    : result bufferdecoder.Context * bufferdecoder.EbpfDecoder :=
  (Ok paddedContext, d).

(** Side effects that report two errors, and a derivation that yields two
    derivatives (one with the exempt id 31, one of id 40) and one error. *)
Definition failingSideEffects (t : Tracee) (e : trace.Event)
    : Tracee * trace.Event * list error :=
  (t, e, [ErrOther "cgroup"; ErrOther "fd"]).

Definition exampleDeriveEvent (t : Tracee) (e : trace.Event)
    : list trace.Event * list error :=
  ([sampleEvent 31 150 (Z.shiftl 1 5) EmptyString;
    sampleEvent 40 150 (Z.shiftl 1 5) EmptyString],
   [ErrOther "derive"]).

(** [getStackAddresses] with the outcome of [DeleteKey] as an input: the
    source discards the error of the delete, so a failing delete leaves the
    key in the table and changes nothing else. *)
Definition getStackAddressesWith (deleted : bool) (t : Tracee) (StackID : Z)
    : option (list Z * Tracee) :=
  match StackAddressesMap t !! StackID with
  | None => Some ([], t)
  | Some stackBytes =>
      StackAddresses ← stackAddressesOf stackBytes;
      Some (StackAddresses,
            if deleted
            then setStackAddressesMap t (delete StackID (StackAddressesMap t))
            else t)
  end.

(** ** computeScopes and shouldProcessEvent with the effects of the filters

    The filters are methods of objects of another package.  The loop calls
    them with a copy of the event (the context filter is applied to the
    dereferenced pointer, a struct passed by value), with scalars, or with the
    slice [event.Args].  Such a call may change whatever the filter objects
    own, and it can reach the caller's event in one way only: by writing
    elements of the backing arrays of the slices it was handed, [Args] and
    [StackAddresses] through the copy of the event and [Args] through the
    argument filter.  In this module every filter call takes and returns a
    store [FS] of the filters' own and reports the element writes it made;
    the loop is the one of [computeScopes], statement by statement. *)

Module Effectful.

(** Element writes through a slice: index and new value.  A write at an
    index the caller's slice does not have is not seen by the caller. *)
Record SliceWrites := {
  ArgsWrites : list (nat * trace.Argument);
  StackWrites : list (nat * Z)
}.

Definition writeElements {A : Type} (ws : list (nat * A)) (l : list A)
    : list A :=
  fold_left (fun acc w => <[fst w := snd w]> acc) ws l.

(** The event with other contents of its two slices. *)
Definition setSlices (e : trace.Event) (args : list trace.Argument)
    (stackAddresses : list Z) : trace.Event :=
  {| trace.Timestamp := trace.Timestamp e;
     trace.ThreadStartTime := trace.ThreadStartTime e;
     trace.ProcessorID := trace.ProcessorID e;
     trace.ProcessID := trace.ProcessID e;
     trace.ThreadID := trace.ThreadID e;
     trace.ParentProcessID := trace.ParentProcessID e;
     trace.HostProcessID := trace.HostProcessID e;
     trace.HostThreadID := trace.HostThreadID e;
     trace.HostParentProcessID := trace.HostParentProcessID e;
     trace.UserID := trace.UserID e; trace.MountNS := trace.MountNS e;
     trace.PIDNS := trace.PIDNS e;
     trace.ProcessName := trace.ProcessName e;
     trace.HostName := trace.HostName e; trace.CgroupID := trace.CgroupID e;
     trace.ContainerID := trace.ContainerID e;
     trace.ContainerImage := trace.ContainerImage e;
     trace.ContainerName := trace.ContainerName e;
     trace.PodName := trace.PodName e;
     trace.PodNamespace := trace.PodNamespace e;
     trace.PodUID := trace.PodUID e; trace.PodSandbox := trace.PodSandbox e;
     trace.EventID := trace.EventID e; trace.EventName := trace.EventName e;
     trace.MatchedScopes := trace.MatchedScopes e;
     trace.ArgsNum := trace.ArgsNum e;
     trace.ReturnValue := trace.ReturnValue e;
     trace.Args := args;
     trace.StackAddresses := stackAddresses;
     trace.Flags := trace.Flags e |}.

Definition applyWrites (w : SliceWrites) (e : trace.Event) : trace.Event :=
  setSlices e (writeElements (ArgsWrites w) (trace.Args e))
    (writeElements (StackWrites w) (trace.StackAddresses e)).

(** One filter scope: each method takes the filters' store and returns it
    with its result; the two methods that are handed a slice also return
    the writes they made through it. *)
Record FilterScope (FS : Type) := {
  ID : Z;
  ContextFilter : FS -> trace.Event -> bool * FS * SliceWrites;
  RetFilter : FS -> Z -> Z -> bool * FS;
  ArgFilter :
    FS -> Z -> list trace.Argument -> bool * FS * list (nat * trace.Argument);
  UIDEnabled : FS -> bool * FS;
  UIDInMinMaxRange : FS -> Z -> bool * FS;
  PIDEnabled : FS -> bool * FS;
  PIDInMinMaxRange : FS -> Z -> bool * FS
}.

Arguments ID {FS} _.
Arguments ContextFilter {FS} _ _ _.
Arguments RetFilter {FS} _ _ _ _.
Arguments ArgFilter {FS} _ _ _ _.
Arguments UIDEnabled {FS} _ _.
Arguments UIDInMinMaxRange {FS} _ _ _.
Arguments PIDEnabled {FS} _ _.
Arguments PIDInMinMaxRange {FS} _ _ _.

(** [f.Enabled() && !f.InMinMaxRange(v)]: the range is asked only when the
    filter is enabled. *)
Definition enabledAndOutOfRange {FS : Type} (enabled : FS -> bool * FS)
    (inMinMaxRange : FS -> Z -> bool * FS) (fs : FS) (v : Z) : bool * FS :=
  let '(en, fs) := enabled fs in
  if en then let '(inRange, fs) := inMinMaxRange fs v in (negb inRange, fs)
  else (false, fs).

(** One iteration of the loop of [computeScopes] (source lines 257-305):
    the filters' store, the event behind the pointer and the local
    [matchedScopes] before and after it. *)
Definition computeScopes_step {FS : Type} (origMatchedScopes : Z)
    (st : FS * trace.Event * Z) (filterScope : FilterScope FS)
    : FS * trace.Event * Z :=
  let '(fs, event, matchedScopes) := st in
  let eventID := trace.EventID event in
  let bitOffset := GoInt.uint64 (ID filterScope) in
  if negb (utils.HasBit origMatchedScopes bitOffset) then st
  else
    let '(ok, fs, w) := ContextFilter filterScope fs event in
    let event := applyWrites w event in
    if negb ok then (fs, event, utils.ClearBit matchedScopes bitOffset)
    else
      let '(ok, fs) :=
        RetFilter filterScope fs eventID (GoInt.int64 (trace.ReturnValue event)) in
      if negb ok then (fs, event, utils.ClearBit matchedScopes bitOffset)
      else
        let '(ok, fs, aw) := ArgFilter filterScope fs eventID (trace.Args event) in
        let event :=
          applyWrites {| ArgsWrites := aw; StackWrites := [] |} event in
        if negb ok then (fs, event, utils.ClearBit matchedScopes bitOffset)
        else
          let '(out, fs) :=
            enabledAndOutOfRange (UIDEnabled filterScope)
              (UIDInMinMaxRange filterScope) fs
              (GoInt.uint32 (trace.UserID event)) in
          if out then (fs, event, utils.ClearBit matchedScopes bitOffset)
          else
            let '(out, fs) :=
              enabledAndOutOfRange (PIDEnabled filterScope)
                (PIDInMinMaxRange filterScope) fs
                (GoInt.uint32 (trace.HostProcessID event)) in
            if out then (fs, event, utils.ClearBit matchedScopes bitOffset)
            else (fs, event, matchedScopes).

Definition computeScopes {FS : Type} (scopes : list (FilterScope FS))
    (fs : FS) (event : trace.Event) : FS * trace.Event * Z :=
  let origMatchedScopes := trace.MatchedScopes event in
  fold_left (computeScopes_step origMatchedScopes) scopes
    (fs, event, trace.MatchedScopes event).

(** The event behind the pointer after the call, the boolean returned and
    the filters' store. *)
Definition shouldProcessEvent {FS : Type} (scopes : list (FilterScope FS))
    (fs : FS) (event : trace.Event) : trace.Event * bool * FS :=
  let '(fs, event, matchedScopes) := computeScopes scopes fs event in
  let event := trace.setMatchedScopes event matchedScopes in
  (event, negb (trace.MatchedScopes event =? 0), fs).

(** A scope whose filters neither keep a store nor write: the scope of the
    other sections, seen from here. *)
Definition pure (s : filters.FilterScope) : FilterScope unit :=
  {| ID := filters.ID s;
     ContextFilter := fun fs e =>
       (filters.ContextFilter s e, fs,
        {| ArgsWrites := []; StackWrites := [] |});
     RetFilter := fun fs id ret => (filters.RetFilter s id ret, fs);
     ArgFilter := fun fs id args => (filters.ArgFilter s id args, fs, []);
     UIDEnabled := fun fs => (filters.Enabled (filters.UIDFilter s), fs);
     UIDInMinMaxRange := fun fs v =>
       (filters.InMinMaxRange (filters.UIDFilter s) v, fs);
     PIDEnabled := fun fs => (filters.Enabled (filters.PIDFilter s), fs);
     PIDInMinMaxRange := fun fs v =>
       (filters.InMinMaxRange (filters.PIDFilter s) v, fs) |}.

(** The filters of a scope write through none of the slices they get. *)
Definition writesNothing {FS : Type} (s : FilterScope FS) : Prop :=
  (forall fs e,
      snd (ContextFilter s fs e) = {| ArgsWrites := []; StackWrites := [] |})
  /\ (forall fs id args, snd (ArgFilter s fs id args) = []).

(** A scope for bit 0 whose argument filter accepts and overwrites the
    first argument on the way, counting its calls in its store. *)
Definition overwritingScope : FilterScope nat :=
  {| ID := 0;
     ContextFilter := fun fs e =>
       (true, fs, {| ArgsWrites := []; StackWrites := [] |});
     RetFilter := fun fs _ _ => (true, fs);
     ArgFilter := fun fs _ _ =>
       (true, S fs,
        [(0%nat, {| trace.Meta := {| trace.Name := "arg";
                                     trace.Type_ := "u8" |};
                    trace.Value := trace.VInt 0 |})]);
     UIDEnabled := fun fs => (false, fs);
     UIDInMinMaxRange := fun fs _ => (true, fs);
     PIDEnabled := fun fs => (false, fs);
     PIDInMinMaxRange := fun fs _ => (true, fs) |}.

End Effectful.

(** [e] is [e0] up to the contents of the two slices, whose lengths are
    those of [e0]. *)
Definition sameFrame (e0 e : trace.Event) : Prop :=
  e = Effectful.setSlices e0 (trace.Args e) (trace.StackAddresses e)
  /\ length (trace.Args e) = length (trace.Args e0)
  /\ length (trace.StackAddresses e) = length (trace.StackAddresses e0).

(** ** Bit-level facts *)

Lemma bitOffset_nonneg s : 0 <= bitOffset s.
Proof. unfold bitOffset, GoInt.uint64. apply Z.mod_pos_bound. lia. Qed.

Lemma testbit_bit64 off i :
  0 <= off -> 0 <= i ->
  Z.testbit (GoInt.bit64 off) i = (i =? off) && (off <? 64).
Proof.
  intros Hoff Hi. unfold GoInt.bit64.
  destruct (off <? 64) eqn:E.
  - rewrite Z.shiftl_1_l, Z.pow2_bits_eqb by lia.
    rewrite andb_true_r. apply Z.eqb_sym.
  - rewrite Z.bits_0. now rewrite andb_false_r.
Qed.

Lemma testbit_not64 x i :
  0 <= i -> Z.testbit (GoInt.not64 x) i = xorb (Z.testbit x i) (i <? 64).
Proof.
  intros Hi. unfold GoInt.not64.
  rewrite Z.lxor_spec, Z.testbit_ones_nonneg by lia. reflexivity.
Qed.

Lemma testbit_ClearBits n mask i :
  0 <= i -> i < 64 ->
  Z.testbit (utils.ClearBits n mask) i = Z.testbit n i && negb (Z.testbit mask i).
Proof.
  intros Hi Hlt. unfold utils.ClearBits.
  rewrite Z.land_spec, testbit_not64 by lia.
  replace (i <? 64) with true by (symmetry; apply Z.ltb_lt; lia).
  now rewrite xorb_true_r.
Qed.

Lemma testbit_ClearBit n off i :
  0 <= off -> 0 <= i -> i < 64 ->
  Z.testbit (utils.ClearBit n off) i = Z.testbit n i && negb (i =? off).
Proof.
  intros Hoff Hi Hlt.
  change (utils.ClearBit n off) with (utils.ClearBits n (GoInt.bit64 off)).
  rewrite testbit_ClearBits, testbit_bit64 by lia.
  destruct (i =? off) eqn:E; [|reflexivity].
  apply Z.eqb_eq in E. subst off.
  replace (i <? 64) with true by (symmetry; apply Z.ltb_lt; lia).
  reflexivity.
Qed.

Lemma HasBit_spec n off :
  0 <= off -> utils.HasBit n off = Z.testbit n off && (off <? 64).
Proof.
  intros Hoff. unfold utils.HasBit.
  assert (Hland : Z.land n (GoInt.bit64 off)
                  = if Z.testbit n off && (off <? 64) then 2 ^ off else 0).
  { apply Z.bits_inj'. intros i Hi.
    rewrite Z.land_spec, testbit_bit64 by lia.
    destruct (i =? off) eqn:E.
    - apply Z.eqb_eq in E. subst i.
      destruct (Z.testbit n off), (off <? 64); cbn;
        rewrite ?Z.bits_0, ?Z.pow2_bits_true by lia; reflexivity.
    - rewrite andb_false_r.
      destruct (Z.testbit n off && (off <? 64));
        rewrite ?Z.bits_0, ?Z.pow2_bits_false by (apply Z.eqb_neq in E; lia);
        reflexivity. }
  rewrite Hland.
  destruct (Z.testbit n off && (off <? 64)).
  - apply Z.ltb_lt. apply Z.pow_pos_nonneg; lia.
  - reflexivity.
Qed.

Lemma bits_subset_refl a : bits_subset a a.
Proof. intros i _ H. exact H. Qed.

Lemma bits_subset_trans a b c :
  bits_subset a b -> bits_subset b c -> bits_subset a c.
Proof. intros Hab Hbc i Hi H. apply Hbc, Hab; assumption. Qed.

Lemma bits_subset_land_l a b : bits_subset (Z.land a b) a.
Proof.
  intros i _ H. rewrite Z.land_spec in H.
  apply andb_true_iff in H. tauto.
Qed.

Lemma ClearBits_subset n mask : bits_subset (utils.ClearBits n mask) n.
Proof. apply bits_subset_land_l. Qed.

Lemma ClearBit_subset n off : bits_subset (utils.ClearBit n off) n.
Proof. apply bits_subset_land_l. Qed.

(** ** computeScopes, bit by bit *)

Lemma computeScopes_step_spec e orig m s i :
  0 <= i -> i < 64 ->
  Z.testbit (computeScopes_step e orig m s) i
  = Z.testbit m i
    && negb ((i =? bitOffset s) && Z.testbit orig i && negb (scopeAccepts s e)).
Proof.
  intros Hi Hlt. pose proof (bitOffset_nonneg s) as Hoff.
  unfold computeScopes_step, scopeAccepts. fold (bitOffset s).
  rewrite HasBit_spec by assumption.
  destruct (i =? bitOffset s) eqn:E.
  - apply Z.eqb_eq in E. rewrite <- E.
    replace (i <? 64) with true by (symmetry; apply Z.ltb_lt; lia).
    rewrite andb_true_r.
    destruct (Z.testbit orig i); cbn [negb andb];
      [|now rewrite andb_true_r].
    destruct (filters.ContextFilter s e); cbn [negb andb];
      [|rewrite testbit_ClearBit, Z.eqb_refl by lia; cbn [negb]; now rewrite !andb_false_r].
    destruct (filters.RetFilter s _ _); cbn [negb andb];
      [|rewrite testbit_ClearBit, Z.eqb_refl by lia; cbn [negb]; now rewrite !andb_false_r].
    destruct (filters.ArgFilter s _ _); cbn [negb andb];
      [|rewrite testbit_ClearBit, Z.eqb_refl by lia; cbn [negb]; now rewrite !andb_false_r].
    destruct (filters.Enabled (filters.UIDFilter s)
              && negb (filters.InMinMaxRange (filters.UIDFilter s) _));
      cbn [negb andb];
      [rewrite testbit_ClearBit, Z.eqb_refl by lia; cbn [negb]; now rewrite !andb_false_r|].
    destruct (filters.Enabled (filters.PIDFilter s)
              && negb (filters.InMinMaxRange (filters.PIDFilter s) _));
      cbn [negb andb];
      [rewrite testbit_ClearBit, Z.eqb_refl by lia; cbn [negb]; now rewrite !andb_false_r|].
    now rewrite andb_true_r.
  - cbn [andb negb]. rewrite andb_true_r.
    repeat match goal with
           | |- context [if ?b then _ else _] => destruct b
           end;
      rewrite ?testbit_ClearBit, ?E by lia; cbn [negb];
      rewrite ?andb_true_r; reflexivity.
Qed.

Lemma fold_computeScopes_spec e orig scopes m i :
  0 <= i -> i < 64 ->
  Z.testbit (fold_left (computeScopes_step e orig) scopes m) i
  = Z.testbit m i
    && forallb (fun s => negb ((i =? bitOffset s) && Z.testbit orig i
                               && negb (scopeAccepts s e))) scopes.
Proof.
  intros Hi Hlt. revert m.
  induction scopes as [|s scopes IH]; intros m; cbn [fold_left forallb].
  - now rewrite andb_true_r.
  - rewrite IH, computeScopes_step_spec by assumption.
    now rewrite andb_assoc.
Qed.

Lemma forallb_pointwise {A} (f g : A -> bool) (l : list A) :
  (forall x, f x = g x) -> forallb f l = forallb g l.
Proof.
  intros H. induction l as [|x l IH]; cbn [forallb]; [reflexivity|].
  now rewrite H, IH.
Qed.

(** The bit [i] of the result is set when it was set by the kernel and
    every configured scope with that offset accepts the event. *)
Lemma computeScopes_testbit scopes e i :
  0 <= i -> i < 64 ->
  Z.testbit (computeScopes scopes e) i
  = Z.testbit (trace.MatchedScopes e) i
    && forallb (fun s => negb (i =? bitOffset s) || scopeAccepts s e) scopes.
Proof.
  intros Hi Hlt. unfold computeScopes.
  rewrite fold_computeScopes_spec by assumption.
  destruct (Z.testbit (trace.MatchedScopes e) i); [|reflexivity].
  cbn [andb].
  apply forallb_pointwise. intros s.
  destruct (i =? bitOffset s), (scopeAccepts s e); reflexivity.
Qed.

Lemma computeScopes_step_subset e orig m s :
  bits_subset (computeScopes_step e orig m s) m.
Proof.
  unfold computeScopes_step.
  repeat match goal with
         | |- context [if ?b then _ else _] => destruct b
         end;
    auto using bits_subset_refl, ClearBit_subset.
Qed.

Lemma computeScopes_subset scopes e :
  bits_subset (computeScopes scopes e) (trace.MatchedScopes e).
Proof.
  unfold computeScopes.
  generalize (trace.MatchedScopes e) at 2 3 as m.
  generalize (trace.MatchedScopes e) as orig.
  intros orig. induction scopes as [|s scopes IH]; intros m; cbn [fold_left].
  - apply bits_subset_refl.
  - eapply bits_subset_trans; [apply IH|apply computeScopes_step_subset].
Qed.

(** A scope that accepts leaves the bitmap alone. *)
Lemma computeScopes_step_accepts e orig m s :
  (utils.HasBit orig (bitOffset s) = true -> scopeAccepts s e = true) ->
  computeScopes_step e orig m s = m.
Proof.
  intros H. unfold computeScopes_step. fold (bitOffset s).
  destruct (utils.HasBit orig (bitOffset s)); [|reflexivity].
  specialize (H eq_refl). unfold scopeAccepts in H.
  repeat (apply andb_true_iff in H; destruct H as [H ?]).
  repeat match goal with
         | Hx : negb _ = true |- _ => apply negb_true_iff in Hx; rewrite Hx
         | Hx : _ = true |- _ => rewrite Hx
         end.
  reflexivity.
Qed.

(** Two iterations of the loop commute, so the order in which Go ranges
    over the map of scopes does not show in the result. *)
Lemma computeScopes_step_comm e orig m s1 s2 :
  computeScopes_step e orig (computeScopes_step e orig m s1) s2
  = computeScopes_step e orig (computeScopes_step e orig m s2) s1.
Proof.
  unfold computeScopes_step, utils.ClearBit.
  repeat match goal with
         | |- context [if ?b then _ else _] => destruct b
         end;
    try reflexivity;
    rewrite <- !Z.land_assoc; f_equal; apply Z.land_comm.
Qed.

Lemma computeScopes_Permutation scopes scopes' e :
  Permutation scopes scopes' ->
  computeScopes scopes e = computeScopes scopes' e.
Proof.
  unfold computeScopes. generalize (trace.MatchedScopes e) at 2 4 as m.
  intros m Hperm. revert m.
  induction Hperm as [|s l l' _ IH|s1 s2 l|l l' l'' _ IH1 _ IH2]; intros m;
    cbn [fold_left].
  - reflexivity.
  - apply IH.
  - now rewrite computeScopes_step_comm.
  - now rewrite IH1.
Qed.

Lemma forallb_other_offsets e off scopes :
  ~ In off (map bitOffset scopes) ->
  forallb (fun s => negb (off =? bitOffset s) || scopeAccepts s e) scopes = true.
Proof.
  induction scopes as [|s scopes IH]; cbn [map forallb In]; intros Hn.
  - reflexivity.
  - rewrite IH by tauto.
    destruct (off =? bitOffset s) eqn:E; [|reflexivity].
    apply Z.eqb_eq in E. exfalso. apply Hn. left. now symmetry.
Qed.

Lemma forallb_own_offset e s scopes :
  List.NoDup (map bitOffset scopes) -> In s scopes ->
  forallb (fun s' => negb (bitOffset s =? bitOffset s') || scopeAccepts s' e)
    scopes = scopeAccepts s e.
Proof.
  induction scopes as [|s' scopes IH]; cbn [map forallb In]; intros Hnd Hin.
  - contradiction.
  - apply NoDup_cons_iff in Hnd. destruct Hnd as [Hfresh Hnd].
    destruct Hin as [-> | Hin].
    + rewrite Z.eqb_refl, forallb_other_offsets by assumption.
      cbn [negb orb]. now rewrite andb_true_r.
    + rewrite IH by assumption.
      destruct (bitOffset s =? bitOffset s') eqn:E; [|reflexivity].
      apply Z.eqb_eq in E. exfalso. apply Hfresh. rewrite <- E.
      now apply in_map.
Qed.

Lemma scopeAccepts_false s e :
  scopeAccepts s e = false <->
  filters.ContextFilter s e = false
  \/ filters.RetFilter s (trace.EventID e)
       (GoInt.int64 (trace.ReturnValue e)) = false
  \/ filters.ArgFilter s (trace.EventID e) (trace.Args e) = false
  \/ (filters.Enabled (filters.UIDFilter s) = true
      /\ filters.InMinMaxRange (filters.UIDFilter s)
           (GoInt.uint32 (trace.UserID e)) = false)
  \/ (filters.Enabled (filters.PIDFilter s) = true
      /\ filters.InMinMaxRange (filters.PIDFilter s)
           (GoInt.uint32 (trace.HostProcessID e)) = false).
Proof.
  unfold scopeAccepts.
  destruct (filters.ContextFilter s e), (filters.RetFilter s _ _),
    (filters.ArgFilter s _ _), (filters.Enabled (filters.UIDFilter s)),
    (filters.InMinMaxRange (filters.UIDFilter s) _),
    (filters.Enabled (filters.PIDFilter s)),
    (filters.InMinMaxRange (filters.PIDFilter s) _);
    cbn; intuition congruence.
Qed.

(** ** C4: what computeScopes and shouldProcessEvent compute *)

(** C4.  For a configured scope whose bit the kernel set (scope ids being
    distinct, as in a mapping from scope id to scope), [computeScopes]
    clears that bit exactly when the context filter, the return-value
    filter or the argument filter rejects, or the enabled UID filter has the
    UID out of range, or the enabled PID filter has the host PID out of
    range; a bit that no configured scope owns is left as it was.
    [shouldProcessEvent] stores the result in [MatchedScopes] and returns
    [false] exactly when it is zero.  In scenario S1 the event ends with
    the single bit 59. *)
Theorem computeScopes_clears_rejecting_scopes :
  (forall scopes e s,
      List.NoDup (map bitOffset scopes) -> In s scopes -> bitOffset s < 64 ->
      Z.testbit (trace.MatchedScopes e) (bitOffset s) = true ->
      (Z.testbit (computeScopes scopes e) (bitOffset s) = false <->
       filters.ContextFilter s e = false
       \/ filters.RetFilter s (trace.EventID e)
            (GoInt.int64 (trace.ReturnValue e)) = false
       \/ filters.ArgFilter s (trace.EventID e) (trace.Args e) = false
       \/ (filters.Enabled (filters.UIDFilter s) = true
           /\ filters.InMinMaxRange (filters.UIDFilter s)
                (GoInt.uint32 (trace.UserID e)) = false)
       \/ (filters.Enabled (filters.PIDFilter s) = true
           /\ filters.InMinMaxRange (filters.PIDFilter s)
                (GoInt.uint32 (trace.HostProcessID e)) = false)))
  /\ (forall scopes e i,
         0 <= i -> i < 64 -> ~ In i (map bitOffset scopes) ->
         Z.testbit (computeScopes scopes e) i
         = Z.testbit (trace.MatchedScopes e) i)
  /\ (forall scopes e,
         shouldProcessEvent scopes e
         = (trace.setMatchedScopes e (computeScopes scopes e),
            negb (computeScopes scopes e =? 0)))
  /\ (forall scopes e,
         snd (shouldProcessEvent scopes e) = false <->
         trace.MatchedScopes (fst (shouldProcessEvent scopes e)) = 0)
  /\ shouldProcessEvent S1_scopes S1_event
     = (trace.setMatchedScopes S1_event (Z.shiftl 1 59), true).
Proof.
  split; [|split; [|split; [|split]]].
  - intros scopes e s Hnd Hin Hlt Hbit.
    pose proof (bitOffset_nonneg s) as Hoff.
    rewrite computeScopes_testbit, forallb_own_offset, Hbit by assumption.
    cbn [andb]. rewrite <- scopeAccepts_false. reflexivity.
  - intros scopes e i Hi Hlt Hfree.
    rewrite computeScopes_testbit, forallb_other_offsets by assumption.
    apply andb_true_r.
  - reflexivity.
  - intros scopes e.
    cbn [shouldProcessEvent snd fst trace.MatchedScopes trace.setMatchedScopes].
    rewrite negb_false_iff. apply Z.eqb_eq.
  - vm_compute. reflexivity.
Qed.

Lemma computeScopes_clears_rejecting_scopes_witness :
  List.NoDup (map bitOffset S1_scopes)
  /\ In (pidScope 30 502000 505000 false) S1_scopes
  /\ bitOffset (pidScope 30 502000 505000 false) < 64
  /\ Z.testbit (trace.MatchedScopes S1_event)
       (bitOffset (pidScope 30 502000 505000 false)) = true
  /\ (Z.testbit (computeScopes S1_scopes S1_event)
        (bitOffset (pidScope 30 502000 505000 false)) = false <->
      filters.ContextFilter (pidScope 30 502000 505000 false) S1_event = false
      \/ filters.RetFilter (pidScope 30 502000 505000 false)
           (trace.EventID S1_event)
           (GoInt.int64 (trace.ReturnValue S1_event)) = false
      \/ filters.ArgFilter (pidScope 30 502000 505000 false)
           (trace.EventID S1_event) (trace.Args S1_event) = false
      \/ (filters.Enabled (filters.UIDFilter (pidScope 30 502000 505000 false))
          = true
          /\ filters.InMinMaxRange
               (filters.UIDFilter (pidScope 30 502000 505000 false))
               (GoInt.uint32 (trace.UserID S1_event)) = false)
      \/ (filters.Enabled (filters.PIDFilter (pidScope 30 502000 505000 false))
          = true
          /\ filters.InMinMaxRange
               (filters.PIDFilter (pidScope 30 502000 505000 false))
               (GoInt.uint32 (trace.HostProcessID S1_event)) = false)).
Proof.
  assert (Hnd : List.NoDup (map bitOffset S1_scopes)).
  { vm_compute. repeat constructor; cbn; intuition discriminate. }
  assert (Hin : In (pidScope 30 502000 505000 false) S1_scopes).
  { right. left. reflexivity. }
  assert (Hlt : bitOffset (pidScope 30 502000 505000 false) < 64).
  { vm_compute. reflexivity. }
  assert (Hbit : Z.testbit (trace.MatchedScopes S1_event)
                   (bitOffset (pidScope 30 502000 505000 false)) = true).
  { vm_compute. reflexivity. }
  repeat (split; [assumption|]).
  exact (proj1 computeScopes_clears_rejecting_scopes S1_scopes S1_event
           (pidScope 30 502000 505000 false) Hnd Hin Hlt Hbit).
Defined.

(** ** C5: idempotence of shouldProcessEvent *)

Lemma fold_computeScopes_noop e orig scopes m :
  (forall s, In s scopes ->
             utils.HasBit orig (bitOffset s) = true -> scopeAccepts s e = true) ->
  fold_left (computeScopes_step e orig) scopes m = m.
Proof.
  induction scopes as [|s scopes IH]; cbn [fold_left]; intros H.
  - reflexivity.
  - rewrite computeScopes_step_accepts by (apply H; now left).
    apply IH. intros s' Hin. apply H. now right.
Qed.

(** Every scope whose bit survives [computeScopes] accepts the event. *)
Lemma surviving_scope_accepts scopes e s :
  In s scopes ->
  utils.HasBit (computeScopes scopes e) (bitOffset s) = true ->
  scopeAccepts s e = true.
Proof.
  intros Hin Hbit. pose proof (bitOffset_nonneg s) as Hoff.
  rewrite HasBit_spec in Hbit by assumption.
  apply andb_true_iff in Hbit. destruct Hbit as [Hbit Hlt].
  apply Z.ltb_lt in Hlt.
  rewrite computeScopes_testbit in Hbit by assumption.
  apply andb_true_iff in Hbit. destruct Hbit as [_ Hall].
  rewrite forallb_forall in Hall. specialize (Hall s Hin).
  now rewrite Z.eqb_refl in Hall.
Qed.

Lemma computeScopes_fixed scopes e :
  (forall s m, In s scopes ->
     filters.ContextFilter s (trace.setMatchedScopes e m)
     = filters.ContextFilter s e) ->
  computeScopes scopes (trace.setMatchedScopes e (computeScopes scopes e))
  = computeScopes scopes e.
Proof.
  intros Hctx. unfold computeScopes at 1.
  cbn [trace.MatchedScopes trace.setMatchedScopes].
  apply fold_computeScopes_noop. intros s Hin Hbit.
  rewrite <- (surviving_scope_accepts scopes e s Hin Hbit).
  unfold scopeAccepts. rewrite Hctx by assumption. reflexivity.
Qed.

(** C5.  Applying [shouldProcessEvent] to its own output gives the same
    event (hence the same [MatchedScopes]) and the same boolean as the
    first application.  The context filters are code of another package;
    what is used of them is that they do not read the [MatchedScopes] of
    the event they are given. *)
Theorem shouldProcessEvent_idempotent scopes e :
  (forall s m, In s scopes ->
     filters.ContextFilter s (trace.setMatchedScopes e m)
     = filters.ContextFilter s e) ->
  shouldProcessEvent scopes (fst (shouldProcessEvent scopes e))
  = shouldProcessEvent scopes e.
Proof.
  intros Hctx. unfold shouldProcessEvent. cbn [fst].
  rewrite computeScopes_fixed by assumption. reflexivity.
Qed.

Lemma shouldProcessEvent_idempotent_witness :
  shouldProcessEvent S1_scopes (fst (shouldProcessEvent S1_scopes S1_event))
  = shouldProcessEvent S1_scopes S1_event.
Proof.
  apply (shouldProcessEvent_idempotent S1_scopes S1_event).
  intros s m [<- | [<- | []]]; reflexivity.
Defined.

(** With a context filter that did read the bitmap, a second application
    could clear a further bit: the scope of bit 1 accepts while bit 0 is
    set, and bit 0 is cleared by the first application. *)
Example bitmap_reading_filter_breaks_idempotence :
  let scopes := [pidScope 0 1 0 false; bitmapReadingScope] in
  let e := sampleEvent 59 150 3 EmptyString in
  trace.MatchedScopes (fst (shouldProcessEvent scopes e)) = 2
  /\ trace.MatchedScopes
       (fst (shouldProcessEvent scopes (fst (shouldProcessEvent scopes e)))) = 0.
Proof. vm_compute. split; reflexivity. Qed.

(** ** C10: the frame of shouldProcessEvent *)

Lemma writeElements_length {A} (ws : list (nat * A)) (l : list A) :
  length (Effectful.writeElements ws l) = length l.
Proof.
  unfold Effectful.writeElements. revert l.
  induction ws as [|w ws IH]; intros l; cbn [fold_left]; [reflexivity|].
  now rewrite IH, length_insert.
Qed.

Lemma setSlices_id e :
  Effectful.setSlices e (trace.Args e) (trace.StackAddresses e) = e.
Proof. now destruct e. Qed.

Lemma applyWrites_sameFrame e0 e w :
  sameFrame e0 e -> sameFrame e0 (Effectful.applyWrites w e).
Proof.
  intros (Heq & Hla & Hls). unfold Effectful.applyWrites, sameFrame.
  cbn [Effectful.setSlices trace.Args trace.StackAddresses].
  rewrite !writeElements_length. repeat split; try assumption.
  rewrite Heq at 1. reflexivity.
Qed.

Lemma computeScopes_step_sameFrame {FS} e0 orig
    (st : FS * trace.Event * Z) (s : Effectful.FilterScope FS) :
  sameFrame e0 (snd (fst st)) ->
  sameFrame e0 (snd (fst (Effectful.computeScopes_step orig st s))).
Proof.
  destruct st as [[fs e] m]. cbn [fst snd]. intros Hinv.
  unfold Effectful.computeScopes_step.
  destruct (negb (utils.HasBit orig _)); [exact Hinv|].
  destruct (Effectful.ContextFilter s fs e) as [[ok1 fs1] w].
  pose proof (applyWrites_sameFrame e0 e w Hinv) as H1.
  destruct (negb ok1); [exact H1|].
  destruct (Effectful.RetFilter s fs1 _ _) as [ok2 fs2].
  destruct (negb ok2); [exact H1|].
  destruct (Effectful.ArgFilter s fs2 _ _) as [[ok3 fs3] aw].
  pose proof (applyWrites_sameFrame e0 _
                {| Effectful.ArgsWrites := aw; Effectful.StackWrites := [] |}
                H1) as H2.
  destruct (negb ok3); [exact H2|].
  destruct (Effectful.enabledAndOutOfRange (Effectful.UIDEnabled s) _ _ _)
    as [out1 fs4].
  destruct out1; [exact H2|].
  destruct (Effectful.enabledAndOutOfRange (Effectful.PIDEnabled s) _ _ _)
    as [out2 fs5].
  destruct out2; exact H2.
Qed.

Lemma computeScopes_step_contents {FS} e0 orig
    (st : FS * trace.Event * Z) (s : Effectful.FilterScope FS) :
  Effectful.writesNothing s ->
  trace.Args (snd (fst st)) = trace.Args e0
  /\ trace.StackAddresses (snd (fst st)) = trace.StackAddresses e0 ->
  trace.Args (snd (fst (Effectful.computeScopes_step orig st s)))
  = trace.Args e0
  /\ trace.StackAddresses (snd (fst (Effectful.computeScopes_step orig st s)))
     = trace.StackAddresses e0.
Proof.
  destruct st as [[fs e] m]. cbn [fst snd]. intros [Hcw Haw] Hinv.
  unfold Effectful.computeScopes_step.
  destruct (negb (utils.HasBit orig _)); [exact Hinv|].
  specialize (Hcw fs e).
  destruct (Effectful.ContextFilter s fs e) as [[ok1 fs1] w].
  cbn [snd] in Hcw. subst w.
  assert (H1 : trace.Args
                 (Effectful.applyWrites
                    {| Effectful.ArgsWrites := [];
                       Effectful.StackWrites := [] |} e) = trace.Args e0
               /\ trace.StackAddresses
                    (Effectful.applyWrites
                       {| Effectful.ArgsWrites := [];
                          Effectful.StackWrites := [] |} e)
                  = trace.StackAddresses e0) by exact Hinv.
  destruct (negb ok1); [exact H1|].
  destruct (Effectful.RetFilter s fs1 _ _) as [ok2 fs2].
  destruct (negb ok2); [exact H1|].
  match goal with
  | |- context [Effectful.ArgFilter s fs2 ?id ?args] =>
      specialize (Haw fs2 id args);
      destruct (Effectful.ArgFilter s fs2 id args) as [[ok3 fs3] aw]
  end.
  cbn [snd] in Haw. subst aw.
  destruct (negb ok3); [exact H1|].
  destruct (Effectful.enabledAndOutOfRange (Effectful.UIDEnabled s) _ _ _)
    as [out1 fs4].
  destruct out1; [exact H1|].
  destruct (Effectful.enabledAndOutOfRange (Effectful.PIDEnabled s) _ _ _)
    as [out2 fs5].
  destruct out2; exact H1.
Qed.

Lemma fold_computeScopes_sameFrame {FS} e0 orig
    (scopes : list (Effectful.FilterScope FS)) (st : FS * trace.Event * Z) :
  sameFrame e0 (snd (fst st)) ->
  sameFrame e0
    (snd (fst (fold_left (Effectful.computeScopes_step orig) scopes st))).
Proof.
  revert st. induction scopes as [|s scopes IH]; intros st Hinv;
    cbn [fold_left]; [exact Hinv|].
  apply IH. now apply computeScopes_step_sameFrame.
Qed.

Lemma fold_computeScopes_contents {FS} e0 orig
    (scopes : list (Effectful.FilterScope FS)) (st : FS * trace.Event * Z) :
  (forall s, In s scopes -> Effectful.writesNothing s) ->
  trace.Args (snd (fst st)) = trace.Args e0
  /\ trace.StackAddresses (snd (fst st)) = trace.StackAddresses e0 ->
  trace.Args
    (snd (fst (fold_left (Effectful.computeScopes_step orig) scopes st)))
  = trace.Args e0
  /\ trace.StackAddresses
       (snd (fst (fold_left (Effectful.computeScopes_step orig) scopes st)))
     = trace.StackAddresses e0.
Proof.
  revert st. induction scopes as [|s scopes IH]; intros st Hw Hinv;
    cbn [fold_left]; [exact Hinv|].
  apply IH; [intros s' Hin; apply Hw; now right|].
  apply computeScopes_step_contents; [apply Hw; now left|exact Hinv].
Qed.

(** With filters that keep no store and write nothing, the loop with
    effects is the loop of [computeScopes]. *)
Lemma computeScopes_step_pure e orig m s :
  Effectful.computeScopes_step orig (tt, e, m) (Effectful.pure s)
  = (tt, e, computeScopes_step e orig m s).
Proof.
  unfold Effectful.computeScopes_step, computeScopes_step,
    Effectful.enabledAndOutOfRange, Effectful.applyWrites.
  cbn [Effectful.pure Effectful.ID Effectful.ContextFilter
         Effectful.RetFilter Effectful.ArgFilter Effectful.UIDEnabled
         Effectful.UIDInMinMaxRange Effectful.PIDEnabled
         Effectful.PIDInMinMaxRange Effectful.ArgsWrites
         Effectful.StackWrites Effectful.writeElements fold_left].
  rewrite setSlices_id.
  destruct (negb (utils.HasBit orig _)); [reflexivity|].
  destruct (filters.ContextFilter s e); cbn [negb]; [|reflexivity].
  destruct (filters.RetFilter s _ _); cbn [negb]; [|reflexivity].
  cbn [Effectful.setSlices trace.Args trace.StackAddresses trace.EventID
         trace.ReturnValue trace.UserID trace.HostProcessID].
  rewrite setSlices_id.
  destruct (filters.ArgFilter s _ _); cbn [negb]; [|reflexivity].
  destruct (filters.Enabled (filters.UIDFilter s)); cbn [andb];
    [destruct (filters.InMinMaxRange (filters.UIDFilter s) _); cbn [negb];
     [|reflexivity]|];
    (destruct (filters.Enabled (filters.PIDFilter s)); cbn [andb];
     [destruct (filters.InMinMaxRange (filters.PIDFilter s) _)|]);
    reflexivity.
Qed.

Lemma computeScopes_pure scopes e :
  Effectful.computeScopes (map Effectful.pure scopes) tt e
  = (tt, e, computeScopes scopes e).
Proof.
  unfold Effectful.computeScopes, computeScopes.
  generalize (trace.MatchedScopes e) at 2 4 as m.
  induction scopes as [|s scopes IH]; intros m; cbn [map fold_left].
  - reflexivity.
  - rewrite computeScopes_step_pure. apply IH.
Qed.

(** C10.  Whatever the filters do with what they are handed (a copy of the
    event, scalars, the [Args] slice) and with their own store, the event
    behind the pointer differs after [shouldProcessEvent] from the event
    before it in [MatchedScopes] only, as far as the call itself goes:
    every scalar and string field, among them [Timestamp], [ContainerID]
    and [ReturnValue], is the one before the call, and [Args] and
    [StackAddresses] have the length they had.  The elements of the two
    slices are the ones before the call provided the filters, which are
    code of another package, do not write through the slices they are
    handed; then the event after the call is the event before it with
    [MatchedScopes] replaced.  For filters without store and writes the
    call is the [shouldProcessEvent] of the other sections. *)
Theorem shouldProcessEvent_frame :
  (forall (FS : Type) (scopes : list (Effectful.FilterScope FS)) (fs : FS)
          (e : trace.Event),
      let e' := fst (fst (Effectful.shouldProcessEvent scopes fs e)) in
      trace.Timestamp e' = trace.Timestamp e
      /\ trace.ThreadStartTime e' = trace.ThreadStartTime e
      /\ trace.ProcessorID e' = trace.ProcessorID e
      /\ trace.ProcessID e' = trace.ProcessID e
      /\ trace.ThreadID e' = trace.ThreadID e
      /\ trace.ParentProcessID e' = trace.ParentProcessID e
      /\ trace.HostProcessID e' = trace.HostProcessID e
      /\ trace.HostThreadID e' = trace.HostThreadID e
      /\ trace.HostParentProcessID e' = trace.HostParentProcessID e
      /\ trace.UserID e' = trace.UserID e
      /\ trace.MountNS e' = trace.MountNS e
      /\ trace.PIDNS e' = trace.PIDNS e
      /\ trace.ProcessName e' = trace.ProcessName e
      /\ trace.HostName e' = trace.HostName e
      /\ trace.CgroupID e' = trace.CgroupID e
      /\ trace.ContainerID e' = trace.ContainerID e
      /\ trace.ContainerImage e' = trace.ContainerImage e
      /\ trace.ContainerName e' = trace.ContainerName e
      /\ trace.PodName e' = trace.PodName e
      /\ trace.PodNamespace e' = trace.PodNamespace e
      /\ trace.PodUID e' = trace.PodUID e
      /\ trace.PodSandbox e' = trace.PodSandbox e
      /\ trace.EventID e' = trace.EventID e
      /\ trace.EventName e' = trace.EventName e
      /\ trace.ArgsNum e' = trace.ArgsNum e
      /\ trace.ReturnValue e' = trace.ReturnValue e
      /\ trace.Flags e' = trace.Flags e
      /\ length (trace.Args e') = length (trace.Args e)
      /\ length (trace.StackAddresses e') = length (trace.StackAddresses e)
      /\ ((forall s, In s scopes -> Effectful.writesNothing s) ->
          trace.Args e' = trace.Args e
          /\ trace.StackAddresses e' = trace.StackAddresses e
          /\ e' = trace.setMatchedScopes e (trace.MatchedScopes e')))
  /\ (forall scopes e,
         Effectful.shouldProcessEvent (map Effectful.pure scopes) tt e
         = (shouldProcessEvent scopes e, tt)).
Proof.
  split.
  - intros FS scopes fs e. cbv zeta.
    assert (H0 : sameFrame e e).
    { unfold sameFrame. rewrite setSlices_id. auto. }
    pose proof (fold_computeScopes_sameFrame e (trace.MatchedScopes e) scopes
                  (fs, e, trace.MatchedScopes e) H0) as Hframe.
    pose proof (fold_computeScopes_contents e (trace.MatchedScopes e) scopes
                  (fs, e, trace.MatchedScopes e)) as Hcont.
    unfold Effectful.shouldProcessEvent, Effectful.computeScopes.
    destruct (fold_left _ scopes _) as [[fs' e1] m].
    cbn [fst snd] in *.
    destruct Hframe as (Heq & Hla & Hls).
    cbn [trace.setMatchedScopes trace.Timestamp trace.ThreadStartTime
           trace.ProcessorID trace.ProcessID trace.ThreadID
           trace.ParentProcessID trace.HostProcessID trace.HostThreadID
           trace.HostParentProcessID trace.UserID trace.MountNS trace.PIDNS
           trace.ProcessName trace.HostName trace.CgroupID trace.ContainerID
           trace.ContainerImage trace.ContainerName trace.PodName
           trace.PodNamespace trace.PodUID trace.PodSandbox trace.EventID
           trace.EventName trace.MatchedScopes trace.ArgsNum
           trace.ReturnValue trace.Args trace.StackAddresses trace.Flags].
    repeat (split; [rewrite Heq; reflexivity|]).
    split; [exact Hla|]. split; [exact Hls|].
    intros Hw. destruct (Hcont Hw (conj eq_refl eq_refl)) as [Ha Hs].
    split; [exact Ha|]. split; [exact Hs|].
    rewrite Heq, Ha, Hs. now destruct e.
  - intros scopes e. unfold Effectful.shouldProcessEvent.
    rewrite computeScopes_pure. reflexivity.
Qed.

Lemma shouldProcessEvent_frame_witness :
  trace.Args
    (fst (fst (Effectful.shouldProcessEvent (map Effectful.pure S1_scopes)
                 tt S1_event)))
  = trace.Args S1_event
  /\ trace.StackAddresses
       (fst (fst (Effectful.shouldProcessEvent (map Effectful.pure S1_scopes)
                    tt S1_event)))
     = trace.StackAddresses S1_event
  /\ fst (fst (Effectful.shouldProcessEvent (map Effectful.pure S1_scopes)
                 tt S1_event))
     = trace.setMatchedScopes S1_event
         (trace.MatchedScopes
            (fst (fst (Effectful.shouldProcessEvent
                         (map Effectful.pure S1_scopes) tt S1_event)))).
Proof.
  pose proof (proj1 shouldProcessEvent_frame unit
                (map Effectful.pure S1_scopes) tt S1_event) as H.
  cbv zeta in H.
  repeat match type of H with
         | _ /\ (_ /\ _) => apply proj2 in H
         end.
  apply proj2 in H. apply H.
  intros s [<- | [<- | []]]; split; intros; reflexivity.
Defined.

(** A filter that does write through the slice it is handed changes an
    element of [Args], and that is all it can change of the event: here
    the argument filter of the scope of bit 0 overwrites the first
    argument. *)
Example writing_filter_changes_an_element :
  let e := Effectful.setSlices (sampleEvent 59 150 1 EmptyString)
             [{| trace.Meta := {| trace.Name := "arg"; trace.Type_ := "u8" |};
                 trace.Value := trace.VInt 7 |}] [] in
  let e' := fst (fst (Effectful.shouldProcessEvent
                        [Effectful.overwritingScope] 0%nat e)) in
  trace.Args e'
  = [{| trace.Meta := {| trace.Name := "arg"; trace.Type_ := "u8" |};
        trace.Value := trace.VInt 0 |}]
  /\ trace.Args e' <> trace.Args e
  /\ trace.MatchedScopes e' = 1
  /\ e' = Effectful.setSlices e (trace.Args e') (trace.StackAddresses e').
Proof.
  vm_compute. repeat split; try reflexivity. discriminate.
Qed.

(** ** C7: the container-filter correction of processEvents *)

Lemma bit64_nonneg off : 0 <= GoInt.bit64 off.
Proof.
  unfold GoInt.bit64. destruct (off <? 64); [|lia].
  apply Z.shiftl_nonneg. lia.
Qed.

Lemma fold_ContainerFilterEnabled_testbit scopes acc i :
  0 <= i ->
  Z.testbit
    (fold_left
       (fun acc s =>
          if filters.ContainerFilterEnabled s
          then Z.lor acc (GoInt.bit64 (GoInt.uint64 (filters.ID s)))
          else acc) scopes acc) i
  = Z.testbit acc i
    || existsb (fun s => filters.ContainerFilterEnabled s
                         && (i =? bitOffset s) && (bitOffset s <? 64)) scopes.
Proof.
  intros Hi. revert acc.
  induction scopes as [|s scopes IH]; intros acc; cbn [fold_left existsb].
  - now rewrite orb_false_r.
  - rewrite IH. fold (bitOffset s).
    destruct (filters.ContainerFilterEnabled s); cbn [andb orb]; [|reflexivity].
    rewrite Z.lor_spec, testbit_bit64 by (pose proof (bitOffset_nonneg s); lia).
    now rewrite orb_assoc.
Qed.

Lemma ContainerFilterEnabled_testbit scopes i :
  0 <= i ->
  Z.testbit (ContainerFilterEnabled scopes) i
  = existsb (fun s => filters.ContainerFilterEnabled s
                      && (i =? bitOffset s) && (bitOffset s <? 64)) scopes.
Proof.
  intros Hi. unfold ContainerFilterEnabled.
  rewrite fold_ContainerFilterEnabled_testbit by assumption.
  now rewrite Z.bits_0.
Qed.

Lemma fold_ContainerFilterEnabled_nonneg scopes acc :
  0 <= acc ->
  0 <= fold_left
         (fun acc s =>
            if filters.ContainerFilterEnabled s
            then Z.lor acc (GoInt.bit64 (GoInt.uint64 (filters.ID s)))
            else acc) scopes acc.
Proof.
  revert acc. induction scopes as [|s scopes IH]; intros acc Hacc;
    cbn [fold_left]; [assumption|].
  apply IH. destruct (filters.ContainerFilterEnabled s); [|assumption].
  apply Z.lor_nonneg. split; [assumption|apply bit64_nonneg].
Qed.

(** The bitmap is positive exactly when some scope (of an id below 64) has
    a container filter. *)
Lemma ContainerFilterEnabled_pos scopes :
  0 < ContainerFilterEnabled scopes <->
  exists s, In s scopes /\ filters.ContainerFilterEnabled s = true
            /\ bitOffset s < 64.
Proof.
  assert (Hnn : 0 <= ContainerFilterEnabled scopes)
    by (apply fold_ContainerFilterEnabled_nonneg; lia).
  split.
  - intros Hpos.
    destruct (Z.testbit (ContainerFilterEnabled scopes)
                (Z.log2 (ContainerFilterEnabled scopes))) eqn:Hb.
    + rewrite ContainerFilterEnabled_testbit in Hb by apply Z.log2_nonneg.
      apply existsb_exists in Hb. destruct Hb as (s & Hin & Hs).
      apply andb_true_iff in Hs. destruct Hs as [Hs Hlt].
      apply andb_true_iff in Hs. destruct Hs as [Hs _].
      exists s. repeat split; [assumption|assumption|now apply Z.ltb_lt].
    + rewrite Z.bit_log2 in Hb by assumption. discriminate.
  - intros (s & Hin & Hs & Hlt).
    assert (Hb : Z.testbit (ContainerFilterEnabled scopes) (bitOffset s) = true).
    { rewrite ContainerFilterEnabled_testbit by apply bitOffset_nonneg.
      apply existsb_exists. exists s. split; [assumption|].
      rewrite Hs, Z.eqb_refl. cbn [andb]. now apply Z.ltb_lt. }
    destruct (Z.eq_dec (ContainerFilterEnabled scopes) 0) as [E|E]; [|lia].
    rewrite E, Z.bits_0 in Hb. discriminate.
Qed.

(** C7.  For an event whose side effects reported no error: the bitmap read
    from the filter scopes is positive exactly when some scope has a
    container filter; clearing it from [MatchedScopes] clears the bit of
    every such scope and no other; when it is positive, the container id
    is empty and the event is neither [cgroup_mkdir] nor [cgroup_rmdir],
    the step clears those bits and drops the event exactly when the bitmap
    becomes zero; a [cgroup_mkdir] or [cgroup_rmdir] event is forwarded as
    the side effects left it. *)
Theorem processEvents_container_filter_correction
    (processEvent : Tracee -> trace.Event -> Tracee * trace.Event * list error)
    (CgroupMkdir CgroupRmdir : Z) (t t1 : Tracee) (event event1 : trace.Event) :
  processEvent t event = (t1, event1, []) ->
  let scopes := ConfigFilterScopes (config t1) in
  let mask := ContainerFilterEnabled scopes in
  let cleared := utils.ClearBits (trace.MatchedScopes event1) mask in
  (0 < mask <->
   exists s, In s scopes /\ filters.ContainerFilterEnabled s = true
             /\ bitOffset s < 64)
  /\ (forall s, In s scopes -> filters.ContainerFilterEnabled s = true ->
                bitOffset s < 64 -> Z.testbit cleared (bitOffset s) = false)
  /\ (forall i, 0 <= i -> i < 64 ->
                (forall s, In s scopes ->
                           filters.ContainerFilterEnabled s = true ->
                           bitOffset s <> i) ->
                Z.testbit cleared i = Z.testbit (trace.MatchedScopes event1) i)
  /\ (0 < mask -> trace.ContainerID event1 = EmptyString ->
      trace.EventID event1 <> CgroupMkdir ->
      trace.EventID event1 <> CgroupRmdir ->
      processEventsStep processEvent CgroupMkdir CgroupRmdir t event
      = (t1, if cleared =? 0 then None
             else Some (trace.setMatchedScopes event1 cleared)))
  /\ (trace.EventID event1 = CgroupMkdir \/ trace.EventID event1 = CgroupRmdir ->
      processEventsStep processEvent CgroupMkdir CgroupRmdir t event
      = (t1, Some event1)).
Proof.
  intros Hpe scopes mask cleared.
  split; [apply ContainerFilterEnabled_pos|].
  split; [|split; [|split]].
  - intros s Hin Hs Hlt. pose proof (bitOffset_nonneg s) as Hoff.
    unfold cleared. rewrite testbit_ClearBits by assumption.
    unfold mask. rewrite ContainerFilterEnabled_testbit by assumption.
    replace (existsb _ scopes) with true; [apply andb_false_r|].
    symmetry. apply existsb_exists. exists s. split; [assumption|].
    rewrite Hs, Z.eqb_refl. cbn [andb]. now apply Z.ltb_lt.
  - intros i Hi Hlt Hfree.
    unfold cleared. rewrite testbit_ClearBits by assumption.
    unfold mask. rewrite ContainerFilterEnabled_testbit by assumption.
    replace (existsb _ scopes) with false; [apply andb_true_r|].
    symmetry. apply not_true_is_false. intros Hex.
    apply existsb_exists in Hex. destruct Hex as (s & Hin & Hs).
    apply andb_true_iff in Hs. destruct Hs as [Hs _].
    apply andb_true_iff in Hs. destruct Hs as [Hs Heq].
    apply Z.eqb_eq in Heq. now apply (Hfree s Hin Hs).
  - intros Hpos Hcid Hmk Hrm. unfold processEventsStep. rewrite Hpe.
    cbn [length Nat.ltb Nat.leb].
    fold scopes. fold mask.
    replace (0 <? mask) with true by (symmetry; now apply Z.ltb_lt).
    rewrite bool_decide_eq_true_2 by assumption.
    apply Z.eqb_neq in Hmk, Hrm. rewrite Hmk, Hrm.
    cbn [andb negb trace.MatchedScopes trace.setMatchedScopes].
    fold cleared. destruct (cleared =? 0); reflexivity.
  - intros Hid. unfold processEventsStep. rewrite Hpe.
    cbn [length Nat.ltb Nat.leb].
    replace (negb (trace.EventID event1 =? CgroupMkdir)
             && negb (trace.EventID event1 =? CgroupRmdir)) with false.
    + now destruct (_ && _).
    + destruct Hid as [-> | ->]; rewrite Z.eqb_refl; cbn [negb andb];
        [reflexivity|now rewrite andb_false_r].
Qed.

Lemma processEvents_container_filter_correction_witness :
  processEventsStep noSideEffects 20 21 S2_tracee S2_event = (S2_tracee, None).
Proof.
  pose proof (processEvents_container_filter_correction noSideEffects 20 21
                S2_tracee S2_tracee S2_event S2_event eq_refl) as H.
  cbv zeta in H. destruct H as (_ & _ & _ & H & _).
  rewrite H; [reflexivity|vm_compute; reflexivity|reflexivity| |];
    vm_compute; discriminate.
Defined.

(** ** C8: the deriver's filter *)

Lemma deriveLoop_spec (SymbolsLoaded SharedObjectLoaded PrintMemDump : Z)
    (ds : list trace.Event) (t : Tracee) :
  let r := deriveLoop SymbolsLoaded SharedObjectLoaded PrintMemDump t ds in
  let scopes := ConfigFilterScopes (config t) in
  snd r = omap (derivativeOut SymbolsLoaded SharedObjectLoaded PrintMemDump
                  scopes) ds
  /\ EventsFiltered (stats (fst r))
     = (EventsFiltered (stats t)
        + length (List.filter
                    (derivativeRejected SymbolsLoaded SharedObjectLoaded
                       PrintMemDump scopes) ds))%nat
  /\ EventCount (stats (fst r)) = EventCount (stats t)
  /\ ErrorCount (stats (fst r)) = ErrorCount (stats t)
  /\ config (fst r) = config t.
Proof.
  cbv zeta. revert t.
  induction ds as [|d ds IH]; intros t.
  - cbn. repeat split; lia.
  - cbn [deriveLoop omap list_omap List.filter].
    unfold derivativeOut at 1, derivativeRejected at 1, exemptID.
    destruct (trace.EventID d =? SymbolsLoaded);
      [|destruct (trace.EventID d =? SharedObjectLoaded);
        [|destruct (trace.EventID d =? PrintMemDump)]];
      cbn [orb negb andb].
    1-3: destruct (IH t) as (Ho & Hf & Hc & He & Hcfg);
         destruct (deriveLoop _ _ _ t ds) as [t' out];
         cbn [fst snd] in *; rewrite Ho; auto.
    destruct (shouldProcessEvent (ConfigFilterScopes (config t)) d)
      as [d' ok] eqn:Hsp.
    cbn [fst snd]. destruct ok; cbn [negb].
    + destruct (IH t) as (Ho & Hf & Hc & He & Hcfg).
      destruct (deriveLoop _ _ _ t ds) as [t' out].
      cbn [fst snd] in *. rewrite Ho. auto.
    + destruct (IH (incEventsFiltered t)) as (Ho & Hf & Hc & He & Hcfg).
      cbn [incEventsFiltered setStats config stats EventsFiltered EventCount
             ErrorCount] in *.
      rewrite Ho, Hf, Hc, He, Hcfg. cbn [length]. repeat split. lia.
Qed.

(** C8.  The derivatives that leave the deriver are, in order, those with
    one of the three exempt ids, unchanged and whatever
    [shouldProcessEvent] would say, and the others for which
    [shouldProcessEvent] returns [true], as it leaves them.  Every
    derivative that is not exempt and is rejected adds one to
    [EventsFiltered] and is not emitted; no other counter moves.  In
    particular an exempt derivative on its own is emitted as it is. *)
Theorem deriveEvents_exempts_three_ids
    (SymbolsLoaded SharedObjectLoaded PrintMemDump : Z)
    (t : Tracee) (ds : list trace.Event) :
  let r := deriveLoop SymbolsLoaded SharedObjectLoaded PrintMemDump t ds in
  let scopes := ConfigFilterScopes (config t) in
  snd r = omap (derivativeOut SymbolsLoaded SharedObjectLoaded PrintMemDump
                  scopes) ds
  /\ EventsFiltered (stats (fst r))
     = (EventsFiltered (stats t)
        + length (List.filter
                    (derivativeRejected SymbolsLoaded SharedObjectLoaded
                       PrintMemDump scopes) ds))%nat
  /\ EventCount (stats (fst r)) = EventCount (stats t)
  /\ ErrorCount (stats (fst r)) = ErrorCount (stats t)
  /\ (forall d,
         trace.EventID d = SymbolsLoaded
         \/ trace.EventID d = SharedObjectLoaded
         \/ trace.EventID d = PrintMemDump ->
         deriveLoop SymbolsLoaded SharedObjectLoaded PrintMemDump t [d]
         = (t, [d]))
  /\ (forall d,
         trace.EventID d <> SymbolsLoaded ->
         trace.EventID d <> SharedObjectLoaded ->
         trace.EventID d <> PrintMemDump ->
         deriveLoop SymbolsLoaded SharedObjectLoaded PrintMemDump t [d]
         = if snd (shouldProcessEvent scopes d)
           then (t, [fst (shouldProcessEvent scopes d)])
           else (incEventsFiltered t, [])).
Proof.
  cbv zeta.
  destruct (deriveLoop_spec SymbolsLoaded SharedObjectLoaded PrintMemDump ds t)
    as (Ho & Hf & Hc & He & _).
  repeat (split; [assumption|]). split.
  - intros d Hid. cbn [deriveLoop].
    destruct Hid as [-> | [-> | ->]]; rewrite ?Z.eqb_refl;
      repeat match goal with
             | |- context [if ?b then _ else _] => destruct b
             end; reflexivity.
  - intros d H1 H2 H3. cbn [deriveLoop].
    apply Z.eqb_neq in H1, H2, H3. rewrite H1, H2, H3.
    destruct (shouldProcessEvent (ConfigFilterScopes (config t)) d)
      as [d' ok].
    cbn [fst snd]. destruct ok; reflexivity.
Qed.

Lemma deriveEvents_exempts_three_ids_witness :
  snd (shouldProcessEvent (ConfigFilterScopes (config S3_tracee))
         S3_derivative) = false
  /\ deriveLoop 31 32 33 S3_tracee [S3_derivative]
     = (S3_tracee, [S3_derivative]).
Proof.
  split; [vm_compute; reflexivity|].
  apply (deriveEvents_exempts_three_ids 31 32 33 S3_tracee []).
  left. reflexivity.
Defined.

(** ** C9: the sink *)

Lemma sinkEvent_counts ParseArgs ParseArgsFDs t event s :
  let r := sinkEvent ParseArgs ParseArgsFDs t event s in
  EventCount (stats (fst (fst r)))
  = (EventCount (stats t) + length (List.filter isSend (snd (fst r))))%nat.
Proof.
  cbv zeta. unfold sinkEvent.
  destruct (trace.MatchedScopes _ =? 0); [cbn; lia|].
  destruct (negb (EngineEnabled (config t)));
    [destruct (parseArguments _ _ _ _) as [e' [err|]]|];
    destruct s; cbn; lia.
Qed.

Lemma sinkEvents_counts ParseArgs ParseArgsFDs in_ t :
  let r := sinkEvents ParseArgs ParseArgsFDs t in_ in
  EventCount (stats (fst r))
  = (EventCount (stats t) + length (List.filter isSend (snd r)))%nat.
Proof.
  cbv zeta. revert t.
  induction in_ as [|[event s] in_ IH]; intros t; cbn [sinkEvents].
  - cbn. lia.
  - pose proof (sinkEvent_counts ParseArgs ParseArgsFDs t event s) as Hstep.
    cbv zeta in Hstep.
    destruct (sinkEvent ParseArgs ParseArgsFDs t event s)
      as [[t1 acts] continue].
    cbn [fst snd] in Hstep. destruct continue.
    + specialize (IH t1).
      destruct (sinkEvents ParseArgs ParseArgsFDs t1 in_) as [t2 acts'].
      cbn [fst snd] in *.
      rewrite List.filter_app, length_app. lia.
    + cbn [fst snd]. exact Hstep.
Qed.

(** C9.  For an incoming event the sink replaces [MatchedScopes] by its
    bitwise AND with [t.events[id].emit].  When the result is zero the
    event is dropped: nothing is parsed, nothing is sent, no counter moves.
    Otherwise [parseArguments] is called (on the masked event) exactly when
    the rule engine is disabled, and the send on the output channel adds one
    to [EventCount]; over a whole run [EventCount] grows by the number of
    events sent. *)
Theorem sinkEvents_masks_parses_counts
    (ParseArgs : trace.Event -> trace.Event * option error)
    (ParseArgsFDs : Tracee -> trace.Event -> trace.Event * option error)
    (t : Tracee) (event : trace.Event) :
  let m := Z.land (trace.MatchedScopes event)
             (emitMask t (trace.EventID event)) in
  let masked := trace.setMatchedScopes event m in
  let parsed := parseArguments ParseArgs ParseArgsFDs t masked in
  (m = 0 -> forall s,
      sinkEvent ParseArgs ParseArgsFDs t event s = (t, [], true))
  /\ (m <> 0 -> EngineEnabled (config t) = false ->
      sinkEvent ParseArgs ParseArgsFDs t event Proceed
      = (incEventCount
           (match snd parsed with Some err => handleError t err | None => t end),
         [CallParseArguments masked; SendChanEvents (fst parsed)], true))
  /\ (m <> 0 -> EngineEnabled (config t) = true ->
      sinkEvent ParseArgs ParseArgsFDs t event Proceed
      = (incEventCount t, [SendChanEvents masked], true))
  /\ (m <> 0 -> forall s,
      existsb isParse (snd (fst (sinkEvent ParseArgs ParseArgsFDs t event s)))
      = negb (EngineEnabled (config t)))
  /\ (forall s,
      EventCount (stats (fst (fst (sinkEvent ParseArgs ParseArgsFDs t event s))))
      = (EventCount (stats t)
         + length (List.filter isSend
                     (snd (fst (sinkEvent ParseArgs ParseArgsFDs t event s)))))%nat)
  /\ (forall in_,
      EventCount (stats (fst (sinkEvents ParseArgs ParseArgsFDs t in_)))
      = (EventCount (stats t)
         + length (List.filter isSend
                     (snd (sinkEvents ParseArgs ParseArgsFDs t in_))))%nat).
Proof.
  cbv zeta. split; [|split; [|split; [|split; [|split]]]].
  - intros Hm s. unfold sinkEvent.
    cbn [trace.MatchedScopes trace.setMatchedScopes]. now rewrite Hm.
  - intros Hm Hen. unfold sinkEvent.
    cbn [trace.MatchedScopes trace.setMatchedScopes].
    apply Z.eqb_neq in Hm. rewrite Hm, Hen. cbn [negb].
    destruct (parseArguments _ _ _ _) as [e' [err|]]; reflexivity.
  - intros Hm Hen. unfold sinkEvent.
    cbn [trace.MatchedScopes trace.setMatchedScopes].
    apply Z.eqb_neq in Hm. now rewrite Hm, Hen.
  - intros Hm s. unfold sinkEvent.
    cbn [trace.MatchedScopes trace.setMatchedScopes].
    apply Z.eqb_neq in Hm. rewrite Hm.
    destruct (EngineEnabled (config t)); cbn [negb];
      [|destruct (parseArguments _ _ _ _) as [e' [err|]]];
      destruct s; reflexivity.
  - intros s. apply sinkEvent_counts.
  - intros in_. apply sinkEvents_counts.
Qed.

Lemma sinkEvents_masks_parses_counts_witness :
  sinkEvent noParseArgs noParseArgsFDs sink_tracee
    (sampleEvent 59 150 (Z.lor (Z.shiftl 1 30) (Z.shiftl 1 59)) EmptyString)
    Proceed
  = (incEventCount sink_tracee,
     [CallParseArguments (sampleEvent 59 150 (Z.shiftl 1 59) EmptyString);
      SendChanEvents (sampleEvent 59 150 (Z.shiftl 1 59) EmptyString)],
     true).
Proof.
  pose proof (sinkEvents_masks_parses_counts noParseArgs noParseArgsFDs
                sink_tracee
                (sampleEvent 59 150 (Z.lor (Z.shiftl 1 30) (Z.shiftl 1 59))
                   EmptyString)) as H.
  cbv zeta in H. destruct H as (_ & H & _).
  rewrite H; [reflexivity|vm_compute; discriminate|reflexivity].
Defined.

(** ** The decoder *)

Section Decoder.

Variable DecodeContext :
  bufferdecoder.EbpfDecoder -> result bufferdecoder.Context * bufferdecoder.EbpfDecoder.
Variable GetSafe : Z -> option events.EventDefinition.
Variable ReadArgFromBuff :
  Z -> bufferdecoder.EbpfDecoder -> list trace.ArgMeta ->
  result (trace.ArgMeta * trace.ArgValue) * bufferdecoder.EbpfDecoder.

(** The argument loop touches the statistics only; each of its [n]
    iterations either appends an argument or counts an error. *)
Lemma readArgs_spec n i eventId def d args t :
  let r := readArgs ReadArgFromBuff n i eventId def d args t in
  snd r = setStats t (stats (snd r))
  /\ EventCount (stats (snd r)) = EventCount (stats t)
  /\ EventsFiltered (stats (snd r)) = EventsFiltered (stats t)
  /\ (length (fst (fst r)) + ErrorCount (stats (snd r))
      = length args + ErrorCount (stats t) + n)%nat.
Proof.
  cbv zeta. revert i d args t.
  induction n as [|n IH]; intros i d args t; cbn [readArgs].
  - cbn [fst snd]. repeat split; [now destruct t|lia].
  - destruct (ReadArgFromBuff eventId d (events.Params def))
      as [[[argMeta argVal]|err] d'].
    + destruct (IH (i + 1) d'
                  (args ++ [{| trace.Meta := argMeta; trace.Value := argVal |}])
                  t) as (H1 & H2 & H3 & H4).
      repeat split; try assumption.
      rewrite H4, length_app. cbn [length]. lia.
    + destruct (IH (i + 1) d' args
                  (handleError t
                     (ErrReadArgument i (events.Name def) err)))
        as (H1 & H2 & H3 & H4).
      cbn [handleError setStats stats EventCount EventsFiltered ErrorCount]
        in H2, H3, H4.
      split; [|split; [|split]]; [|assumption|assumption|lia].
      rewrite H1 at 1. reflexivity.
Qed.

Lemma getStackAddresses_frame t StackID sa t' :
  getStackAddresses t StackID = Some (sa, t') ->
  t' = setStackAddressesMap t (StackAddressesMap t').
Proof.
  unfold getStackAddresses.
  destruct (StackAddressesMap t !! StackID) as [stackBytes|].
  - destruct (stackAddressesOf stackBytes); cbn; [|discriminate].
    intros [= <- <-]. reflexivity.
  - intros [= <- <-]. now destruct t.
Qed.

(** What an event that leaves [decodeEvent] is made of. *)
Lemma decodeEvent_emits t dataRaw t' evt :
  decodeEvent DecodeContext GetSafe ReadArgFromBuff t dataRaw
  = Some (t', Some evt) ->
  exists ctx d def args sa,
    DecodeContext (bufferdecoder.New dataRaw) = (Ok ctx, d)
    /\ GetSafe (bufferdecoder.EventID ctx) = Some def
    /\ args = fst (fst (readArgs ReadArgFromBuff
                          (Z.to_nat (bufferdecoder.Argnum ctx)) 0
                          (bufferdecoder.EventID ctx) def d [] t))
    /\ stats t' = stats (snd (readArgs ReadArgFromBuff
                                (Z.to_nat (bufferdecoder.Argnum ctx)) 0
                                (bufferdecoder.EventID ctx) def d [] t))
    /\ (evt = makeEvent t (normalizeTimes t ctx) def args sa
        \/ evt = fst (shouldProcessEvent (ConfigFilterScopes (config t))
                        (makeEvent t (normalizeTimes t ctx) def args sa))).
Proof.
  unfold decodeEvent.
  destruct (DecodeContext (bufferdecoder.New dataRaw)) as [[ctx|err] d];
    [|discriminate].
  destruct (GetSafe (bufferdecoder.EventID ctx)) as [def|] eqn:Hdef;
    [|discriminate].
  pose proof (readArgs_spec (Z.to_nat (bufferdecoder.Argnum ctx)) 0
                (bufferdecoder.EventID ctx) def d [] t) as Hra.
  cbv zeta in Hra. destruct Hra as (Hfr & _).
  destruct (readArgs _ _ _ _ _ _ _ _) as [[args d'] t1] eqn:Hra.
  cbn [fst snd] in Hfr.
  assert (Hsa : forall sa t2,
             t2 = setStackAddressesMap t1 (StackAddressesMap t2) ->
             (if negb (bool_decide (bufferdecoder.EventID ctx
                                    ∈ eventDerivations t2))
              then
                let '(evt, ok) :=
                  shouldProcessEvent (ConfigFilterScopes (config t2))
                    (makeEvent t2 (normalizeTimes t2 ctx) def args sa) in
                if negb ok then Some (incEventsFiltered t2, None)
                else Some (t2, Some evt)
              else Some (t2, Some
                               (makeEvent t2 (normalizeTimes t2 ctx) def
                                  args sa)))
             = Some (t', Some evt) ->
             stats t' = stats t1
             /\ (evt = makeEvent t (normalizeTimes t ctx) def args sa
                 \/ evt = fst (shouldProcessEvent
                                 (ConfigFilterScopes (config t))
                                 (makeEvent t (normalizeTimes t ctx) def
                                    args sa)))).
  { intros sa t2 Ht2 H.
    assert (Hmk : makeEvent t2 (normalizeTimes t2 ctx) def args sa
                  = makeEvent t (normalizeTimes t ctx) def args sa)
      by (rewrite Ht2, Hfr; reflexivity).
    assert (Hcfg : config t2 = config t) by (rewrite Ht2, Hfr; reflexivity).
    assert (Hst : stats t2 = stats t1) by (rewrite Ht2; reflexivity).
    rewrite Hmk, Hcfg in H.
    destruct (negb (bool_decide _)).
    - destruct (shouldProcessEvent _ _) as [evt' ok] eqn:Hsp.
      destruct ok; cbn [negb] in H; [|discriminate].
      injection H as <- <-. cbn [fst]. auto.
    - injection H as <- <-. auto. }
  destruct (OutStackAddresses (Output (config t1))).
  - destruct (getStackAddresses t1 (bufferdecoder.StackID ctx))
      as [[sa t2]|] eqn:Hgs; cbn [mbind option_bind]; [|discriminate].
    intros H. apply Hsa in H; [|now apply getStackAddresses_frame in Hgs].
    exists ctx, d, def, args, sa. rewrite Hra. cbn [fst snd].
    destruct H as [Hs He].
    repeat (split; [first [reflexivity|assumption]|]). exact He.
  - cbn [mbind option_bind]. intros H.
    apply Hsa in H; [|now destruct t1].
    exists ctx, d, def, args, []. rewrite Hra. cbn [fst snd].
    destruct H as [Hs He].
    repeat (split; [first [reflexivity|assumption]|]). exact He.
Qed.

End Decoder.

(** ** C6: the two timestamp modes *)

Lemma int64_uint64_small x : 0 <= x < 2 ^ 63 -> GoInt.int64 (GoInt.uint64 x) = x.
Proof.
  intros H. unfold GoInt.int64, GoInt.uint64.
  rewrite (Z.mod_small x) by lia. rewrite Z.mod_small by lia. lia.
Qed.

(** C6.  An event that leaves the decoder has [Timestamp] and
    [ThreadStartTime] computed from the header's [Ts] and [StartTime] in
    one and the same mode: with [RelativeTime] the tracer's start time is
    subtracted from both, otherwise the boot time is added to both (in
    [uint64] arithmetic, read as [int]; the plain difference or sum
    whenever that lies in the range of [int]).  A record with [Ts] = 1500
    gives [Timestamp] = 500 in relative mode with start time 1000, and
    10^9 + 1500 in absolute mode with boot time 10^9. *)
Theorem decodeEvents_normalizes_timestamps :
  (forall DecodeContext GetSafe ReadArgFromBuff t dataRaw ctx d t' evt,
      DecodeContext (bufferdecoder.New dataRaw) = (Ok ctx, d) ->
      decodeEvent DecodeContext GetSafe ReadArgFromBuff t dataRaw
      = Some (t', Some evt) ->
      let ts := if RelativeTime (Output (config t))
                then bufferdecoder.Ts ctx - startTime t
                else bufferdecoder.Ts ctx + bootTime t in
      let st := if RelativeTime (Output (config t))
                then bufferdecoder.StartTime ctx - startTime t
                else bufferdecoder.StartTime ctx + bootTime t in
      trace.Timestamp evt = GoInt.int64 (GoInt.uint64 ts)
      /\ trace.ThreadStartTime evt = GoInt.int64 (GoInt.uint64 st)
      /\ (0 <= ts < 2 ^ 63 -> trace.Timestamp evt = ts)
      /\ (0 <= st < 2 ^ 63 -> trace.ThreadStartTime evt = st))
  /\ match decodeEvent exampleDecodeContext exampleGetSafe
             exampleReadArgFromBuff (decode_tracee true 1000 0) S5_record with
     | Some (_, Some evt) => trace.Timestamp evt = 500
     | _ => False
     end
  /\ match decodeEvent exampleDecodeContext exampleGetSafe
             exampleReadArgFromBuff (decode_tracee false 0 (10 ^ 9)) S5_record with
     | Some (_, Some evt) => trace.Timestamp evt = 10 ^ 9 + 1500
     | _ => False
     end.
Proof.
  split; [|split; vm_compute; reflexivity].
  intros DecodeContext GetSafe ReadArgFromBuff t dataRaw ctx d t' evt Hctx Hdec.
  apply decodeEvent_emits in Hdec.
  destruct Hdec as (ctx0 & d0 & def & args & sa & Hctx0 & _ & _ & _ & Hevt).
  rewrite Hctx in Hctx0. injection Hctx0 as <- <-.
  assert (Hts : trace.Timestamp evt
                = GoInt.int64 (bufferdecoder.Ts (normalizeTimes t ctx))
                /\ trace.ThreadStartTime evt
                   = GoInt.int64
                       (bufferdecoder.StartTime (normalizeTimes t ctx))).
  { destruct Hevt as [-> | ->]; split; reflexivity. }
  destruct Hts as [Hts Hst]. cbv zeta.
  unfold normalizeTimes in Hts, Hst.
  destruct (RelativeTime (Output (config t)));
    cbn [bufferdecoder.Ts bufferdecoder.StartTime bufferdecoder.setTimes]
      in Hts, Hst;
    rewrite Hts, Hst;
    (repeat split; [intros H; now apply int64_uint64_small ..]).
Qed.

Lemma decodeEvents_normalizes_timestamps_witness :
  trace.Timestamp
    (makeEvent (decode_tracee true 1000 0)
       (normalizeTimes (decode_tracee true 1000 0) (exampleContext 59 0 1500))
       {| events.Name := "execve";
          events.Params := [{| trace.Name := "arg"; trace.Type_ := "u8" |}] |}
       [] [])
  = 1500 - 1000.
Proof.
  refine (proj1 (proj2 (proj2
            (proj1 decodeEvents_normalizes_timestamps
               exampleDecodeContext exampleGetSafe exampleReadArgFromBuff
               (decode_tracee true 1000 0) S5_record
               (exampleContext 59 0 1500)
               {| bufferdecoder.buffer := S5_record;
                  bufferdecoder.cursor := 4 |}
               (decode_tracee true 1000 0) _ _ _))) _).
  - vm_compute. reflexivity.
  - vm_compute. reflexivity.
  - vm_compute. split; [discriminate|reflexivity].
Defined.

(** ** C1: a failing argument read *)

(** C1 (what the code does).  When the header decodes, the event id is
    known and nothing filters the event out, the decoder emits an event for
    the record however many of the [Argnum] argument reads fail: the event
    has [ArgsNum] = [Argnum], and [Args] is shorter than that by one for
    every failure counted in [ErrorCount].  For the record whose header
    announces two arguments and whose payload holds one, the event is
    emitted with one argument, [ArgsNum] = 2 and one error counted. *)
Theorem decodeEvents_emits_event_with_failed_argument :
  (forall DecodeContext GetSafe ReadArgFromBuff t dataRaw ctx d def,
      DecodeContext (bufferdecoder.New dataRaw) = (Ok ctx, d) ->
      GetSafe (bufferdecoder.EventID ctx) = Some def ->
      OutStackAddresses (Output (config t)) = false ->
      bufferdecoder.EventID ctx ∈ eventDerivations t ->
      exists t' evt,
        decodeEvent DecodeContext GetSafe ReadArgFromBuff t dataRaw
        = Some (t', Some evt)
        /\ trace.ArgsNum evt = bufferdecoder.Argnum ctx
        /\ (length (trace.Args evt) + ErrorCount (stats t')
            = ErrorCount (stats t) + Z.to_nat (bufferdecoder.Argnum ctx))%nat)
  /\ match decodeEvents exampleDecodeContext exampleGetSafe
             exampleReadArgFromBuff (decode_tracee true 1000 0)
             [(truncatedRecord, Proceed)] with
     | Some (t', [evt]) =>
         length (trace.Args evt) = 1%nat /\ trace.ArgsNum evt = 2
         /\ ErrorCount (stats t') = 1%nat
     | _ => False
     end.
Proof.
  split; [|vm_compute; repeat split; reflexivity].
  intros DecodeContext GetSafe ReadArgFromBuff t dataRaw ctx d def
    Hctx Hdef Hsa Hbase.
  unfold decodeEvent. rewrite Hctx, Hdef.
  pose proof (readArgs_spec ReadArgFromBuff
                (Z.to_nat (bufferdecoder.Argnum ctx)) 0
                (bufferdecoder.EventID ctx) def d [] t) as Hra.
  cbv zeta in Hra. destruct Hra as (Hfr & _ & _ & Hlen).
  destruct (readArgs _ _ _ _ _ _ _ _) as [[args d'] t1].
  cbn [fst snd length] in Hfr, Hlen.
  assert (Hcfg : config t1 = config t) by (rewrite Hfr; reflexivity).
  assert (Hder : eventDerivations t1 = eventDerivations t)
    by (rewrite Hfr; reflexivity).
  rewrite Hcfg, Hsa. cbn [mbind option_bind].
  rewrite Hder, bool_decide_eq_true_2 by assumption. cbn [negb].
  eexists _, _. split; [reflexivity|].
  split; [|cbn [makeEvent trace.Args]; lia].
  unfold normalizeTimes.
  match goal with |- context [if ?b then _ else _] => destruct b end;
    reflexivity.
Qed.

Lemma decodeEvents_emits_event_with_failed_argument_witness :
  exists t' evt,
    decodeEvent exampleDecodeContext exampleGetSafe exampleReadArgFromBuff
      base_tracee truncatedRecord
    = Some (t', Some evt)
    /\ trace.ArgsNum evt = 2
    /\ (length (trace.Args evt) + ErrorCount (stats t') = 0 + 2)%nat.
Proof.
  refine (proj1 decodeEvents_emits_event_with_failed_argument
            exampleDecodeContext exampleGetSafe exampleReadArgFromBuff
            base_tracee truncatedRecord (exampleContext 59 2 1500)
            {| bufferdecoder.buffer := truncatedRecord;
               bufferdecoder.cursor := 4 |}
            {| events.Name := "execve";
               events.Params :=
                 [{| trace.Name := "arg"; trace.Type_ := "u8" |}] |}
            _ _ _ _).
  - vm_compute. reflexivity.
  - vm_compute. reflexivity.
  - reflexivity.
  - vm_compute. reflexivity.
Defined.

(** ** C2: getStackAddresses *)

Lemma untilZero_nonzero ws : Forall (fun a => a <> 0) (untilZero ws).
Proof.
  induction ws as [|w ws IH]; cbn [untilZero]; [constructor|].
  destruct (w =? 0) eqn:E; constructor; [|assumption].
  now apply Z.eqb_neq.
Qed.

(** When the loop returns, the first [stackCounter] slots hold what they
    held before, followed by the frames read up to the first zero. *)
Lemma stackLoop_spec n :
  forall stackBytes SA c SA' c',
    (length stackBytes <= n)%nat ->
    stackLoop stackBytes SA c = Some (SA', c') ->
    length SA' = length SA
    /\ (c' <= length SA \/ c' = c)%nat
    /\ take c' SA' = take c SA ++ untilZero (framesOf stackBytes).
Proof.
  induction n as [|n IH]; intros stackBytes SA c SA' c' Hlen Hloop.
  - destruct stackBytes; [|cbn in Hlen; lia].
    cbn in Hloop. injection Hloop as <- <-.
    cbn [framesOf untilZero]. rewrite app_nil_r. auto.
  - destruct stackBytes
      as [|b0 [|b1 [|b2 [|b3 [|b4 [|b5 [|b6 [|b7 rest]]]]]]]];
      try discriminate Hloop.
    + cbn in Hloop. injection Hloop as <- <-.
      cbn [framesOf untilZero]. rewrite app_nil_r. auto.
    + cbn [stackLoop framesOf untilZero] in Hloop |- *.
      destruct (decide (c < length SA)%nat) as [Hc|Hc];
        [|discriminate Hloop].
      destruct (le_uint64 [b0; b1; b2; b3; b4; b5; b6; b7] =? 0) eqn:Ez.
      * injection Hloop as <- <-.
        rewrite length_insert, take_insert_ge, app_nil_r by lia.
        repeat split; lia.
      * apply IH in Hloop; [|cbn [length] in Hlen; lia].
        rewrite !length_insert in Hloop.
        destruct Hloop as (Hl & Hc' & Htake).
        split; [assumption|]. split; [lia|].
        rewrite Htake.
        rewrite (take_S_r _ _ (le_uint64 [b0; b1; b2; b3; b4; b5; b6; b7]))
          by (apply list_lookup_insert_eq; rewrite length_insert; lia).
        rewrite !take_insert_ge by lia.
        now rewrite <- app_assoc.
Qed.

(** Whenever [getStackAddresses] returns, what it returns is the frames of
    the table entry up to the first zero: at most 20 of them, none zero. *)
Lemma stackAddressesOf_returns stackBytes l :
  stackAddressesOf stackBytes = Some l ->
  l = untilZero (framesOf stackBytes)
  /\ (length l <= 20)%nat
  /\ Forall (fun a => a <> 0) l.
Proof.
  unfold stackAddressesOf. intros H.
  destruct (stackLoop stackBytes (replicate maxStackDepth 0) 0)
    as [[SA' c']|] eqn:Hloop; cbn [mbind option_bind] in H; [|discriminate].
  injection H as <-.
  apply (stackLoop_spec (length stackBytes)) in Hloop; [|lia].
  rewrite length_replicate in Hloop. destruct Hloop as (Hl & Hc & Htake).
  cbn [take app] in Htake.
  split; [assumption|]. split.
  - rewrite length_take. unfold maxStackDepth in *. lia.
  - rewrite Htake. apply untilZero_nonzero.
Qed.

(** It does return on every entry of at most 20 whole frames. *)
Lemma stackLoop_total k :
  forall stackBytes SA c,
    length stackBytes = (8 * k)%nat -> (c + k <= length SA)%nat ->
    is_Some (stackLoop stackBytes SA c).
Proof.
  induction k as [|k IH]; intros stackBytes SA c Hlen Hc.
  - destruct stackBytes; [|discriminate Hlen]. cbn. eauto.
  - destruct stackBytes
      as [|b0 [|b1 [|b2 [|b3 [|b4 [|b5 [|b6 [|b7 rest]]]]]]]];
      try (cbn in Hlen; lia).
    cbn [stackLoop].
    destruct (decide (c < length SA)%nat) as [Hlt|Hlt]; [|lia].
    destruct (le_uint64 [b0; b1; b2; b3; b4; b5; b6; b7] =? 0); [eauto|].
    apply IH; [cbn [length] in Hlen; lia|].
    rewrite !length_insert. lia.
Qed.

Lemma untilZero_length_le ws j :
  ws !! j = Some 0 -> (length (untilZero ws) <= j)%nat.
Proof.
  revert j. induction ws as [|w ws IH]; intros j Hj; [discriminate Hj|].
  cbn [untilZero]. destruct j as [|j].
  - injection Hj as ->. cbn. lia.
  - destruct (w =? 0); cbn [length]; [lia|].
    specialize (IH j Hj). lia.
Qed.

(** It also returns when a zero frame comes early enough. *)
Lemma stackLoop_total_zero n :
  forall stackBytes SA c,
    (length stackBytes <= n)%nat ->
    (length (untilZero (framesOf stackBytes)) < length (framesOf stackBytes))%nat ->
    (c + length (untilZero (framesOf stackBytes)) < length SA)%nat ->
    is_Some (stackLoop stackBytes SA c).
Proof.
  induction n as [|n IH]; intros stackBytes SA c Hn Hzero Hc.
  - destruct stackBytes; [cbn in Hzero; lia|cbn in Hn; lia].
  - destruct stackBytes
      as [|b0 [|b1 [|b2 [|b3 [|b4 [|b5 [|b6 [|b7 rest]]]]]]]];
      try (cbn in Hzero; lia).
    cbn [stackLoop framesOf untilZero] in Hzero, Hc |- *.
    destruct (decide (c < length SA)%nat) as [Hlt|Hlt]; [|lia].
    destruct (le_uint64 [b0; b1; b2; b3; b4; b5; b6; b7] =? 0); [eauto|].
    cbn [length] in Hzero, Hc, Hn.
    apply IH; [lia|lia|]. rewrite !length_insert. lia.
Qed.

Lemma stackAddressesOf_total stackBytes :
  withinMaxDepth stackBytes -> is_Some (stackAddressesOf stackBytes).
Proof.
  intros Hin. unfold stackAddressesOf.
  assert (Hloop : is_Some (stackLoop stackBytes (replicate maxStackDepth 0)
                             0%nat)).
  { destruct Hin as [(k & Hlen & Hk) | (j & Hj & Hzero)].
    - apply (stackLoop_total k); [assumption|].
      rewrite length_replicate. lia.
    - pose proof (untilZero_length_le _ _ Hzero) as Hle.
      apply lookup_lt_Some in Hzero.
      apply (stackLoop_total_zero (length stackBytes)); [lia|lia|].
      rewrite length_replicate. lia. }
  destruct Hloop as [[SA' c'] Hloop]. rewrite Hloop. cbn. eauto.
Qed.

(** The table entry of scenario S4, 25 non-zero frames and a zero frame,
    is not cut down to 20 addresses: the loop reaches its 21st iteration
    with [stackCounter] = 20, the write [StackAddresses[stackCounter] = 0]
    is out of range and the function panics; so does the call of
    [getStackAddresses] that finds the entry in the table, and so does an
    entry of 20 non-zero frames followed by the zero frame. *)
Lemma getStackAddresses_S4_entry_panics :
  stackAddressesOf S4_stackBytes = None
  /\ ~ (exists l, stackAddressesOf S4_stackBytes = Some l /\ length l = 20%nat)
  /\ getStackAddresses
       (setStackAddressesMap S2_tracee {[ 7 := S4_stackBytes ]}) 7 = None
  /\ stackAddressesOf (take 168 S4_stackBytes) = None.
Proof.
  assert (H : stackAddressesOf S4_stackBytes = None)
    by (vm_compute; reflexivity).
  split; [exact H|]. split.
  - intros (l & Hl & _). rewrite H in Hl. discriminate Hl.
  - split; vm_compute; reflexivity.
Qed.

(** C2 (amended).  For a table entry that holds at most 20 whole frames
    (the size the kernel's table gives its entries) or that has a zero frame
    among its first 20 frames, [getStackAddresses] returns the
    little-endian frames that come before the first zero frame: at most 20
    addresses, none of them zero; it removes the key from the table.  A
    missing key gives the empty sequence.  An entry of 20 non-zero frames
    gives exactly those 20 addresses. *)
Theorem getStackAddresses_within_max_depth :
  (forall t StackID stackBytes,
      StackAddressesMap t !! StackID = Some stackBytes ->
      withinMaxDepth stackBytes ->
      exists l,
        getStackAddresses t StackID
        = Some (l, setStackAddressesMap t
                     (delete StackID (StackAddressesMap t)))
        /\ l = untilZero (framesOf stackBytes)
        /\ (length l <= 20)%nat
        /\ Forall (fun a => a <> 0) l)
  /\ (forall t StackID,
         StackAddressesMap t !! StackID = None ->
         getStackAddresses t StackID = Some ([], t))
  /\ stackAddressesOf (take 160 S4_stackBytes)
     = Some [1; 2; 3; 4; 5; 6; 7; 8; 9; 10; 11; 12; 13; 14; 15; 16; 17; 18;
             19; 20].
Proof.
  split; [|split].
  - intros t StackID stackBytes Hlook Hin.
    destruct (stackAddressesOf_total stackBytes Hin) as [l Hl].
    exists l. unfold getStackAddresses. rewrite Hlook, Hl.
    split; [reflexivity|]. now apply stackAddressesOf_returns.
  - intros t StackID Hlook. unfold getStackAddresses. now rewrite Hlook.
  - vm_compute. reflexivity.
Qed.

Lemma getStackAddresses_within_max_depth_witness :
  exists l,
    getStackAddresses
      (setStackAddressesMap S2_tracee {[ 7 := take 160 S4_stackBytes ]}) 7
    = Some (l, setStackAddressesMap
                 (setStackAddressesMap S2_tracee
                    {[ 7 := take 160 S4_stackBytes ]})
                 (delete 7 {[ 7 := take 160 S4_stackBytes ]}))
    /\ l = untilZero (framesOf (take 160 S4_stackBytes))
    /\ (length l <= 20)%nat
    /\ Forall (fun a => a <> 0) l.
Proof.
  refine (proj1 getStackAddresses_within_max_depth
            (setStackAddressesMap S2_tracee {[ 7 := take 160 S4_stackBytes ]})
            7 (take 160 S4_stackBytes) _ _).
  - apply lookup_singleton_eq.
  - left. exists 20%nat. split; [reflexivity|unfold maxStackDepth; lia].
Defined.

(** ** C3: scope bits are only ever cleared *)

Lemma shouldProcessEvent_subset scopes e :
  bits_subset (trace.MatchedScopes (fst (shouldProcessEvent scopes e)))
    (trace.MatchedScopes e).
Proof. apply computeScopes_subset. Qed.

Lemma processEventsStep_subset processEvent CgroupMkdir CgroupRmdir
    t event t' event' :
  processEventsStep processEvent CgroupMkdir CgroupRmdir t event
  = (t', Some event') ->
  bits_subset (trace.MatchedScopes event')
    (trace.MatchedScopes (snd (fst (processEvent t event)))).
Proof.
  unfold processEventsStep.
  destruct (processEvent t event) as [[t1 event1] errs]. cbn [fst snd].
  destruct (0 <? length errs)%nat; [discriminate|].
  destruct (_ && bool_decide _); [|intros [= _ <-]; apply bits_subset_refl].
  destruct (_ && _); [|intros [= _ <-]; apply bits_subset_refl].
  cbn [trace.MatchedScopes trace.setMatchedScopes].
  destruct (_ =? 0); [discriminate|].
  intros [= _ <-]. apply ClearBits_subset.
Qed.

Lemma deriveLoop_subset SymbolsLoaded SharedObjectLoaded PrintMemDump t ds e' :
  In e' (snd (deriveLoop SymbolsLoaded SharedObjectLoaded PrintMemDump t ds)) ->
  exists d, In d ds
            /\ bits_subset (trace.MatchedScopes e') (trace.MatchedScopes d).
Proof.
  destruct (deriveLoop_spec SymbolsLoaded SharedObjectLoaded PrintMemDump ds t)
    as (Ho & _).
  rewrite Ho. intros Hin. apply list_elem_of_In, list_elem_of_omap in Hin.
  destruct Hin as (d & Hd & Hout). exists d.
  split; [now apply list_elem_of_In|].
  unfold derivativeOut in Hout.
  destruct (exemptID _ _ _ _); [injection Hout as <-; apply bits_subset_refl|].
  destruct (snd (shouldProcessEvent _ d)); [|discriminate].
  injection Hout as <-. apply shouldProcessEvent_subset.
Qed.

Lemma parseArguments_subset ParseArgs ParseArgsFDs t e :
  (forall e0, bits_subset (trace.MatchedScopes (fst (ParseArgs e0)))
                (trace.MatchedScopes e0)) ->
  (forall t0 e0, bits_subset (trace.MatchedScopes (fst (ParseArgsFDs t0 e0)))
                   (trace.MatchedScopes e0)) ->
  bits_subset
    (trace.MatchedScopes (fst (parseArguments ParseArgs ParseArgsFDs t e)))
    (trace.MatchedScopes e).
Proof.
  intros Hpa Hfd. unfold parseArguments.
  destruct (ParseArguments _); [|apply bits_subset_refl].
  specialize (Hpa e). destruct (ParseArgs e) as [e1 [err|]]; [exact Hpa|].
  cbn [fst] in Hpa.
  destruct (ParseArgumentsFDs _); [|exact Hpa].
  eapply bits_subset_trans; [apply Hfd|exact Hpa].
Qed.

Lemma sinkEvent_subset ParseArgs ParseArgsFDs t event s e' :
  (forall e0, bits_subset (trace.MatchedScopes (fst (ParseArgs e0)))
                (trace.MatchedScopes e0)) ->
  (forall t0 e0, bits_subset (trace.MatchedScopes (fst (ParseArgsFDs t0 e0)))
                   (trace.MatchedScopes e0)) ->
  In (SendChanEvents e')
    (snd (fst (sinkEvent ParseArgs ParseArgsFDs t event s))) ->
  bits_subset (trace.MatchedScopes e') (trace.MatchedScopes event).
Proof.
  intros Hpa Hfd. unfold sinkEvent.
  destruct (_ =? 0); [contradiction|].
  pose proof (parseArguments_subset ParseArgs ParseArgsFDs t
                (trace.setMatchedScopes event
                   (Z.land (trace.MatchedScopes event)
                      (emitMask t (trace.EventID event)))) Hpa Hfd) as Hsub.
  cbn [trace.MatchedScopes trace.setMatchedScopes] in Hsub.
  assert (Hparsed : bits_subset
                      (trace.MatchedScopes
                         (fst (parseArguments ParseArgs ParseArgsFDs t
                                 (trace.setMatchedScopes event
                                    (Z.land (trace.MatchedScopes event)
                                       (emitMask t (trace.EventID event)))))))
                      (trace.MatchedScopes event))
    by (eapply bits_subset_trans; [exact Hsub|apply bits_subset_land_l]).
  destruct (negb (EngineEnabled (config t))).
  - destruct (parseArguments _ _ _ _) as [e1 [err|]]; cbn [fst] in Hparsed;
      destruct s; cbn [fst snd app In];
      intros H; repeat destruct H as [H|H]; try discriminate H;
      try contradiction; injection H as <-; exact Hparsed.
  - destruct s; cbn [fst snd app In];
      intros H; repeat destruct H as [H|H]; try discriminate H;
      try contradiction; injection H as <-; apply bits_subset_land_l.
Qed.

(** C3.  None of the operations on [MatchedScopes] sets a bit that was not
    set before: the result of [computeScopes] (and so of
    [shouldProcessEvent]) is within the bitmap of the event it is given; an
    event that leaves the decoder is within the bitmap the kernel reported
    in the record's header; an event that leaves the processor is within
    its bitmap as the side effects left it; a derivative that leaves the
    deriver is within the bitmap it was derived with; an event the sink
    sends is within the bitmap it arrived with (the argument parsers of the
    events package being taken not to set scope bits); and the three
    operations applied in pipeline order give a bitmap within the
    original. *)
Theorem MatchedScopes_bits_only_cleared :
  (forall scopes e,
      bits_subset (computeScopes scopes e) (trace.MatchedScopes e)
      /\ bits_subset (trace.MatchedScopes (fst (shouldProcessEvent scopes e)))
           (trace.MatchedScopes e))
  /\ (forall DecodeContext GetSafe ReadArgFromBuff t dataRaw ctx d t' evt,
         DecodeContext (bufferdecoder.New dataRaw) = (Ok ctx, d) ->
         decodeEvent DecodeContext GetSafe ReadArgFromBuff t dataRaw
         = Some (t', Some evt) ->
         bits_subset (trace.MatchedScopes evt)
           (bufferdecoder.MatchedScopes ctx))
  /\ (forall processEvent CgroupMkdir CgroupRmdir t event t' event',
         processEventsStep processEvent CgroupMkdir CgroupRmdir t event
         = (t', Some event') ->
         bits_subset (trace.MatchedScopes event')
           (trace.MatchedScopes (snd (fst (processEvent t event)))))
  /\ (forall SymbolsLoaded SharedObjectLoaded PrintMemDump t ds e',
         In e' (snd (deriveLoop SymbolsLoaded SharedObjectLoaded PrintMemDump
                       t ds)) ->
         exists d, In d ds
                   /\ bits_subset (trace.MatchedScopes e')
                        (trace.MatchedScopes d))
  /\ (forall ParseArgs ParseArgsFDs t event s e',
         (forall e0, bits_subset (trace.MatchedScopes (fst (ParseArgs e0)))
                       (trace.MatchedScopes e0)) ->
         (forall t0 e0,
             bits_subset (trace.MatchedScopes (fst (ParseArgsFDs t0 e0)))
               (trace.MatchedScopes e0)) ->
         In (SendChanEvents e')
           (snd (fst (sinkEvent ParseArgs ParseArgsFDs t event s))) ->
         bits_subset (trace.MatchedScopes e') (trace.MatchedScopes event))
  /\ (forall scopes e mask emitted,
         bits_subset
           (Z.land (utils.ClearBits (computeScopes scopes e) mask) emitted)
           (trace.MatchedScopes e)).
Proof.
  split; [|split; [|split; [|split; [|split]]]].
  - intros scopes e. split;
      [apply computeScopes_subset|apply shouldProcessEvent_subset].
  - intros DecodeContext GetSafe ReadArgFromBuff t dataRaw ctx d t' evt
      Hctx Hdec.
    apply decodeEvent_emits in Hdec.
    destruct Hdec as (ctx0 & d0 & def & args & sa & Hctx0 & _ & _ & _ & Hevt).
    rewrite Hctx in Hctx0. injection Hctx0 as <- <-.
    assert (Horig : trace.MatchedScopes
                      (makeEvent t (normalizeTimes t ctx) def args sa)
                    = bufferdecoder.MatchedScopes ctx)
      by (unfold normalizeTimes; now destruct (RelativeTime _)).
    rewrite <- Horig. destruct Hevt as [-> | ->];
      [apply bits_subset_refl|apply shouldProcessEvent_subset].
  - apply processEventsStep_subset.
  - apply deriveLoop_subset.
  - apply sinkEvent_subset.
  - intros scopes e mask emitted.
    eapply bits_subset_trans; [apply bits_subset_land_l|].
    eapply bits_subset_trans; [apply ClearBits_subset|].
    apply computeScopes_subset.
Qed.

Lemma MatchedScopes_bits_only_cleared_witness :
  bits_subset (Z.shiftl 1 59)
    (trace.MatchedScopes
       (sampleEvent 59 150 (Z.lor (Z.shiftl 1 30) (Z.shiftl 1 59))
          EmptyString)).
Proof.
  refine (proj1 (proj2 (proj2 (proj2 (proj2 MatchedScopes_bits_only_cleared))))
            noParseArgs noParseArgsFDs sink_tracee
            (sampleEvent 59 150 (Z.lor (Z.shiftl 1 30) (Z.shiftl 1 59))
               EmptyString)
            Proceed
            (sampleEvent 59 150 (Z.shiftl 1 59) EmptyString) _ _ _).
  - intros e0. apply bits_subset_refl.
  - intros t0 e0. apply bits_subset_refl.
  - vm_compute. right. left. reflexivity.
Defined.

(** ** The loops over the channels *)

(** Every event on the decoder's output channel was emitted by the loop
    body on one of the records received. *)
Lemma decodeEvents_emitted DecodeContext GetSafe ReadArgFromBuff sourceChan :
  forall t t' out evt,
    decodeEvents DecodeContext GetSafe ReadArgFromBuff t sourceChan
    = Some (t', out) ->
    In evt out ->
    exists t0 dataRaw s t1,
      In (dataRaw, s) sourceChan
      /\ decodeEvent DecodeContext GetSafe ReadArgFromBuff t0 dataRaw
         = Some (t1, Some evt).
Proof.
  induction sourceChan as [|[dataRaw s] rest IH]; intros t t' out evt Hrun Hin.
  - injection Hrun as <- <-. contradiction.
  - cbn [decodeEvents] in Hrun.
    destruct (decodeEvent DecodeContext GetSafe ReadArgFromBuff t dataRaw)
      as [[t1 [e|]]|] eqn:Hstep; cbn [mbind option_bind] in Hrun;
      [|..|discriminate Hrun].
    + destruct s.
      * destruct (decodeEvents DecodeContext GetSafe ReadArgFromBuff t1 rest)
          as [[t2 out']|] eqn:Hrest; cbn [mbind option_bind] in Hrun;
          [|discriminate Hrun].
        injection Hrun as <- <-. destruct Hin as [<- | Hin].
        -- exists t, dataRaw, Proceed, t1. split; [now left|assumption].
        -- destruct (IH _ _ _ _ Hrest Hin) as (t0 & r & s & t3 & Hr & Hd).
           exists t0, r, s, t3. split; [now right|assumption].
      * injection Hrun as <- <-. contradiction.
    + destruct (IH _ _ _ _ Hrun Hin) as (t0 & r & s' & t3 & Hr & Hd).
      exists t0, r, s', t3. split; [now right|assumption].
Qed.

(** Every event on the processor's output channel was forwarded by the
    loop body for one of the events received. *)
Lemma processEvents_emitted processEvent CgroupMkdir CgroupRmdir in_ :
  forall t evt,
    In evt (snd (processEvents processEvent CgroupMkdir CgroupRmdir t in_)) ->
    exists t0 event s t1,
      In (event, s) in_
      /\ processEventsStep processEvent CgroupMkdir CgroupRmdir t0 event
         = (t1, Some evt).
Proof.
  induction in_ as [|[event s] rest IH]; intros t evt Hin;
    cbn [processEvents] in Hin.
  - contradiction.
  - destruct (processEventsStep processEvent CgroupMkdir CgroupRmdir t event)
      as [t1 [e|]] eqn:Hstep.
    + destruct s.
      * destruct (processEvents processEvent CgroupMkdir CgroupRmdir t1 rest)
          as [t2 out'] eqn:Hrest.
        cbn [snd] in Hin. destruct Hin as [<- | Hin].
        -- exists t, event, Proceed, t1. split; [now left|assumption].
        -- specialize (IH t1 evt). rewrite Hrest in IH.
           destruct (IH Hin) as (t0 & e0 & s & t3 & Hr & Hd).
           exists t0, e0, s, t3. split; [now right|assumption].
      * contradiction.
    + destruct (IH t1 evt Hin) as (t0 & e0 & s' & t3 & Hr & Hd).
      exists t0, e0, s', t3. split; [now right|assumption].
Qed.

(** The deriver sends the event it received before any of its
    derivatives. *)
Lemma deriveEventsStep_original_first DeriveEvent SymbolsLoaded
    SharedObjectLoaded PrintMemDump t event :
  exists out,
    snd (deriveEventsStep DeriveEvent SymbolsLoaded SharedObjectLoaded
           PrintMemDump t event) = event :: out.
Proof.
  unfold deriveEventsStep.
  destruct (DeriveEvent t event) as [derivatives errors].
  destruct (deriveLoop _ _ _ _ derivatives) as [t' out].
  now exists out.
Qed.

(** * Further properties of the pipeline code *)

(** ** computeScopes: order, range, scope ids *)

Lemma land_le_l a b : 0 <= a -> 0 <= Z.land a b <= a.
Proof.
  intros Ha. split; [apply Z.land_nonneg; now left|].
  assert (Hsplit : a = Z.land a b + Z.ldiff a b).
  { rewrite Z.add_nocarry_lxor, Z.lxor_lor.
    - apply Z.bits_inj'. intros i Hi.
      rewrite Z.lor_spec, Z.land_spec, Z.ldiff_spec.
      now destruct (Z.testbit a i), (Z.testbit b i).
    - apply Z.bits_inj'. intros i Hi.
      rewrite Z.land_spec, Z.land_spec, Z.ldiff_spec, Z.bits_0.
      now destruct (Z.testbit a i), (Z.testbit b i).
    - apply Z.bits_inj'. intros i Hi.
      rewrite Z.land_spec, Z.land_spec, Z.ldiff_spec, Z.bits_0.
      now destruct (Z.testbit a i), (Z.testbit b i). }
  assert (0 <= Z.ldiff a b) by (apply Z.ldiff_nonneg; now left).
  lia.
Qed.

Lemma computeScopes_step_range e orig m s :
  0 <= m -> 0 <= computeScopes_step e orig m s <= m.
Proof.
  intros Hm. unfold computeScopes_step, utils.ClearBit.
  repeat match goal with
         | |- context [if ?b then _ else _] => destruct b
         end;
    first [lia | now apply land_le_l].
Qed.

Lemma fold_computeScopes_range e orig scopes m :
  0 <= m -> 0 <= fold_left (computeScopes_step e orig) scopes m <= m.
Proof.
  revert m. induction scopes as [|s scopes IH]; intros m Hm; cbn [fold_left].
  - lia.
  - pose proof (computeScopes_step_range e orig m s Hm) as Hs.
    specialize (IH (computeScopes_step e orig m s) (proj1 Hs)). lia.
Qed.

Lemma fold_computeScopes_subset e orig scopes m :
  bits_subset (fold_left (computeScopes_step e orig) scopes m) m.
Proof.
  revert m. induction scopes as [|s scopes IH]; intros m; cbn [fold_left].
  - apply bits_subset_refl.
  - eapply bits_subset_trans; [apply IH|apply computeScopes_step_subset].
Qed.

(** X1.  Go ranges over the map of filter scopes in no fixed order; the
    bitmap [computeScopes] returns, and with it the event and the boolean
    of [shouldProcessEvent], is the same for every order. *)
Theorem computeScopes_order_independent scopes scopes' e :
  Permutation scopes scopes' ->
  computeScopes scopes e = computeScopes scopes' e
  /\ shouldProcessEvent scopes e = shouldProcessEvent scopes' e.
Proof.
  intros Hperm.
  pose proof (computeScopes_Permutation scopes scopes' e Hperm) as H.
  split; [exact H|]. unfold shouldProcessEvent. now rewrite H.
Qed.

Lemma computeScopes_order_independent_witness :
  computeScopes S1_scopes S1_event = computeScopes (rev S1_scopes) S1_event
  /\ shouldProcessEvent S1_scopes S1_event
     = shouldProcessEvent (rev S1_scopes) S1_event.
Proof.
  apply (computeScopes_order_independent S1_scopes (rev S1_scopes) S1_event).
  apply Permutation_rev.
Defined.

(** X2.  On a bitmap that is a [uint64] the loop of [computeScopes] never
    leaves the range: the result lies between zero and the bitmap the
    kernel reported, so it is a [uint64] again. *)
Theorem computeScopes_stays_in_range scopes e :
  0 <= trace.MatchedScopes e < 2 ^ 64 ->
  0 <= computeScopes scopes e <= trace.MatchedScopes e
  /\ computeScopes scopes e < 2 ^ 64.
Proof.
  intros [Hlo Hhi]. unfold computeScopes.
  pose proof (fold_computeScopes_range e (trace.MatchedScopes e) scopes
                (trace.MatchedScopes e) Hlo).
  lia.
Qed.

Lemma computeScopes_stays_in_range_witness :
  0 <= computeScopes S1_scopes S1_event <= trace.MatchedScopes S1_event
  /\ computeScopes S1_scopes S1_event < 2 ^ 64.
Proof.
  apply (computeScopes_stays_in_range S1_scopes S1_event).
  vm_compute. split; [discriminate|reflexivity].
Defined.

Lemma computeScopes_step_out_of_range e orig m s :
  64 <= bitOffset s -> computeScopes_step e orig m s = m.
Proof.
  intros Hoff. unfold computeScopes_step. fold (bitOffset s).
  rewrite HasBit_spec by apply bitOffset_nonneg.
  replace (bitOffset s <? 64) with false
    by (symmetry; apply Z.ltb_ge; assumption).
  now rewrite andb_false_r.
Qed.

(** X3.  A scope whose id is 64 or more owns no bit of the bitmap: the
    loop skips it, whatever its filters say, and the result is the one of
    the configuration without such scopes. *)
Theorem computeScopes_skips_ids_from_64 scopes e :
  computeScopes (List.filter (fun s => bitOffset s <? 64) scopes) e
  = computeScopes scopes e.
Proof.
  unfold computeScopes. generalize (trace.MatchedScopes e) at 2 4 as m.
  induction scopes as [|s scopes IH]; intros m; cbn [List.filter fold_left].
  - reflexivity.
  - destruct (bitOffset s <? 64) eqn:E; cbn [fold_left].
    + apply IH.
    + rewrite computeScopes_step_out_of_range by now apply Z.ltb_ge.
      apply IH.
Qed.

(** X4.  Configuring further scopes can only clear further bits: the
    result for a longer list of scopes is within the result for the list
    it extends.  An event that the kernel matched to no scope is rejected
    under every configuration. *)
Theorem computeScopes_more_scopes_clear_more scopes more e :
  bits_subset (computeScopes (scopes ++ more) e) (computeScopes scopes e)
  /\ (trace.MatchedScopes e = 0 ->
      shouldProcessEvent scopes e = (trace.setMatchedScopes e 0, false)).
Proof.
  split.
  - unfold computeScopes. rewrite fold_left_app.
    apply fold_computeScopes_subset.
  - intros Hz.
    assert (H : computeScopes scopes e = 0).
    { pose proof (fold_computeScopes_range e (trace.MatchedScopes e) scopes
                    (trace.MatchedScopes e)) as Hr.
      unfold computeScopes. rewrite Hz in Hr |- *. lia. }
    unfold shouldProcessEvent. rewrite H. reflexivity.
Qed.

Lemma computeScopes_more_scopes_clear_more_witness :
  shouldProcessEvent S1_scopes (sampleEvent 59 150 0 EmptyString)
  = (trace.setMatchedScopes (sampleEvent 59 150 0 EmptyString) 0, false).
Proof.
  apply (computeScopes_more_scopes_clear_more S1_scopes []
           (sampleEvent 59 150 0 EmptyString)).
  reflexivity.
Defined.

(** ** The decoder, record by record *)

Lemma getStackAddresses_facts t StackID sa t' :
  getStackAddresses t StackID = Some (sa, t') ->
  t' = setStackAddressesMap t (delete StackID (StackAddressesMap t))
  /\ match StackAddressesMap t !! StackID with
     | Some stackBytes => stackAddressesOf stackBytes = Some sa
     | None => sa = []
     end.
Proof.
  unfold getStackAddresses.
  destruct (StackAddressesMap t !! StackID) as [stackBytes|] eqn:Hlook.
  - destruct (stackAddressesOf stackBytes) as [l|]; cbn; [|discriminate].
    intros [= <- <-]. auto.
  - intros [= <- <-]. rewrite delete_id by assumption.
    split; [now destruct t|reflexivity].
Qed.

Section DecoderFacts.

Variable DecodeContext :
  bufferdecoder.EbpfDecoder -> result bufferdecoder.Context * bufferdecoder.EbpfDecoder.
Variable GetSafe : Z -> option events.EventDefinition.
Variable ReadArgFromBuff :
  Z -> bufferdecoder.EbpfDecoder -> list trace.ArgMeta ->
  result (trace.ArgMeta * trace.ArgValue) * bufferdecoder.EbpfDecoder.

Lemma readArgs_mono n i eventId def d args t :
  let r := readArgs ReadArgFromBuff n i eventId def d args t in
  (ErrorCount (stats t) <= ErrorCount (stats (snd r)))%nat
  /\ (length args <= length (fst (fst r)))%nat.
Proof.
  cbv zeta. revert i d args t.
  induction n as [|n IH]; intros i d args t; cbn [readArgs].
  - cbn [fst snd]. lia.
  - destruct (ReadArgFromBuff eventId d (events.Params def))
      as [[[argMeta argVal]|err] d'].
    + destruct (IH (i + 1) d'
                  (args ++ [{| trace.Meta := argMeta; trace.Value := argVal |}])
                  t) as [H1 H2].
      rewrite length_app in H2. cbn [length] in H2. lia.
    + destruct (IH (i + 1) d' args
                  (handleError t
                     (ErrReadArgument i (events.Name def) err)))
        as [H1 H2].
      cbn [handleError setStats stats ErrorCount] in H1. lia.
Qed.

(** The loop body for a record whose header decodes to a known event, as
    one expression over the tracer state the record arrived in. *)
Lemma decodeEvent_known t dataRaw ctx d def :
  DecodeContext (bufferdecoder.New dataRaw) = (Ok ctx, d) ->
  GetSafe (bufferdecoder.EventID ctx) = Some def ->
  let ra := readArgs ReadArgFromBuff (Z.to_nat (bufferdecoder.Argnum ctx)) 0
              (bufferdecoder.EventID ctx) def d [] t in
  decodeEvent DecodeContext GetSafe ReadArgFromBuff t dataRaw
  = match (if OutStackAddresses (Output (config t))
           then getStackAddresses (snd ra) (bufferdecoder.StackID ctx)
           else Some ([], snd ra)) with
    | None => None
    | Some (sa, t2) =>
        let evt := makeEvent t (normalizeTimes t ctx) def (fst (fst ra)) sa in
        if bool_decide (bufferdecoder.EventID ctx ∈ eventDerivations t)
        then Some (t2, Some evt)
        else if snd (shouldProcessEvent (ConfigFilterScopes (config t)) evt)
             then Some (t2, Some (fst (shouldProcessEvent
                                         (ConfigFilterScopes (config t)) evt)))
             else Some (incEventsFiltered t2, None)
    end.
Proof.
  intros Hctx Hdef. cbv zeta. unfold decodeEvent. rewrite Hctx, Hdef.
  pose proof (readArgs_spec ReadArgFromBuff
                (Z.to_nat (bufferdecoder.Argnum ctx)) 0
                (bufferdecoder.EventID ctx) def d [] t) as Hra.
  cbv zeta in Hra. destruct Hra as (Hfr & _).
  destruct (readArgs _ _ _ _ _ _ _ _) as [[args d'] t1].
  cbn [fst snd] in Hfr |- *.
  assert (Hcfg1 : config t1 = config t) by (rewrite Hfr; reflexivity).
  rewrite Hcfg1.
  assert (Hbody : forall sa t2,
             t2 = setStackAddressesMap t1 (StackAddressesMap t2) ->
             (if negb (bool_decide (bufferdecoder.EventID ctx
                                    ∈ eventDerivations t2))
              then
                let '(evt, ok) :=
                  shouldProcessEvent (ConfigFilterScopes (config t2))
                    (makeEvent t2 (normalizeTimes t2 ctx) def args sa) in
                if negb ok then Some (incEventsFiltered t2, None)
                else Some (t2, Some evt)
              else Some (t2, Some
                               (makeEvent t2 (normalizeTimes t2 ctx) def
                                  args sa)))
             = (if bool_decide (bufferdecoder.EventID ctx ∈ eventDerivations t)
                then Some (t2, Some (makeEvent t (normalizeTimes t ctx) def
                                       args sa))
                else if snd (shouldProcessEvent (ConfigFilterScopes (config t))
                               (makeEvent t (normalizeTimes t ctx) def args sa))
                     then Some (t2, Some (fst (shouldProcessEvent
                                                 (ConfigFilterScopes (config t))
                                                 (makeEvent t
                                                    (normalizeTimes t ctx) def
                                                    args sa))))
                     else Some (incEventsFiltered t2, None))).
  { intros sa t2 Ht2.
    assert (Hmk : makeEvent t2 (normalizeTimes t2 ctx) def args sa
                  = makeEvent t (normalizeTimes t ctx) def args sa)
      by (rewrite Ht2, Hfr; reflexivity).
    assert (Hcfg : config t2 = config t) by (rewrite Ht2, Hfr; reflexivity).
    assert (Hder : eventDerivations t2 = eventDerivations t)
      by (rewrite Ht2, Hfr; reflexivity).
    rewrite Hmk, Hcfg, Hder.
    destruct (bool_decide _); cbn [negb]; [reflexivity|].
    destruct (shouldProcessEvent _ _) as [evt ok]. cbn [fst snd].
    now destruct ok. }
  destruct (OutStackAddresses (Output (config t))).
  - destruct (getStackAddresses t1 (bufferdecoder.StackID ctx))
      as [[sa t2]|] eqn:Hgs; cbn [mbind option_bind]; [|reflexivity].
    apply Hbody. now apply getStackAddresses_frame in Hgs.
  - cbn [mbind option_bind]. apply Hbody. now destruct t1.
Qed.

(** What one record does to the tracer state: only the statistics and the
    stack table change; [EventCount] stays, [ErrorCount] and
    [EventsFiltered] do not decrease; an emitted event leaves
    [EventsFiltered] alone, a dropped record is either counted as filtered
    or counted as exactly one more error. *)
Lemma decodeEvent_step t dataRaw t' r :
  decodeEvent DecodeContext GetSafe ReadArgFromBuff t dataRaw = Some (t', r) ->
  t' = setStackAddressesMap (setStats t (stats t')) (StackAddressesMap t')
  /\ EventCount (stats t') = EventCount (stats t)
  /\ (ErrorCount (stats t) <= ErrorCount (stats t'))%nat
  /\ match r with
     | Some _ => EventsFiltered (stats t') = EventsFiltered (stats t)
     | None =>
         (EventsFiltered (stats t') = EventsFiltered (stats t)
          /\ ErrorCount (stats t') = S (ErrorCount (stats t)))
         \/ EventsFiltered (stats t') = S (EventsFiltered (stats t))
     end
  /\ (StackAddressesMap t' = StackAddressesMap t
      \/ OutStackAddresses (Output (config t)) = true
         /\ exists StackID,
              StackAddressesMap t' = delete StackID (StackAddressesMap t)).
Proof.
  destruct (DecodeContext (bufferdecoder.New dataRaw)) as [[ctx|err] d] eqn:Hctx.
  2:{ unfold decodeEvent. rewrite Hctx. intros [= <- <-].
      cbn. repeat split; try lia; auto. }
  destruct (GetSafe (bufferdecoder.EventID ctx)) as [def|] eqn:Hdef.
  2:{ unfold decodeEvent. rewrite Hctx, Hdef. intros [= <- <-].
      cbn. repeat split; try lia; auto. }
  rewrite (decodeEvent_known t dataRaw ctx d def Hctx Hdef). cbv zeta.
  pose proof (readArgs_spec ReadArgFromBuff
                (Z.to_nat (bufferdecoder.Argnum ctx)) 0
                (bufferdecoder.EventID ctx) def d [] t) as Hra.
  cbv zeta in Hra. destruct Hra as (Hfr & Hec & Hef & Hlen).
  pose proof (readArgs_mono (Z.to_nat (bufferdecoder.Argnum ctx)) 0
                (bufferdecoder.EventID ctx) def d [] t) as Hmono.
  cbv zeta in Hmono. destruct Hmono as [Hmono _].
  destruct (readArgs _ _ _ _ _ _ _ _) as [[args d'] t1].
  cbn [fst snd length] in *.
  assert (Hsa : forall sa t2,
             (OutStackAddresses (Output (config t)) = true
              /\ getStackAddresses t1 (bufferdecoder.StackID ctx)
                 = Some (sa, t2))
             \/ t2 = t1 ->
             stats t2 = stats t1
             /\ t2 = setStackAddressesMap (setStats t (stats t1))
                       (StackAddressesMap t2)
             /\ (StackAddressesMap t2 = StackAddressesMap t
                 \/ OutStackAddresses (Output (config t)) = true
                    /\ exists StackID,
                         StackAddressesMap t2
                         = delete StackID (StackAddressesMap t))).
  { intros sa t2 [[Hon Hgs] | ->].
    - apply getStackAddresses_facts in Hgs. destruct Hgs as [-> _].
      rewrite Hfr. cbn. repeat split. right. split; [assumption|].
      now exists (bufferdecoder.StackID ctx).
    - rewrite Hfr. cbn. repeat split. now left. }
  destruct (OutStackAddresses (Output (config t))) eqn:Hon.
  - destruct (getStackAddresses t1 (bufferdecoder.StackID ctx))
      as [[sa t2]|] eqn:Hgs; [|discriminate].
    destruct (Hsa sa t2) as (Hst & Hfr2 & Hmap); [left; auto|].
    destruct (bool_decide _);
      [|destruct (snd (shouldProcessEvent _ _))];
      intros [= <- <-]; cbn [incEventsFiltered setStats stats EventCount
                               EventsFiltered ErrorCount StackAddressesMap];
      rewrite ?Hst;
      (split; [rewrite Hfr2 at 1; rewrite ?Hst; reflexivity|]).
    all: (split; [lia|]); (split; [lia|]); (split; [auto; lia|]);
      rewrite Hfr2; cbn; rewrite Hfr2 in Hmap; exact Hmap.
  - destruct (Hsa [] t1) as (Hst & Hfr2 & Hmap); [now right|].
    destruct (bool_decide _);
      [|destruct (snd (shouldProcessEvent _ _))];
      intros [= <- <-]; cbn [incEventsFiltered setStats stats EventCount
                               EventsFiltered ErrorCount StackAddressesMap];
      (split; [rewrite Hfr2 at 1; reflexivity|]);
      (split; [lia|]); (split; [lia|]); (split; [auto; lia|]);
      rewrite Hfr2; cbn; rewrite Hfr2 in Hmap; exact Hmap.
Qed.

End DecoderFacts.

(** An emitted event, taken apart: the definition found for its id, the
    arguments read, the stack addresses attached and the way it passed the
    first-pass filter. *)
Lemma decodeEvent_emitted_inv DecodeContext GetSafe ReadArgFromBuff
    t dataRaw ctx d t' evt :
  DecodeContext (bufferdecoder.New dataRaw) = (Ok ctx, d) ->
  decodeEvent DecodeContext GetSafe ReadArgFromBuff t dataRaw
  = Some (t', Some evt) ->
  exists def sa,
    GetSafe (bufferdecoder.EventID ctx) = Some def
    /\ stats t'
       = stats (snd (readArgs ReadArgFromBuff
                       (Z.to_nat (bufferdecoder.Argnum ctx)) 0
                       (bufferdecoder.EventID ctx) def d [] t))
    /\ (OutStackAddresses (Output (config t)) = false /\ sa = []
        /\ StackAddressesMap t' = StackAddressesMap t
        \/ OutStackAddresses (Output (config t)) = true
           /\ StackAddressesMap t'
              = delete (bufferdecoder.StackID ctx) (StackAddressesMap t)
           /\ match StackAddressesMap t !! bufferdecoder.StackID ctx with
              | Some stackBytes => stackAddressesOf stackBytes = Some sa
              | None => sa = []
              end)
    /\ let e0 := makeEvent t (normalizeTimes t ctx) def
                   (fst (fst (readArgs ReadArgFromBuff
                                (Z.to_nat (bufferdecoder.Argnum ctx)) 0
                                (bufferdecoder.EventID ctx) def d [] t))) sa in
       (bufferdecoder.EventID ctx ∈ eventDerivations t /\ evt = e0
        \/ (bufferdecoder.EventID ctx ∉ eventDerivations t)
           /\ snd (shouldProcessEvent (ConfigFilterScopes (config t)) e0) = true
           /\ evt = fst (shouldProcessEvent (ConfigFilterScopes (config t)) e0)).
Proof.
  intros Hctx Hdec.
  destruct (GetSafe (bufferdecoder.EventID ctx)) as [def|] eqn:Hdef.
  2:{ unfold decodeEvent in Hdec. rewrite Hctx, Hdef in Hdec.
      discriminate Hdec. }
  rewrite (decodeEvent_known DecodeContext GetSafe ReadArgFromBuff
             t dataRaw ctx d def Hctx Hdef) in Hdec.
  cbv zeta in Hdec.
  pose proof (readArgs_spec ReadArgFromBuff
                (Z.to_nat (bufferdecoder.Argnum ctx)) 0
                (bufferdecoder.EventID ctx) def d [] t) as Hra.
  cbv zeta in Hra. destruct Hra as (Hfr & _).
  destruct (readArgs _ _ _ _ _ _ _ _) as [[args d'] t1] eqn:Hrd.
  cbn [fst snd] in *.
  assert (Hmap1 : StackAddressesMap t1 = StackAddressesMap t)
    by (rewrite Hfr; reflexivity).
  assert (Hfilter : forall sa t2,
             stats t2 = stats t1 ->
             (if bool_decide (bufferdecoder.EventID ctx ∈ eventDerivations t)
              then Some (t2, Some (makeEvent t (normalizeTimes t ctx) def
                                     args sa))
              else if snd (shouldProcessEvent (ConfigFilterScopes (config t))
                             (makeEvent t (normalizeTimes t ctx) def args sa))
                   then Some (t2, Some (fst (shouldProcessEvent
                                               (ConfigFilterScopes (config t))
                                               (makeEvent t
                                                  (normalizeTimes t ctx) def
                                                  args sa))))
                   else Some (incEventsFiltered t2, None))
             = Some (t', Some evt) ->
             t' = t2
             /\ stats t' = stats t1
             /\ (bufferdecoder.EventID ctx ∈ eventDerivations t
                 /\ evt = makeEvent t (normalizeTimes t ctx) def args sa
                 \/ (bufferdecoder.EventID ctx ∉ eventDerivations t)
                    /\ snd (shouldProcessEvent (ConfigFilterScopes (config t))
                              (makeEvent t (normalizeTimes t ctx) def args sa))
                       = true
                    /\ evt = fst (shouldProcessEvent
                                    (ConfigFilterScopes (config t))
                                    (makeEvent t (normalizeTimes t ctx) def
                                       args sa)))).
  { intros sa t2 Hst H. case_bool_decide as Hbase.
    - injection H as <- <-.
      split; [reflexivity|]. split; [exact Hst|]. left. now split.
    - destruct (snd (shouldProcessEvent _ _)) eqn:Hok; [|discriminate H].
      injection H as <- <-.
      split; [reflexivity|]. split; [exact Hst|]. right. now repeat split. }
  exists def. rewrite Hrd. cbn [fst snd].
  destruct (OutStackAddresses (Output (config t))) eqn:Hon.
  - destruct (getStackAddresses t1 (bufferdecoder.StackID ctx))
      as [[sa t2]|] eqn:Hgs; [|discriminate Hdec].
    apply getStackAddresses_facts in Hgs. destruct Hgs as [Ht2 Hsa].
    rewrite Hmap1 in Ht2, Hsa.
    destruct (Hfilter sa t2) as (-> & Hst & Hevt);
      [rewrite Ht2; reflexivity|exact Hdec|].
    exists sa. split; [reflexivity|]. split; [exact Hst|].
    split; [|exact Hevt]. right.
    split; [reflexivity|]. split; [rewrite Ht2; reflexivity|exact Hsa].
  - destruct (Hfilter [] t1) as (-> & Hst & Hevt); [reflexivity|exact Hdec|].
    exists []. split; [reflexivity|]. split; [exact Hst|].
    split; [|exact Hevt]. left. auto.
Qed.

(** X5.  The arguments of an emitted event are the argument reads of its
    record that succeeded: [len(Args)] plus the errors counted while the
    record was decoded is the header's [Argnum], which is also what
    [ArgsNum] holds; when no read of the record failed, [len(Args)] equals
    [Argnum], and a header with [Argnum] = 0 gives an event without
    arguments and without a counted error. *)
Theorem decodeEvent_args_accounting DecodeContext GetSafe ReadArgFromBuff
    t dataRaw ctx d t' evt :
  DecodeContext (bufferdecoder.New dataRaw) = (Ok ctx, d) ->
  decodeEvent DecodeContext GetSafe ReadArgFromBuff t dataRaw
  = Some (t', Some evt) ->
  trace.ArgsNum evt = bufferdecoder.Argnum ctx
  /\ (length (trace.Args evt) + ErrorCount (stats t')
      = ErrorCount (stats t) + Z.to_nat (bufferdecoder.Argnum ctx))%nat
  /\ (ErrorCount (stats t') = ErrorCount (stats t) ->
      length (trace.Args evt) = Z.to_nat (bufferdecoder.Argnum ctx))
  /\ (bufferdecoder.Argnum ctx = 0 ->
      trace.Args evt = [] /\ ErrorCount (stats t') = ErrorCount (stats t)).
Proof.
  intros Hctx Hdec.
  destruct (decodeEvent_emitted_inv _ _ _ _ _ _ _ _ _ Hctx Hdec)
    as (def & sa & _ & Hst & _ & Hevt).
  cbv zeta in Hevt.
  pose proof (readArgs_spec ReadArgFromBuff
                (Z.to_nat (bufferdecoder.Argnum ctx)) 0
                (bufferdecoder.EventID ctx) def d [] t) as Hra.
  cbv zeta in Hra. destruct Hra as (_ & _ & _ & Hlen).
  rewrite <- Hst in Hlen. cbn [length] in Hlen.
  assert (Hargs : trace.Args evt
                  = fst (fst (readArgs ReadArgFromBuff
                                (Z.to_nat (bufferdecoder.Argnum ctx)) 0
                                (bufferdecoder.EventID ctx) def d [] t))
                  /\ trace.ArgsNum evt = bufferdecoder.Argnum ctx).
  { destruct Hevt as [[_ ->] | (_ & _ & ->)]; split; try reflexivity;
      unfold normalizeTimes; now destruct (RelativeTime (Output (config t))). }
  destruct Hargs as [Hargs Hnum]. rewrite <- Hargs in Hlen.
  pose proof (readArgs_mono ReadArgFromBuff
                (Z.to_nat (bufferdecoder.Argnum ctx)) 0
                (bufferdecoder.EventID ctx) def d [] t) as Hmono.
  cbv zeta in Hmono. destruct Hmono as [Hmono _]. rewrite <- Hst in Hmono.
  split; [exact Hnum|]. split; [lia|]. split; [lia|].
  intros Hz. rewrite Hz in Hlen. cbn in Hlen.
  split; [|lia]. destruct (trace.Args evt); [reflexivity|cbn in Hlen; lia].
Qed.

Lemma decodeEvent_args_accounting_witness :
  exists t' evt,
    decodeEvent exampleDecodeContext exampleGetSafe exampleReadArgFromBuff
      (decode_tracee true 1000 0) S5_record = Some (t', Some evt)
    /\ trace.Args evt = [] /\ ErrorCount (stats t') = 0%nat.
Proof.
  destruct (decodeEvent exampleDecodeContext exampleGetSafe
              exampleReadArgFromBuff (decode_tracee true 1000 0) S5_record)
    as [[t' [evt|]]|] eqn:Hdec; try (vm_compute in Hdec; discriminate Hdec).
  exists t', evt. split; [reflexivity|].
  refine (proj2 (proj2 (proj2
            (decodeEvent_args_accounting exampleDecodeContext exampleGetSafe
               exampleReadArgFromBuff (decode_tracee true 1000 0) S5_record
               (exampleContext 59 0 1500)
               {| bufferdecoder.buffer := S5_record;
                  bufferdecoder.cursor := 4 |} t' evt _ Hdec))) _).
  - vm_compute. reflexivity.
  - reflexivity.
Defined.

(** ** The decoder over its input channel *)

(** X6.  In a run that is not cancelled every record is accounted for: it
    yields an event, or it is counted in [EventsFiltered], or at least one
    error is counted for it.  So the events sent plus the growth of
    [EventsFiltered] is at most the number of records, and together with
    the growth of [ErrorCount] it is at least that number.  The decoder
    never moves [EventCount]. *)
Theorem decodeEvents_accounts_for_every_record
    DecodeContext GetSafe ReadArgFromBuff sourceChan :
  forall t t' out,
    decodeEvents DecodeContext GetSafe ReadArgFromBuff t
      (allProceed sourceChan) = Some (t', out) ->
    (length out + EventsFiltered (stats t')
     <= length sourceChan + EventsFiltered (stats t))%nat
    /\ (length sourceChan + EventsFiltered (stats t) + ErrorCount (stats t)
        <= length out + EventsFiltered (stats t') + ErrorCount (stats t'))%nat
    /\ (EventsFiltered (stats t) <= EventsFiltered (stats t'))%nat
    /\ (ErrorCount (stats t) <= ErrorCount (stats t'))%nat
    /\ EventCount (stats t') = EventCount (stats t).
Proof.
  induction sourceChan as [|[dataRaw s] rest IH]; intros t t' out Hrun.
  - injection Hrun as <- <-. cbn [length]. lia.
  - cbn [allProceed map fst decodeEvents] in Hrun.
    destruct (decodeEvent DecodeContext GetSafe ReadArgFromBuff t dataRaw)
      as [[t1 r]|] eqn:Hstep; cbn [mbind option_bind] in Hrun;
      [|discriminate Hrun].
    apply decodeEvent_step in Hstep.
    destruct Hstep as (_ & Hec & Herr & Hr & _).
    destruct r as [evt|].
    + destruct (decodeEvents DecodeContext GetSafe ReadArgFromBuff t1
                  (map (fun p => (fst p, Proceed)) rest))
        as [[t2 out']|] eqn:Hrest; cbn [mbind option_bind] in Hrun;
        [|discriminate Hrun].
      injection Hrun as <- <-.
      specialize (IH t1 t2 out' Hrest). cbn [length]. lia.
    + specialize (IH t1 t' out Hrun). cbn [length]. lia.
Qed.

Lemma decodeEvents_accounts_for_every_record_witness :
  exists t' out,
    decodeEvents exampleDecodeContext exampleGetSafe exampleReadArgFromBuff
      (decode_tracee true 1000 0)
      (allProceed [(truncatedRecord, CtxDone); ([], Proceed);
                   (S5_record, Proceed)])
    = Some (t', out)
    /\ (length out + EventsFiltered (stats t') <= 3 + 0)%nat
    /\ (3 + 0 + 0
        <= length out + EventsFiltered (stats t') + ErrorCount (stats t'))%nat.
Proof.
  destruct (decodeEvents exampleDecodeContext exampleGetSafe
              exampleReadArgFromBuff (decode_tracee true 1000 0)
              (allProceed [(truncatedRecord, CtxDone); ([], Proceed);
                           (S5_record, Proceed)]))
    as [[t' out]|] eqn:Hrun; [|vm_compute in Hrun; discriminate Hrun].
  exists t', out. split; [reflexivity|].
  pose proof (decodeEvents_accounts_for_every_record exampleDecodeContext
                exampleGetSafe exampleReadArgFromBuff
                [(truncatedRecord, CtxDone); ([], Proceed);
                 (S5_record, Proceed)]
                (decode_tracee true 1000 0) t' out Hrun) as H.
  cbn [length decode_tracee stats EventsFiltered ErrorCount] in H.
  split; [exact (proj1 H)|exact (proj1 (proj2 H))].
Defined.

Lemma decodeEvent_total DecodeContext GetSafe ReadArgFromBuff t dataRaw :
  OutStackAddresses (Output (config t)) = false
  \/ map_Forall (fun _ stackBytes => withinMaxDepth stackBytes)
       (StackAddressesMap t) ->
  is_Some (decodeEvent DecodeContext GetSafe ReadArgFromBuff t dataRaw).
Proof.
  intros Hok.
  destruct (DecodeContext (bufferdecoder.New dataRaw)) as [[ctx|err] d] eqn:Hctx.
  2:{ unfold decodeEvent. rewrite Hctx. eauto. }
  destruct (GetSafe (bufferdecoder.EventID ctx)) as [def|] eqn:Hdef.
  2:{ unfold decodeEvent. rewrite Hctx, Hdef. eauto. }
  rewrite (decodeEvent_known DecodeContext GetSafe ReadArgFromBuff
             t dataRaw ctx d def Hctx Hdef). cbv zeta.
  pose proof (readArgs_spec ReadArgFromBuff
                (Z.to_nat (bufferdecoder.Argnum ctx)) 0
                (bufferdecoder.EventID ctx) def d [] t) as Hra.
  cbv zeta in Hra. destruct Hra as (Hfr & _).
  destruct (readArgs _ _ _ _ _ _ _ _) as [[args d'] t1].
  cbn [fst snd] in *.
  assert (Hbody : forall sa t2,
             is_Some
               (if bool_decide (bufferdecoder.EventID ctx ∈ eventDerivations t)
                then Some (t2, Some (makeEvent t (normalizeTimes t ctx) def
                                       args sa))
                else if snd (shouldProcessEvent (ConfigFilterScopes (config t))
                               (makeEvent t (normalizeTimes t ctx) def args sa))
                     then Some (t2, Some (fst (shouldProcessEvent
                                                 (ConfigFilterScopes (config t))
                                                 (makeEvent t
                                                    (normalizeTimes t ctx) def
                                                    args sa))))
                     else Some (incEventsFiltered t2, None))).
  { intros sa t2. destruct (bool_decide _); [eauto|].
    destruct (snd (shouldProcessEvent _ _)); eauto. }
  destruct (OutStackAddresses (Output (config t))) eqn:Hon; [|apply Hbody].
  destruct Hok as [Hoff|Hwf]; [discriminate Hoff|].
  unfold getStackAddresses.
  assert (Hmap1 : StackAddressesMap t1 = StackAddressesMap t)
    by (rewrite Hfr; reflexivity).
  rewrite Hmap1.
  destruct (StackAddressesMap t !! bufferdecoder.StackID ctx)
    as [stackBytes|] eqn:Hlook; [|apply Hbody].
  destruct (stackAddressesOf_total stackBytes (Hwf _ _ Hlook)) as [sa Hsa].
  rewrite Hsa. cbn [mbind option_bind]. apply Hbody.
Qed.

(** X7.  With stack addresses switched off the decoder never reads the
    stack table: it cannot panic on any input, whatever the table holds,
    and the table is the same after the run. *)
Theorem decodeEvents_without_stack_output
    DecodeContext GetSafe ReadArgFromBuff sourceChan :
  forall t,
    OutStackAddresses (Output (config t)) = false ->
    exists t' out,
      decodeEvents DecodeContext GetSafe ReadArgFromBuff t sourceChan
      = Some (t', out)
      /\ StackAddressesMap t' = StackAddressesMap t.
Proof.
  induction sourceChan as [|[dataRaw s] rest IH]; intros t Hoff.
  - exists t, []. now split.
  - cbn [decodeEvents].
    destruct (decodeEvent_total DecodeContext GetSafe ReadArgFromBuff t dataRaw)
      as [[t1 r] Hstep]; [now left|].
    rewrite Hstep. cbn [mbind option_bind].
    apply decodeEvent_step in Hstep.
    destruct Hstep as (Hfr & _ & _ & _ & Hmap).
    assert (Hmap1 : StackAddressesMap t1 = StackAddressesMap t).
    { destruct Hmap as [H|[H _]]; [exact H|].
      rewrite Hoff in H. discriminate H. }
    assert (Hoff1 : OutStackAddresses (Output (config t1)) = false)
      by (rewrite Hfr; exact Hoff).
    destruct (IH t1 Hoff1) as (t2 & out & Hrest & Hmap2).
    rewrite Hrest. cbn [mbind option_bind].
    destruct r as [evt|]; [destruct s|]; eexists _, _;
      (split; [reflexivity|]); congruence.
Qed.

Lemma decodeEvents_without_stack_output_witness :
  exists t' out,
    decodeEvents exampleDecodeContext exampleGetSafe exampleReadArgFromBuff
      (setStackAddressesMap (decode_tracee true 1000 0)
         {[ 0 := S4_stackBytes ]})
      [(S5_record, Proceed)]
    = Some (t', out)
    /\ StackAddressesMap t'
       = StackAddressesMap
           (setStackAddressesMap (decode_tracee true 1000 0)
              {[ 0 := S4_stackBytes ]}).
Proof.
  apply (decodeEvents_without_stack_output exampleDecodeContext
           exampleGetSafe exampleReadArgFromBuff [(S5_record, Proceed)]
           (setStackAddressesMap (decode_tracee true 1000 0)
              {[ 0 := S4_stackBytes ]})).
  reflexivity.
Defined.

(** X8.  With stack addresses switched on the decoder cannot panic as
    long as every entry of the stack table is within the maximal depth
    (at most 20 whole frames, or a zero frame among the first 20); a run
    only ever removes entries from the table, so the table it leaves
    behind is within the maximal depth again. *)
Theorem decodeEvents_total_on_bounded_table
    DecodeContext GetSafe ReadArgFromBuff sourceChan :
  forall t,
    map_Forall (fun _ stackBytes => withinMaxDepth stackBytes)
      (StackAddressesMap t) ->
    exists t' out,
      decodeEvents DecodeContext GetSafe ReadArgFromBuff t sourceChan
      = Some (t', out)
      /\ StackAddressesMap t' ⊆ StackAddressesMap t
      /\ map_Forall (fun _ stackBytes => withinMaxDepth stackBytes)
           (StackAddressesMap t').
Proof.
  induction sourceChan as [|[dataRaw s] rest IH]; intros t Hwf.
  - exists t, []. now repeat split.
  - cbn [decodeEvents].
    destruct (decodeEvent_total DecodeContext GetSafe ReadArgFromBuff t dataRaw)
      as [[t1 r] Hstep]; [now right|].
    rewrite Hstep. cbn [mbind option_bind].
    apply decodeEvent_step in Hstep.
    destruct Hstep as (_ & _ & _ & _ & Hmap).
    assert (Hsub : StackAddressesMap t1 ⊆ StackAddressesMap t).
    { destruct Hmap as [->|[_ [StackID ->]]]; [reflexivity|].
      apply delete_subseteq. }
    assert (Hwf1 : map_Forall (fun _ stackBytes => withinMaxDepth stackBytes)
                     (StackAddressesMap t1))
      by (intros k x Hk; apply (Hwf k x);
          eapply lookup_weaken; eassumption).
    destruct (IH t1 Hwf1) as (t2 & out & Hrest & Hsub2 & Hwf2).
    rewrite Hrest. cbn [mbind option_bind].
    assert (Hsub' : StackAddressesMap t2 ⊆ StackAddressesMap t)
      by (etrans; eassumption).
    destruct r as [evt|]; [destruct s|]; eexists _, _;
      (split; [reflexivity|]); auto.
Qed.

Lemma decodeEvents_total_on_bounded_table_witness :
  exists t' out,
    decodeEvents exampleDecodeContext exampleGetSafe exampleReadArgFromBuff
      stack_tracee [(S5_record, Proceed); (S5_record, Proceed)]
    = Some (t', out)
    /\ StackAddressesMap t' ⊆ StackAddressesMap stack_tracee
    /\ map_Forall (fun _ stackBytes => withinMaxDepth stackBytes)
         (StackAddressesMap t').
Proof.
  apply (decodeEvents_total_on_bounded_table exampleDecodeContext
           exampleGetSafe exampleReadArgFromBuff
           [(S5_record, Proceed); (S5_record, Proceed)] stack_tracee).
  apply map_Forall_singleton. right. exists 2%nat.
  split; [unfold maxStackDepth; lia|reflexivity].
Defined.

Lemma le_uint64_range b : 0 <= le_uint64 b < 256 ^ Z.of_nat (length b).
Proof.
  induction b as [|x b IH]; cbn [le_uint64 fold_right length].
  - cbn. lia.
  - fold (le_uint64 b). rewrite Nat2Z.inj_succ, Z.pow_succ_r by lia.
    pose proof (Byte.to_N_bounded x). lia.
Qed.

Lemma framesOf_range n :
  forall stackBytes,
    (length stackBytes <= n)%nat ->
    Forall (fun a => 0 <= a < 2 ^ 64) (framesOf stackBytes).
Proof.
  induction n as [|n IH]; intros stackBytes Hlen;
    destruct stackBytes
      as [|b0 [|b1 [|b2 [|b3 [|b4 [|b5 [|b6 [|b7 rest]]]]]]]];
    cbn [framesOf]; try constructor; try (cbn in Hlen; lia).
  - exact (le_uint64_range [b0; b1; b2; b3; b4; b5; b6; b7]).
  - apply IH. cbn [length] in Hlen. lia.
Qed.

Lemma untilZero_Forall (P : Z -> Prop) ws :
  Forall P ws -> Forall P (untilZero ws).
Proof.
  induction 1 as [|w ws Hw _ IH]; cbn [untilZero]; [constructor|].
  destruct (w =? 0); constructor; assumption.
Qed.

Lemma stackAddressesOf_addresses stackBytes l :
  stackAddressesOf stackBytes = Some l ->
  (length l <= 20)%nat /\ Forall (fun a => 0 < a < 2 ^ 64) l.
Proof.
  intros H. apply stackAddressesOf_returns in H.
  destruct H as (-> & Hlen & Hnz). split; [exact Hlen|].
  pose proof (untilZero_Forall _ _
                (framesOf_range (length stackBytes) stackBytes (le_n _)))
    as Hrange.
  rewrite Forall_forall in *. intros a Ha.
  specialize (Hnz a Ha). specialize (Hrange a Ha). cbn beta in *. lia.
Qed.

(** X9.  Every event on the decoder's output channel carries at most 20
    stack addresses, each of them a non-zero [uint64]; an event decoded
    while stack addresses are switched off carries none. *)
Theorem decodeEvents_stack_addresses_invariant
    DecodeContext GetSafe ReadArgFromBuff t sourceChan t' out evt :
  decodeEvents DecodeContext GetSafe ReadArgFromBuff t sourceChan
  = Some (t', out) ->
  In evt out ->
  (length (trace.StackAddresses evt) <= 20)%nat
  /\ Forall (fun a => 0 < a < 2 ^ 64) (trace.StackAddresses evt)
  /\ (OutStackAddresses (Output (config t)) = false ->
      trace.StackAddresses evt = []).
Proof.
  intros Hrun Hin.
  assert (Hcfg : forall src t0 t1 out0,
             decodeEvents DecodeContext GetSafe ReadArgFromBuff t0 src
             = Some (t1, out0) ->
             forall e, In e out0 ->
             exists ta dataRaw tb,
               config ta = config t0
               /\ decodeEvent DecodeContext GetSafe ReadArgFromBuff ta dataRaw
                  = Some (tb, Some e)).
  { induction src as [|[dataRaw s] rest IH]; intros t0 t1 out0 Hr e He.
    - injection Hr as <- <-. contradiction.
    - cbn [decodeEvents] in Hr.
      destruct (decodeEvent DecodeContext GetSafe ReadArgFromBuff t0 dataRaw)
        as [[ta r]|] eqn:Hstep; cbn [mbind option_bind] in Hr;
        [|discriminate Hr].
      pose proof (decodeEvent_step _ _ _ _ _ _ _ Hstep) as (Hfr & _).
      assert (Hc : config ta = config t0) by (rewrite Hfr; reflexivity).
      destruct r as [e0|]; [destruct s|].
      + destruct (decodeEvents DecodeContext GetSafe ReadArgFromBuff ta rest)
          as [[tb out']|] eqn:Hrest; cbn [mbind option_bind] in Hr;
          [|discriminate Hr].
        injection Hr as <- <-. destruct He as [<- | He].
        * exists t0, dataRaw, ta. split; [reflexivity|assumption].
        * destruct (IH _ _ _ Hrest e He) as (tc & r & td & Hcc & Hd).
          exists tc, r, td. split; [congruence|assumption].
      + injection Hr as <- <-. contradiction.
      + destruct (IH _ _ _ Hr e He) as (tc & r & td & Hcc & Hd).
        exists tc, r, td. split; [congruence|assumption]. }
  destruct (Hcfg _ _ _ _ Hrun evt Hin) as (ta & dataRaw & tb & Hc & Hdec).
  rewrite <- Hc.
  destruct (DecodeContext (bufferdecoder.New dataRaw)) as [[ctx|err] d] eqn:Hctx.
  2:{ unfold decodeEvent in Hdec. rewrite Hctx in Hdec. discriminate Hdec. }
  destruct (decodeEvent_emitted_inv _ _ _ _ _ _ _ _ _ Hctx Hdec)
    as (def & sa & _ & _ & Hsa & Hevt).
  cbv zeta in Hevt.
  assert (Hstack : trace.StackAddresses evt = sa)
    by (destruct Hevt as [[_ ->] | (_ & _ & ->)]; reflexivity).
  rewrite Hstack.
  destruct Hsa as [(Hoff & -> & _) | (Hon & _ & Hlook)].
  - repeat split; [cbn; lia|constructor].
  - assert (Hall : (length sa <= 20)%nat /\ Forall (fun a => 0 < a < 2 ^ 64) sa).
    { destruct (StackAddressesMap ta !! bufferdecoder.StackID ctx).
      - now apply stackAddressesOf_addresses in Hlook.
      - subst sa. split; [cbn; lia|constructor]. }
    destruct Hall as [Hl Hf]. repeat split; try assumption.
    intros Hoff. rewrite Hon in Hoff. discriminate Hoff.
Qed.

Lemma decodeEvents_stack_addresses_invariant_witness :
  exists t' evt,
    decodeEvents exampleDecodeContext exampleGetSafe exampleReadArgFromBuff
      stack_tracee [(S5_record, Proceed)] = Some (t', [evt])
    /\ trace.StackAddresses evt = [10; 11]
    /\ (length (trace.StackAddresses evt) <= 20)%nat
    /\ Forall (fun a => 0 < a < 2 ^ 64) (trace.StackAddresses evt).
Proof.
  destruct (decodeEvents exampleDecodeContext exampleGetSafe
              exampleReadArgFromBuff stack_tracee [(S5_record, Proceed)])
    as [[t' [|evt [|]]]|] eqn:Hrun;
    try (vm_compute in Hrun; discriminate Hrun).
  exists t', evt. split; [reflexivity|].
  split; [vm_compute in Hrun; now injection Hrun as _ <-|].
  pose proof (decodeEvents_stack_addresses_invariant exampleDecodeContext
                exampleGetSafe exampleReadArgFromBuff stack_tracee
                [(S5_record, Proceed)] t' [evt] evt Hrun
                (or_introl eq_refl)) as H.
  split; [exact (proj1 H)|exact (proj1 (proj2 H))].
Defined.

Lemma makeEvent_MatchedScopes t ctx def args sa :
  trace.MatchedScopes (makeEvent t (normalizeTimes t ctx) def args sa)
  = bufferdecoder.MatchedScopes ctx.
Proof. unfold normalizeTimes. now destruct (RelativeTime _). Qed.

(** X10.  The first-pass filter of the decoder is skipped for an event id
    that is the base of a derivation: such an event is emitted with the
    bitmap the kernel reported, untouched, and is never counted as
    filtered.  An event of any other id is emitted only with a bitmap that
    [computeScopes] left non-zero, and when it is not emitted
    [EventsFiltered] grows by one. *)
Theorem decodeEvent_first_pass_filter
    DecodeContext GetSafe ReadArgFromBuff t dataRaw ctx d def t' r :
  DecodeContext (bufferdecoder.New dataRaw) = (Ok ctx, d) ->
  GetSafe (bufferdecoder.EventID ctx) = Some def ->
  decodeEvent DecodeContext GetSafe ReadArgFromBuff t dataRaw = Some (t', r) ->
  (bufferdecoder.EventID ctx ∈ eventDerivations t ->
   EventsFiltered (stats t') = EventsFiltered (stats t)
   /\ exists evt, r = Some evt
                  /\ trace.MatchedScopes evt = bufferdecoder.MatchedScopes ctx)
  /\ ((bufferdecoder.EventID ctx ∉ eventDerivations t) ->
      match r with
      | Some evt =>
          trace.MatchedScopes evt <> 0
          /\ bits_subset (trace.MatchedScopes evt)
               (bufferdecoder.MatchedScopes ctx)
          /\ EventsFiltered (stats t') = EventsFiltered (stats t)
      | None => EventsFiltered (stats t') = S (EventsFiltered (stats t))
      end).
Proof.
  intros Hctx Hdef Hdec.
  rewrite (decodeEvent_known DecodeContext GetSafe ReadArgFromBuff
             t dataRaw ctx d def Hctx Hdef) in Hdec.
  cbv zeta in Hdec.
  pose proof (readArgs_spec ReadArgFromBuff
                (Z.to_nat (bufferdecoder.Argnum ctx)) 0
                (bufferdecoder.EventID ctx) def d [] t) as Hra.
  cbv zeta in Hra. destruct Hra as (_ & _ & Hef & _).
  destruct (readArgs _ _ _ _ _ _ _ _) as [[args d'] t1].
  cbn [fst snd] in *.
  assert (Hsa : exists sa t2,
             stats t2 = stats t1
             /\ (if bool_decide (bufferdecoder.EventID ctx ∈ eventDerivations t)
                 then Some (t2, Some (makeEvent t (normalizeTimes t ctx) def
                                        args sa))
                 else if snd (shouldProcessEvent (ConfigFilterScopes (config t))
                                (makeEvent t (normalizeTimes t ctx) def args sa))
                      then Some (t2, Some (fst (shouldProcessEvent
                                                  (ConfigFilterScopes (config t))
                                                  (makeEvent t
                                                     (normalizeTimes t ctx) def
                                                     args sa))))
                      else Some (incEventsFiltered t2, None))
                = Some (t', r)).
  { destruct (OutStackAddresses (Output (config t))).
    - destruct (getStackAddresses t1 (bufferdecoder.StackID ctx))
        as [[sa t2]|] eqn:Hgs; [|discriminate Hdec].
      exists sa, t2. split; [|exact Hdec].
      apply getStackAddresses_facts in Hgs. destruct Hgs as [-> _].
      reflexivity.
    - exists [], t1. split; [reflexivity|exact Hdec]. }
  destruct Hsa as (sa & t2 & Hst & Hbody).
  split; intros Hbase.
  - rewrite bool_decide_eq_true_2 in Hbody by assumption.
    injection Hbody as <- <-. split; [now rewrite Hst|].
    eexists. split; [reflexivity|apply makeEvent_MatchedScopes].
  - rewrite bool_decide_eq_false_2 in Hbody by assumption.
    destruct (snd (shouldProcessEvent _ _)) eqn:Hok;
      injection Hbody as <- <-.
    + split; [|split; [|now rewrite Hst]].
      * cbn [shouldProcessEvent snd fst trace.MatchedScopes
               trace.setMatchedScopes] in Hok |- *.
        apply negb_true_iff, Z.eqb_neq in Hok. exact Hok.
      * rewrite <- (makeEvent_MatchedScopes t ctx def args sa).
        apply shouldProcessEvent_subset.
    + cbn [incEventsFiltered setStats stats EventsFiltered].
      now rewrite Hst, Hef.
Qed.

Lemma decodeEvent_first_pass_filter_witness :
  exists t' evt,
    decodeEvent exampleDecodeContext exampleGetSafe exampleReadArgFromBuff
      stack_tracee S5_record = Some (t', Some evt)
    /\ snd (shouldProcessEvent (ConfigFilterScopes (config stack_tracee)) evt)
       = false
    /\ EventsFiltered (stats t') = EventsFiltered (stats stack_tracee)
    /\ trace.MatchedScopes evt = 1.
Proof.
  destruct (decodeEvent exampleDecodeContext exampleGetSafe
              exampleReadArgFromBuff stack_tracee S5_record)
    as [t'r|] eqn:Hdec; [|vm_compute in Hdec; discriminate Hdec].
  destruct t'r as [t' r].
  destruct (proj1 (decodeEvent_first_pass_filter exampleDecodeContext
                     exampleGetSafe exampleReadArgFromBuff stack_tracee
                     S5_record (exampleContext 59 0 1500)
                     {| bufferdecoder.buffer := S5_record;
                        bufferdecoder.cursor := 4 |}
                     {| events.Name := "execve";
                        events.Params :=
                          [{| trace.Name := "arg"; trace.Type_ := "u8" |}] |}
                     t' r eq_refl eq_refl Hdec))
    as (Hf & evt & -> & Hm).
  - vm_compute. reflexivity.
  - exists t', evt. split; [reflexivity|].
    split; [vm_compute in Hdec; injection Hdec as _ <-; reflexivity|].
    split; [exact Hf|exact Hm].
Defined.

Lemma int64_uint64_signed x :
  - 2 ^ 63 <= x < 2 ^ 63 -> GoInt.int64 (GoInt.uint64 x) = x.
Proof.
  intros H. unfold GoInt.int64, GoInt.uint64.
  rewrite Zplus_mod_idemp_l. rewrite Z.mod_small by lia. lia.
Qed.

(** X11.  The timestamps are computed on [uint64] and read back as [int],
    so a difference that is negative comes out as that negative number: in
    relative mode an event whose [Ts] is earlier than the tracer's start
    time gets [Timestamp] = [Ts] - start time, below zero (any value in the
    range of [int] comes out unchanged, in both modes). *)
Theorem decodeEvent_timestamps_are_signed
    DecodeContext GetSafe ReadArgFromBuff t dataRaw ctx d t' evt :
  DecodeContext (bufferdecoder.New dataRaw) = (Ok ctx, d) ->
  decodeEvent DecodeContext GetSafe ReadArgFromBuff t dataRaw
  = Some (t', Some evt) ->
  let ts := if RelativeTime (Output (config t))
            then bufferdecoder.Ts ctx - startTime t
            else bufferdecoder.Ts ctx + bootTime t in
  let st := if RelativeTime (Output (config t))
            then bufferdecoder.StartTime ctx - startTime t
            else bufferdecoder.StartTime ctx + bootTime t in
  (- 2 ^ 63 <= ts < 2 ^ 63 -> trace.Timestamp evt = ts)
  /\ (- 2 ^ 63 <= st < 2 ^ 63 -> trace.ThreadStartTime evt = st).
Proof.
  intros Hctx Hdec.
  destruct (decodeEvent_emitted_inv _ _ _ _ _ _ _ _ _ Hctx Hdec)
    as (def & sa & _ & _ & _ & Hevt).
  cbv zeta in Hevt |- *.
  assert (Hts : trace.Timestamp evt
                = GoInt.int64 (bufferdecoder.Ts (normalizeTimes t ctx))
                /\ trace.ThreadStartTime evt
                   = GoInt.int64
                       (bufferdecoder.StartTime (normalizeTimes t ctx)))
    by (destruct Hevt as [[_ ->] | (_ & _ & ->)]; split; reflexivity).
  destruct Hts as [Hts Hst]. unfold normalizeTimes in Hts, Hst.
  destruct (RelativeTime (Output (config t)));
    cbn [bufferdecoder.Ts bufferdecoder.StartTime bufferdecoder.setTimes]
      in Hts, Hst;
    rewrite Hts, Hst; split; intros H; now apply int64_uint64_signed.
Qed.

Lemma decodeEvent_timestamps_are_signed_witness :
  exists t' evt,
    decodeEvent exampleDecodeContext exampleGetSafe exampleReadArgFromBuff
      stack_tracee S5_record = Some (t', Some evt)
    /\ trace.Timestamp evt = -500.
Proof.
  destruct (decodeEvent exampleDecodeContext exampleGetSafe
              exampleReadArgFromBuff stack_tracee S5_record)
    as [[t' [evt|]]|] eqn:Hdec; try (vm_compute in Hdec; discriminate Hdec).
  exists t', evt. split; [reflexivity|].
  refine (proj1 (decodeEvent_timestamps_are_signed exampleDecodeContext
                   exampleGetSafe exampleReadArgFromBuff stack_tracee
                   S5_record (exampleContext 59 0 1500)
                   {| bufferdecoder.buffer := S5_record;
                      bufferdecoder.cursor := 4 |} t' evt _ Hdec) _).
  - vm_compute. reflexivity.
  - vm_compute. split; [discriminate|reflexivity].
Defined.

(** X12.  Cancellation only cuts the decoder's output short: the events
    sent in a run that is cancelled at some send are a prefix of the events
    the same input gives when it is never cancelled. *)
Theorem decodeEvents_cancellation_truncates
    DecodeContext GetSafe ReadArgFromBuff sourceChan :
  forall t t1 out1 t2 out2,
    decodeEvents DecodeContext GetSafe ReadArgFromBuff t sourceChan
    = Some (t1, out1) ->
    decodeEvents DecodeContext GetSafe ReadArgFromBuff t
      (allProceed sourceChan) = Some (t2, out2) ->
    out1 `prefix_of` out2.
Proof.
  induction sourceChan as [|[dataRaw s] rest IH];
    intros t t1 out1 t2 out2 Hrun Hfull.
  - injection Hrun as <- <-. apply prefix_nil.
  - cbn [allProceed map fst decodeEvents] in Hrun, Hfull.
    destruct (decodeEvent DecodeContext GetSafe ReadArgFromBuff t dataRaw)
      as [[ta r]|]; cbn [mbind option_bind] in Hrun, Hfull;
      [|discriminate Hrun].
    destruct r as [evt|].
    + destruct (decodeEvents DecodeContext GetSafe ReadArgFromBuff ta
                  (map (fun p => (fst p, Proceed)) rest))
        as [[tb outb]|] eqn:Hrest; cbn [mbind option_bind] in Hfull;
        [|discriminate Hfull].
      injection Hfull as <- <-.
      destruct s.
      * destruct (decodeEvents DecodeContext GetSafe ReadArgFromBuff ta rest)
          as [[tc outc]|] eqn:Hcut; cbn [mbind option_bind] in Hrun;
          [|discriminate Hrun].
        injection Hrun as <- <-. apply prefix_cons.
        exact (IH _ _ _ _ _ Hcut Hrest).
      * injection Hrun as <- <-. apply prefix_nil.
    + exact (IH _ _ _ _ _ Hrun Hfull).
Qed.

Lemma decodeEvents_cancellation_truncates_witness :
  exists t1 out1 t2 out2,
    decodeEvents exampleDecodeContext exampleGetSafe exampleReadArgFromBuff
      (decode_tracee true 1000 0)
      [(S5_record, Proceed); (S5_record, CtxDone); (S5_record, Proceed)]
    = Some (t1, out1)
    /\ decodeEvents exampleDecodeContext exampleGetSafe exampleReadArgFromBuff
         (decode_tracee true 1000 0)
         (allProceed
            [(S5_record, Proceed); (S5_record, CtxDone); (S5_record, Proceed)])
       = Some (t2, out2)
    /\ length out1 = 1%nat /\ length out2 = 3%nat
    /\ out1 `prefix_of` out2.
Proof.
  destruct (decodeEvents exampleDecodeContext exampleGetSafe
              exampleReadArgFromBuff (decode_tracee true 1000 0)
              [(S5_record, Proceed); (S5_record, CtxDone);
               (S5_record, Proceed)])
    as [[t1 out1]|] eqn:Hrun; [|vm_compute in Hrun; discriminate Hrun].
  destruct (decodeEvents exampleDecodeContext exampleGetSafe
              exampleReadArgFromBuff (decode_tracee true 1000 0)
              (allProceed [(S5_record, Proceed); (S5_record, CtxDone);
                           (S5_record, Proceed)]))
    as [[t2 out2]|] eqn:Hfull; [|vm_compute in Hfull; discriminate Hfull].
  exists t1, out1, t2, out2. split; [reflexivity|]. split; [reflexivity|].
  split; [vm_compute in Hrun; injection Hrun as _ <-; reflexivity|].
  split; [vm_compute in Hfull; injection Hfull as _ <-; reflexivity|].
  exact (decodeEvents_cancellation_truncates exampleDecodeContext
           exampleGetSafe exampleReadArgFromBuff _ _ _ _ _ _ Hrun Hfull).
Defined.

(** ** Names and header fields of a decoded event *)

Lemma trimRightNul_spec b :
  exists k,
    b = trimRightNul b ++ replicate k Byte.x00
    /\ last (trimRightNul b) <> Some Byte.x00.
Proof.
  induction b as [|x b (k & Hb & Hlast)]; cbn [trimRightNul].
  - exists 0%nat. split; [reflexivity|discriminate].
  - destruct (trimRightNul b) as [|y rest] eqn:Htrim.
    + cbn [app] in Hb. destruct (Byte.eqb x Byte.x00) eqn:Ex.
      * apply Byte.byte_dec_bl in Ex. subst x.
        exists (S k). split; [now rewrite Hb|discriminate].
      * apply Byte.eqb_false in Ex.
        exists k. split; [now rewrite Hb|]. cbn. congruence.
    + exists k. split; [now rewrite Hb at 1|].
      now rewrite last_cons_cons.
Qed.

(** X13.  The process name and the host name of an emitted event are the
    header's [Comm] and [UtsName] with the NUL padding at the end removed
    and nothing else: the header bytes are the name followed by NUL bytes
    only, and the name does not end in a NUL byte (a NUL byte inside the
    name stays). *)
Theorem decodeEvent_names_are_trimmed
    DecodeContext GetSafe ReadArgFromBuff t dataRaw ctx d t' evt :
  DecodeContext (bufferdecoder.New dataRaw) = (Ok ctx, d) ->
  decodeEvent DecodeContext GetSafe ReadArgFromBuff t dataRaw
  = Some (t', Some evt) ->
  (exists k,
      bufferdecoder.Comm ctx
      = list_byte_of_string (trace.ProcessName evt) ++ replicate k Byte.x00
      /\ last (list_byte_of_string (trace.ProcessName evt)) <> Some Byte.x00)
  /\ (exists k,
         bufferdecoder.UtsName ctx
         = list_byte_of_string (trace.HostName evt) ++ replicate k Byte.x00
         /\ last (list_byte_of_string (trace.HostName evt)) <> Some Byte.x00).
Proof.
  intros Hctx Hdec.
  destruct (decodeEvent_emitted_inv _ _ _ _ _ _ _ _ _ Hctx Hdec)
    as (def & sa & _ & _ & _ & Hevt).
  cbv zeta in Hevt.
  assert (Hnames : trace.ProcessName evt
                   = string_of_list_byte (trimRightNul (bufferdecoder.Comm ctx))
                   /\ trace.HostName evt
                      = string_of_list_byte
                          (trimRightNul (bufferdecoder.UtsName ctx))).
  { destruct Hevt as [[_ ->] | (_ & _ & ->)]; split;
      cbn [shouldProcessEvent fst trace.setMatchedScopes trace.ProcessName
             trace.HostName makeEvent];
      unfold normalizeTimes; now destruct (RelativeTime _). }
  destruct Hnames as [-> ->].
  rewrite !list_byte_of_string_of_list_byte.
  split; apply trimRightNul_spec.
Qed.

Lemma decodeEvent_names_are_trimmed_witness :
  exists t' evt,
    decodeEvent paddedDecodeContext exampleGetSafe exampleReadArgFromBuff
      (decode_tracee true 1000 0) [] = Some (t', Some evt)
    /\ trace.ProcessName evt = "sh"%string
    /\ list_byte_of_string (trace.HostName evt)
       = [Byte.x61; Byte.x00; Byte.x62]
    /\ exists k,
         bufferdecoder.Comm paddedContext
         = list_byte_of_string (trace.ProcessName evt)
           ++ replicate k Byte.x00
         /\ last (list_byte_of_string (trace.ProcessName evt))
            <> Some Byte.x00.
Proof.
  destruct (decodeEvent paddedDecodeContext exampleGetSafe
              exampleReadArgFromBuff (decode_tracee true 1000 0) [])
    as [[t' [evt|]]|] eqn:Hdec; try (vm_compute in Hdec; discriminate Hdec).
  exists t', evt. split; [reflexivity|].
  split; [vm_compute in Hdec; injection Hdec as _ <-; reflexivity|].
  split; [vm_compute in Hdec; injection Hdec as _ <-; reflexivity|].
  exact (proj1 (decodeEvent_names_are_trimmed paddedDecodeContext
                  exampleGetSafe exampleReadArgFromBuff
                  (decode_tracee true 1000 0) [] paddedContext
                  (bufferdecoder.New []) t' evt eq_refl Hdec)).
Defined.

(** X14.  Apart from the two timestamps, the names and the scope bitmap,
    an emitted event carries the header unchanged: the ids of process,
    thread and parent (in the namespace and on the host), the user id, the
    namespaces, the cgroup id, the event id and the return value are the
    header's, whether or not the first-pass filter ran; the event name is
    the one of the definition found for the event id; the container and pod
    fields, all seven of them, are those the container registry holds for
    the header's cgroup id. *)
Theorem decodeEvent_carries_header
    DecodeContext GetSafe ReadArgFromBuff t dataRaw ctx d t' evt :
  DecodeContext (bufferdecoder.New dataRaw) = (Ok ctx, d) ->
  decodeEvent DecodeContext GetSafe ReadArgFromBuff t dataRaw
  = Some (t', Some evt) ->
  trace.ProcessorID evt = bufferdecoder.ProcessorId ctx
  /\ trace.ProcessID evt = bufferdecoder.Pid ctx
  /\ trace.ThreadID evt = bufferdecoder.Tid ctx
  /\ trace.ParentProcessID evt = bufferdecoder.Ppid ctx
  /\ trace.HostProcessID evt = bufferdecoder.HostPid ctx
  /\ trace.HostThreadID evt = bufferdecoder.HostTid ctx
  /\ trace.HostParentProcessID evt = bufferdecoder.HostPpid ctx
  /\ trace.UserID evt = bufferdecoder.Uid ctx
  /\ trace.MountNS evt = bufferdecoder.MntID ctx
  /\ trace.PIDNS evt = bufferdecoder.PidID ctx
  /\ trace.CgroupID evt = bufferdecoder.CgroupID ctx
  /\ trace.EventID evt = bufferdecoder.EventID ctx
  /\ trace.ReturnValue evt = bufferdecoder.Retval ctx
  /\ trace.Flags evt = parseContextFlags (bufferdecoder.Flags ctx)
  /\ (exists def, GetSafe (bufferdecoder.EventID ctx) = Some def
                  /\ trace.EventName evt = events.Name def)
  /\ trace.ContainerID evt
     = containers.ContainerId (tcontainers t (bufferdecoder.CgroupID ctx))
  /\ trace.ContainerImage evt
     = containers.Image (tcontainers t (bufferdecoder.CgroupID ctx))
  /\ trace.ContainerName evt
     = containers.Name (tcontainers t (bufferdecoder.CgroupID ctx))
  /\ trace.PodName evt
     = containers.PodName
         (containers.ContainerPod
            (tcontainers t (bufferdecoder.CgroupID ctx)))
  /\ trace.PodNamespace evt
     = containers.Namespace
         (containers.ContainerPod
            (tcontainers t (bufferdecoder.CgroupID ctx)))
  /\ trace.PodUID evt
     = containers.UID
         (containers.ContainerPod
            (tcontainers t (bufferdecoder.CgroupID ctx)))
  /\ trace.PodSandbox evt
     = containers.Sandbox
         (containers.ContainerPod
            (tcontainers t (bufferdecoder.CgroupID ctx))).
Proof.
  intros Hctx Hdec.
  destruct (decodeEvent_emitted_inv _ _ _ _ _ _ _ _ _ Hctx Hdec)
    as (def & sa & Hdef & _ & _ & Hevt).
  cbv zeta in Hevt.
  assert (Hnt : forall ctx0,
             normalizeTimes t ctx0
             = bufferdecoder.setTimes ctx0
                 (bufferdecoder.Ts (normalizeTimes t ctx0))
                 (bufferdecoder.StartTime (normalizeTimes t ctx0)))
    by (intros ctx0; unfold normalizeTimes; now destruct (RelativeTime _)).
  rewrite Hnt in Hevt.
  destruct Hevt as [[_ ->] | (_ & _ & ->)];
    (repeat (split; [reflexivity|]));
    (split; [exists def; split; [exact Hdef|reflexivity]|]);
    repeat split.
Qed.

Lemma decodeEvent_carries_header_witness :
  exists t' evt,
    decodeEvent paddedDecodeContext exampleGetSafe exampleReadArgFromBuff
      (decode_tracee true 1000 0) [] = Some (t', Some evt)
    /\ trace.HostProcessID evt = 150
    /\ trace.EventID evt = 59.
Proof.
  destruct (decodeEvent paddedDecodeContext exampleGetSafe
              exampleReadArgFromBuff (decode_tracee true 1000 0) [])
    as [[t' [evt|]]|] eqn:Hdec; try (vm_compute in Hdec; discriminate Hdec).
  exists t', evt. split; [reflexivity|].
  pose proof (decodeEvent_carries_header paddedDecodeContext exampleGetSafe
                exampleReadArgFromBuff (decode_tracee true 1000 0) []
                paddedContext (bufferdecoder.New []) t' evt eq_refl Hdec)
    as H.
  split; [exact (proj1 (proj2 (proj2 (proj2 (proj2 H)))))|].
  exact (proj1 (proj2 (proj2 (proj2 (proj2 (proj2 (proj2 (proj2 (proj2
           (proj2 (proj2 (proj2 H)))))))))))).
Defined.

(** X15.  [parseContextFlags] reads bit 0 of the flags word as
    container-started and bit 1 as is-compat, and nothing else: the other
    bits of the word do not matter. *)
Theorem parseContextFlags_reads_two_bits flags :
  parseContextFlags flags
  = {| trace.ContainerStarted := Z.testbit flags 0;
       trace.IsCompat := Z.testbit flags 1 |}
  /\ parseContextFlags (Z.land flags 3) = parseContextFlags flags.
Proof.
  assert (Hbits : forall f,
             parseContextFlags f
             = {| trace.ContainerStarted := Z.testbit f 0;
                  trace.IsCompat := Z.testbit f 1 |}).
  { intros f. unfold parseContextFlags.
    pose proof (HasBit_spec f 0 ltac:(lia)) as H0.
    pose proof (HasBit_spec f 1 ltac:(lia)) as H1.
    unfold utils.HasBit in H0, H1.
    change (GoInt.bit64 0) with 1 in H0. change (GoInt.bit64 1) with 2 in H1.
    change (0 <? 64) with true in H0. change (1 <? 64) with true in H1.
    rewrite andb_true_r in H0, H1.
    assert (Hn0 : 0 <= Z.land f 1) by (apply Z.land_nonneg; right; lia).
    assert (Hn1 : 0 <= Z.land f 2) by (apply Z.land_nonneg; right; lia).
    f_equal.
    - rewrite <- H0. destruct (Z.land f 1 =? 0) eqn:E; cbn [negb]; symmetry.
      + apply Z.eqb_eq in E. rewrite E. reflexivity.
      + apply Z.eqb_neq in E. apply Z.ltb_lt. lia.
    - rewrite <- H1. destruct (Z.land f 2 =? 0) eqn:E; cbn [negb]; symmetry.
      + apply Z.eqb_eq in E. rewrite E. reflexivity.
      + apply Z.eqb_neq in E. apply Z.ltb_lt. lia. }
  split; [apply Hbits|].
  rewrite !Hbits, !Z.land_spec. change (Z.testbit 3 0) with true.
  change (Z.testbit 3 1) with true. now rewrite !andb_true_r.
Qed.

(** ** getStackAddresses and the stack table *)

(** X16.  The source discards the error of [DeleteKey].  Whether the
    delete succeeds or not, [getStackAddresses] returns the same addresses,
    leaves every other stack id with its entry and changes nothing but the
    table.  When the delete succeeds the id is gone and a later call for it
    returns the empty sequence; when it fails the table is as it was and a
    later call returns the same addresses again. *)
Theorem getStackAddresses_delete_outcome deleted t StackID l t' :
  getStackAddressesWith deleted t StackID = Some (l, t') ->
  (forall b, exists t'', getStackAddressesWith b t StackID = Some (l, t''))
  /\ getStackAddresses t StackID
     = Some (l, setStackAddressesMap t (delete StackID (StackAddressesMap t)))
  /\ (forall other, other <> StackID ->
        StackAddressesMap t' !! other = StackAddressesMap t !! other)
  /\ t' = setStackAddressesMap t (StackAddressesMap t')
  /\ (deleted = true ->
      StackAddressesMap t' !! StackID = None
      /\ forall b, getStackAddressesWith b t' StackID = Some ([], t'))
  /\ (deleted = false ->
      t' = t
      /\ forall b, exists t'',
           getStackAddressesWith b t' StackID = Some (l, t'')).
Proof.
  unfold getStackAddressesWith, getStackAddresses.
  destruct (StackAddressesMap t !! StackID) as [stackBytes|] eqn:Hlook.
  - destruct (stackAddressesOf stackBytes) as [sa|] eqn:Hsa;
      cbn [mbind option_bind]; [|discriminate].
    intros [= <- <-].
    split; [intros b; eauto|].
    split; [reflexivity|].
    split.
    { intros other Hne. destruct deleted; [|reflexivity].
      cbn [StackAddressesMap setStackAddressesMap].
      now apply lookup_delete_ne. }
    split; [destruct deleted; [reflexivity|now destruct t]|].
    split; intros ->.
    + cbn [StackAddressesMap setStackAddressesMap].
      rewrite lookup_delete_eq. auto.
    + split; [reflexivity|]. intros b. rewrite Hlook, Hsa.
      cbn [mbind option_bind]. eauto.
  - intros [= <- <-].
    split; [intros b; eauto|].
    split; [rewrite delete_id by assumption; now destruct t|].
    split; [reflexivity|].
    split; [now destruct t|].
    split; intros _; rewrite Hlook; [auto|].
    split; [reflexivity|]. intros b. eauto.
Qed.

Lemma getStackAddresses_delete_outcome_witness :
  getStackAddressesWith false stack_tracee 0 = Some ([10; 11], stack_tracee)
  /\ exists t'',
       getStackAddressesWith true stack_tracee 0 = Some ([10; 11], t'').
Proof.
  assert (H : getStackAddressesWith false stack_tracee 0
              = Some ([10; 11], stack_tracee))
    by (vm_compute; reflexivity).
  split; [exact H|].
  exact (proj1 (getStackAddresses_delete_outcome false stack_tracee 0
                  [10; 11] stack_tracee H) true).
Defined.

(** ** processEvents *)

Lemma fold_handleError errs t :
  fold_left handleError errs t
  = setStats t {| EventCount := EventCount (stats t);
                  EventsFiltered := EventsFiltered (stats t);
                  ErrorCount := (ErrorCount (stats t) + length errs)%nat |}.
Proof.
  revert t. induction errs as [|err errs IH]; intros t; cbn [fold_left length].
  - rewrite Nat.add_0_r. now destruct t as [? ? ? ? ? ? ? []].
  - rewrite IH. cbn [handleError setStats stats EventCount EventsFiltered
                       ErrorCount].
    do 2 f_equal. lia.
Qed.

(** X17.  An event whose side effects report errors is not forwarded,
    whatever its scopes and its container id: each reported error is
    counted once in [ErrorCount], and nothing else of the tracer state the
    side effects left is changed. *)
Theorem processEvents_drops_on_side_effect_errors
    (processEvent : Tracee -> trace.Event -> Tracee * trace.Event * list error)
    (CgroupMkdir CgroupRmdir : Z) (t t1 : Tracee) (event event1 : trace.Event)
    (errs : list error) :
  processEvent t event = (t1, event1, errs) ->
  errs <> [] ->
  processEventsStep processEvent CgroupMkdir CgroupRmdir t event
  = (setStats t1
       {| EventCount := EventCount (stats t1);
          EventsFiltered := EventsFiltered (stats t1);
          ErrorCount := (ErrorCount (stats t1) + length errs)%nat |},
     None).
Proof.
  intros Hpe Hne. unfold processEventsStep. rewrite Hpe.
  destruct errs as [|err errs]; [contradiction|].
  cbn [length Nat.ltb Nat.leb]. now rewrite fold_handleError.
Qed.

Lemma processEvents_drops_on_side_effect_errors_witness :
  processEventsStep failingSideEffects 20 21 S2_tracee S1_event
  = (setStats S2_tracee
       {| EventCount := 0; EventsFiltered := 0; ErrorCount := 2 |},
     None).
Proof.
  apply (processEvents_drops_on_side_effect_errors failingSideEffects 20 21
           S2_tracee S2_tracee S1_event S1_event
           [ErrOther "cgroup"; ErrOther "fd"]).
  - reflexivity.
  - discriminate.
Defined.

(** X18.  The container-filter correction counts nothing: for an event
    whose side effects report no error the tracer state after the step is
    the one the side effects left, also when the event is dropped as a
    false container positive.  An event that has a container id, or that
    is processed while no scope has a container filter, is forwarded as the
    side effects left it, even with an empty scope bitmap. *)
Theorem processEvents_correction_is_silent
    (processEvent : Tracee -> trace.Event -> Tracee * trace.Event * list error)
    (CgroupMkdir CgroupRmdir : Z) (t t1 : Tracee) (event event1 : trace.Event) :
  processEvent t event = (t1, event1, []) ->
  fst (processEventsStep processEvent CgroupMkdir CgroupRmdir t event) = t1
  /\ (ContainerFilterEnabled (ConfigFilterScopes (config t1)) = 0
      \/ trace.ContainerID event1 <> EmptyString ->
      processEventsStep processEvent CgroupMkdir CgroupRmdir t event
      = (t1, Some event1)).
Proof.
  intros Hpe. unfold processEventsStep. rewrite Hpe.
  cbn [length Nat.ltb Nat.leb]. split.
  - repeat match goal with
           | |- context [if ?b then _ else _] => destruct b
           end; reflexivity.
  - intros [Hz | Hcid].
    + rewrite Hz. reflexivity.
    + rewrite bool_decide_eq_false_2 by assumption.
      now rewrite andb_false_r.
Qed.

Lemma processEvents_correction_is_silent_witness :
  processEventsStep noSideEffects 20 21 S2_tracee
    (sampleEvent 59 150 0 "c0ffee")
  = (S2_tracee, Some (sampleEvent 59 150 0 "c0ffee")).
Proof.
  apply (proj2 (processEvents_correction_is_silent noSideEffects 20 21
                  S2_tracee S2_tracee (sampleEvent 59 150 0 "c0ffee")
                  (sampleEvent 59 150 0 "c0ffee") eq_refl)).
  right. discriminate.
Defined.

(** ** deriveEvents *)

Lemma omap_filter_length {A B} (f : A -> option B) (g : A -> bool)
    (l : list A) :
  (forall x, g x = true <-> f x = None) ->
  (length (omap f l) + length (List.filter g l) = length l)%nat.
Proof.
  intros Hfg. induction l as [|x l IH]; [reflexivity|].
  cbn [omap list_omap List.filter].
  destruct (f x) as [y|] eqn:Hf, (g x) eqn:Hg; cbn [length].
  - apply Hfg in Hg. congruence.
  - lia.
  - lia.
  - apply Hfg in Hf. congruence.
Qed.

(** X19.  For one received event the deriver sends the event itself first
    and unchanged, and after it exactly the surviving derivatives, in the
    order the registry returned them: a derivative with an exempt id as it
    is, any other derivative as [shouldProcessEvent] leaves it when that
    returns [true].  Each derivative that does not survive is counted in
    [EventsFiltered], each error the registry returned is counted in
    [ErrorCount], and [EventCount] is not touched. *)
Theorem deriveEventsStep_accounting
    (DeriveEvent : Tracee -> trace.Event -> list trace.Event * list error)
    (SymbolsLoaded SharedObjectLoaded PrintMemDump : Z)
    (t : Tracee) (event : trace.Event) :
  let r := deriveEventsStep DeriveEvent SymbolsLoaded SharedObjectLoaded
             PrintMemDump t event in
  let derivatives := fst (DeriveEvent t event) in
  let scopes := ConfigFilterScopes (config t) in
  snd r
  = event :: omap (derivativeOut SymbolsLoaded SharedObjectLoaded PrintMemDump
                     scopes) derivatives
  /\ EventsFiltered (stats (fst r))
     = (EventsFiltered (stats t)
        + length (List.filter
                    (derivativeRejected SymbolsLoaded SharedObjectLoaded
                       PrintMemDump scopes) derivatives))%nat
  /\ (length (snd r) + EventsFiltered (stats (fst r))
      = 1 + length derivatives + EventsFiltered (stats t))%nat
  /\ ErrorCount (stats (fst r))
     = (ErrorCount (stats t) + length (snd (DeriveEvent t event)))%nat
  /\ EventCount (stats (fst r)) = EventCount (stats t).
Proof.
  cbv zeta. unfold deriveEventsStep.
  destruct (DeriveEvent t event) as [derivatives errors]. cbn [fst snd].
  pose proof (deriveLoop_spec SymbolsLoaded SharedObjectLoaded PrintMemDump
                derivatives (fold_left handleError errors t)) as Hloop.
  cbv zeta in Hloop. destruct Hloop as (Ho & Hf & Hc & He & _).
  destruct (deriveLoop _ _ _ _ derivatives) as [t' out].
  cbn [fst snd] in *.
  rewrite Hf, Hc, He, Ho, !fold_handleError.
  cbn [setStats stats config EventCount EventsFiltered ErrorCount length].
  split; [reflexivity|]. split; [reflexivity|].
  split; [|split; reflexivity].
  pose proof (omap_filter_length
                (derivativeOut SymbolsLoaded SharedObjectLoaded PrintMemDump
                   (ConfigFilterScopes (config t)))
                (derivativeRejected SymbolsLoaded SharedObjectLoaded
                   PrintMemDump (ConfigFilterScopes (config t)))
                derivatives) as Hlen.
  rewrite <- Hlen; [lia|].
  intros d. unfold derivativeOut, derivativeRejected.
  destruct (exemptID _ _ _ _), (snd (shouldProcessEvent _ d)); cbn;
    split; congruence.
Qed.

(** X20.  The deriver never drops or reorders what it receives: in a run
    that is not cancelled the received events occur in the output in the
    order they arrived (with the derivatives in between). *)
Theorem deriveEvents_keeps_every_input
    (DeriveEvent : Tracee -> trace.Event -> list trace.Event * list error)
    (SymbolsLoaded SharedObjectLoaded PrintMemDump : Z)
    (in_ : list (trace.Event * sel)) (t : Tracee) :
  map fst in_
  `sublist_of`
  snd (deriveEvents DeriveEvent SymbolsLoaded SharedObjectLoaded PrintMemDump
         t (allProceed in_)).
Proof.
  revert t. induction in_ as [|[event s] rest IH]; intros t;
    cbn [allProceed map fst deriveEvents].
  - cbn. constructor.
  - destruct (deriveEventsStep_original_first DeriveEvent SymbolsLoaded
                SharedObjectLoaded PrintMemDump t event) as (out & Hout).
    destruct (deriveEventsStep _ _ _ _ t event) as [t1 out1].
    cbn [snd] in Hout. subst out1.
    specialize (IH t1). unfold allProceed in IH.
    destruct (deriveEvents _ _ _ _ t1 _) as [t2 out2]. cbn [snd] in *.
    cbn [app]. apply sublist_skip. now apply sublist_inserts_l.
Qed.

(** ** sinkEvents *)

(** X21.  An event whose id has no entry in [t.events] is dropped by the
    sink without a trace: nothing is parsed, nothing is sent, no counter
    moves.  With the rule engine enabled, an event that is sent is the
    received event with its bitmap cut down to the emit mask of its id, and
    that bitmap is not zero. *)
Theorem sinkEvent_applies_emit_mask
    (ParseArgs : trace.Event -> trace.Event * option error)
    (ParseArgsFDs : Tracee -> trace.Event -> trace.Event * option error)
    (t : Tracee) (event : trace.Event) (s : sel) :
  (tevents t !! trace.EventID event = None ->
   sinkEvent ParseArgs ParseArgsFDs t event s = (t, [], true))
  /\ (EngineEnabled (config t) = true ->
      forall e',
        In (SendChanEvents e')
          (snd (fst (sinkEvent ParseArgs ParseArgsFDs t event s))) ->
        e' = trace.setMatchedScopes event
               (Z.land (trace.MatchedScopes event)
                  (emitMask t (trace.EventID event)))
        /\ trace.MatchedScopes e' <> 0
        /\ bits_subset (trace.MatchedScopes e')
             (emitMask t (trace.EventID event))).
Proof.
  split.
  - intros Hnone. unfold sinkEvent, emitMask. rewrite Hnone.
    cbn [trace.MatchedScopes trace.setMatchedScopes].
    now rewrite Z.land_0_r.
  - intros Hen e'. unfold sinkEvent.
    cbn [trace.MatchedScopes trace.setMatchedScopes].
    destruct (Z.land _ _ =? 0) eqn:Hz; [contradiction|].
    rewrite Hen. cbn [negb].
    destruct s; cbn [fst snd app In]; intros H;
      repeat destruct H as [H|H]; try contradiction.
    injection H as <-.
    cbn [trace.MatchedScopes trace.setMatchedScopes].
    split; [reflexivity|]. split; [now apply Z.eqb_neq|].
    intros i _ Hi. rewrite Z.land_spec in Hi.
    apply andb_true_iff in Hi. tauto.
Qed.

Lemma sinkEvent_applies_emit_mask_witness :
  sinkEvent noParseArgs noParseArgsFDs sink_tracee
    (sampleEvent 60 150 (Z.shiftl 1 59) EmptyString) Proceed
  = (sink_tracee, [], true).
Proof.
  apply (proj1 (sinkEvent_applies_emit_mask noParseArgs noParseArgsFDs
                  sink_tracee
                  (sampleEvent 60 150 (Z.shiftl 1 59) EmptyString) Proceed)).
  reflexivity.
Defined.

Lemma sinkEvent_cancelled ParseArgs ParseArgsFDs t event :
  sentEvents (snd (fst (sinkEvent ParseArgs ParseArgsFDs t event CtxDone))) = []
  /\ (snd (sinkEvent ParseArgs ParseArgsFDs t event CtxDone) = true ->
      sinkEvent ParseArgs ParseArgsFDs t event CtxDone
      = sinkEvent ParseArgs ParseArgsFDs t event Proceed).
Proof.
  unfold sinkEvent.
  destruct (trace.MatchedScopes _ =? 0); [now split|].
  destruct (negb (EngineEnabled (config t)));
    [destruct (parseArguments _ _ _ _) as [e' [err|]]|];
    cbn [fst snd sentEvents omap list_omap]; split;
    first [reflexivity | discriminate].
Qed.

(** X22.  After cancellation the sink sends nothing more: the events sent
    in a run that is cancelled at some send are a prefix of the events the
    same input gives when it is never cancelled. *)
Theorem sinkEvents_cancellation_truncates
    (ParseArgs : trace.Event -> trace.Event * option error)
    (ParseArgsFDs : Tracee -> trace.Event -> trace.Event * option error)
    (in_ : list (trace.Event * sel)) (t : Tracee) :
  sentEvents (snd (sinkEvents ParseArgs ParseArgsFDs t in_))
  `prefix_of`
  sentEvents (snd (sinkEvents ParseArgs ParseArgsFDs t (allProceed in_))).
Proof.
  revert t. induction in_ as [|[event s] rest IH]; intros t;
    cbn [allProceed map fst sinkEvents].
  - apply prefix_nil.
  - destruct s.
    + destruct (sinkEvent ParseArgs ParseArgsFDs t event Proceed)
        as [[t1 acts] continue].
      destruct continue; [|reflexivity].
      specialize (IH t1). unfold allProceed in IH.
      destruct (sinkEvents ParseArgs ParseArgsFDs t1 rest) as [t2 acts2].
      destruct (sinkEvents ParseArgs ParseArgsFDs t1 (map _ rest))
        as [t3 acts3].
      cbn [snd] in *. unfold sentEvents in *. rewrite !omap_app.
      now apply prefix_app.
    + destruct (sinkEvent_cancelled ParseArgs ParseArgsFDs t event)
        as [Hnone Hsame].
      destruct (sinkEvent ParseArgs ParseArgsFDs t event CtxDone)
        as [[t1 acts] continue] eqn:Hcut.
      cbn [fst snd] in Hnone, Hsame. destruct continue.
      * rewrite <- (Hsame eq_refl).
        specialize (IH t1). unfold allProceed in IH.
        destruct (sinkEvents ParseArgs ParseArgsFDs t1 rest) as [t2 acts2].
        destruct (sinkEvents ParseArgs ParseArgsFDs t1 (map _ rest))
          as [t3 acts3].
        cbn [snd] in *. unfold sentEvents in *. rewrite !omap_app.
        now apply prefix_app.
      * cbn [snd]. rewrite Hnone. apply prefix_nil.
Qed.

(** X23.  With argument parsing switched off in the output configuration
    and the rule engine disabled, the sink sends every surviving event as
    it received it, apart from the masked bitmap, and counts no error,
    whatever the argument parsers of the events package would do. *)
Theorem sinkEvent_without_argument_parsing
    (ParseArgs : trace.Event -> trace.Event * option error)
    (ParseArgsFDs : Tracee -> trace.Event -> trace.Event * option error)
    (t : Tracee) (event : trace.Event) :
  ParseArguments (Output (config t)) = false ->
  EngineEnabled (config t) = false ->
  Z.land (trace.MatchedScopes event) (emitMask t (trace.EventID event)) <> 0 ->
  let masked := trace.setMatchedScopes event
                  (Z.land (trace.MatchedScopes event)
                     (emitMask t (trace.EventID event))) in
  sinkEvent ParseArgs ParseArgsFDs t event Proceed
  = (incEventCount t, [CallParseArguments masked; SendChanEvents masked], true).
Proof.
  intros Hpa Hen Hm. cbv zeta. unfold sinkEvent, parseArguments.
  cbn [trace.MatchedScopes trace.setMatchedScopes].
  apply Z.eqb_neq in Hm. now rewrite Hm, Hen, Hpa.
Qed.

Lemma sinkEvent_without_argument_parsing_witness :
  sinkEvent (fun e => (e, Some (ErrOther "parse")))
    (fun _ e => (e, Some (ErrOther "fd"))) sink_tracee
    (sampleEvent 59 150 (Z.lor (Z.shiftl 1 30) (Z.shiftl 1 59)) EmptyString)
    Proceed
  = (incEventCount sink_tracee,
     [CallParseArguments (sampleEvent 59 150 (Z.shiftl 1 59) EmptyString);
      SendChanEvents (sampleEvent 59 150 (Z.shiftl 1 59) EmptyString)],
     true).
Proof.
  apply (sinkEvent_without_argument_parsing
           (fun e => (e, Some (ErrOther "parse")))
           (fun _ e => (e, Some (ErrOther "fd"))) sink_tracee
           (sampleEvent 59 150 (Z.lor (Z.shiftl 1 30) (Z.shiftl 1 59))
              EmptyString)).
  - reflexivity.
  - reflexivity.
  - vm_compute. discriminate.
Defined.

(** ** When shouldProcessEvent keeps an event *)

(** X24.  On a [uint64] bitmap, [shouldProcessEvent] keeps the event
    exactly when some bit the kernel set survives, that is, when every
    configured scope of that bit accepts the event.  In particular a bit
    that no configured scope owns keeps the event, whatever the scopes
    say about the other bits. *)
Theorem shouldProcessEvent_keeps_iff scopes e :
  0 <= trace.MatchedScopes e < 2 ^ 64 ->
  (snd (shouldProcessEvent scopes e) = true <->
   exists i, 0 <= i < 64
             /\ Z.testbit (trace.MatchedScopes e) i = true
             /\ forall s, In s scopes -> bitOffset s = i ->
                          scopeAccepts s e = true).
Proof.
  intros Horig.
  pose proof (fold_computeScopes_range e (trace.MatchedScopes e) scopes
                (trace.MatchedScopes e) (proj1 Horig)) as Hr.
  fold (computeScopes scopes e) in Hr.
  cbn [shouldProcessEvent snd trace.MatchedScopes trace.setMatchedScopes].
  rewrite negb_true_iff, Z.eqb_neq.
  assert (Hbit : forall i, 0 <= i < 64 ->
             (Z.testbit (computeScopes scopes e) i = true <->
              Z.testbit (trace.MatchedScopes e) i = true
              /\ forall s, In s scopes -> bitOffset s = i ->
                           scopeAccepts s e = true)).
  { intros i [Hi Hlt]. rewrite computeScopes_testbit by assumption.
    rewrite andb_true_iff, forallb_forall.
    split; intros [Ho Hall]; (split; [exact Ho|]).
    - intros s Hin Hoff. specialize (Hall s Hin).
      rewrite <- Hoff, Z.eqb_refl in Hall. exact Hall.
    - intros s Hin. destruct (i =? bitOffset s) eqn:E; [|reflexivity].
      apply Z.eqb_eq in E. cbn [negb orb]. now apply Hall. }
  split.
  - intros Hne.
    assert (Hpos : 0 < computeScopes scopes e) by lia.
    exists (Z.log2 (computeScopes scopes e)).
    assert (Hlog : 0 <= Z.log2 (computeScopes scopes e) < 64).
    { split; [apply Z.log2_nonneg|]. apply Z.log2_lt_pow2; lia. }
    split; [exact Hlog|]. apply Hbit; [exact Hlog|].
    now apply Z.bit_log2.
  - intros (i & Hi & Hset). apply Hbit in Hset; [|exact Hi].
    intros Hz. rewrite Hz, Z.bits_0 in Hset. discriminate Hset.
Qed.

Lemma shouldProcessEvent_keeps_iff_witness :
  snd (shouldProcessEvent [pidScope 5 1 0 false]
         (sampleEvent 59 150 (Z.lor (Z.shiftl 1 5) (Z.shiftl 1 9))
            EmptyString)) = true.
Proof.
  apply (shouldProcessEvent_keeps_iff [pidScope 5 1 0 false]
           (sampleEvent 59 150 (Z.lor (Z.shiftl 1 5) (Z.shiftl 1 9))
              EmptyString)).
  - vm_compute. split; [discriminate|reflexivity].
  - exists 9. split; [lia|]. split; [reflexivity|].
    intros s [<- | []] Hoff. vm_compute in Hoff. discriminate Hoff.
Defined.
